(** * Content-generation and recipe-extraction core of the automation app

    A shallow embedding of [src/recipe-extraction.js] and of the generation
    and formatting functions of [src/openai.js] / [src/wordpress.js], with the
    properties of the specification stated and proved over it.

    Strings are sequences of code units.  The development covers code units
    of the Latin-1 range (0..255), written [ascii]; a JavaScript string is a
    [list ascii].  Case mapping, white space, word characters and line
    terminators are those of ECMAScript restricted to that range. *)

From Stdlib Require Import Ascii String Bool Arith Lia NArith DecimalString DecimalPos List.
Import ListNotations.

(* ================================================================== *)
(** ** Code units and strings *)
(* ================================================================== *)

Definition str := list ascii.

Notation "` s" := (list_ascii_of_string s%string)
  (at level 1, s at level 0, format "` s").

Definition code (c : ascii) : N := N_of_ascii c.
Definition chr (n : N) : ascii := ascii_of_N n.

Definition between (lo hi n : N) : bool := (lo <=? n)%N && (n <=? hi)%N.

(** [String.prototype.toLowerCase], one code unit: A-Z and the Latin-1
    capitals U+00C0..U+00DE (but not the multiplication sign U+00D7). *)
Definition toLowerChar (c : ascii) : ascii :=
  let n := code c in
  if between 65 90 n || (between 192 222 n && negb (n =? 215)%N)
  then chr (n + 32) else c.

(** Canonicalize of a case-insensitive, non-unicode RegExp: the upper-case
    mapping when it is a single code unit.  U+00DF has a two-unit upper case
    and stays; U+00B5 and U+00FF map outside the range, to code units no
    other member of the range maps to, and are kept as their own class. *)
Definition canon (c : ascii) : ascii :=
  let n := code c in
  if between 97 122 n || (between 224 254 n && negb (n =? 247)%N)
  then chr (n - 32) else c.

(** WhiteSpace and LineTerminator: what [\s] matches and [trim] strips. *)
Definition isSpace (c : ascii) : bool :=
  let n := code c in between 9 13 n || (n =? 32)%N || (n =? 160)%N.

Definition isDigit (c : ascii) : bool := between 48 57 (code c).

(** [\w], which also decides [\b]. *)
Definition isWordChar (c : ascii) : bool :=
  let n := code c in
  between 97 122 n || between 65 90 n || between 48 57 n || (n =? 95)%N.

Definition isLineTerminator (c : ascii) : bool :=
  let n := code c in (n =? 10)%N || (n =? 13)%N.

(** Equality of two code units under the [i] flag or without it. *)
Definition ceq (ic : bool) (a b : ascii) : bool :=
  if ic then Ascii.eqb (canon a) (canon b) else Ascii.eqb a b.

Definition toLowerCase (s : str) : str := map toLowerChar s.

Fixpoint str_eqb (a b : str) : bool :=
  match a, b with
  | [], [] => true
  | x :: a', y :: b' => Ascii.eqb x y && str_eqb a' b'
  | _, _ => false
  end.

(** [s.startsWith(p)] *)
Fixpoint startsWith (s p : str) : bool :=
  match p, s with
  | [], _ => true
  | c :: p', x :: s' => Ascii.eqb c x && startsWith s' p'
  | _ :: _, [] => false
  end.

(** [s.endsWith(p)] *)
Definition endsWith (s p : str) : bool := startsWith (rev s) (rev p).

(** [s.includes(p)] *)
Fixpoint includes (s p : str) : bool :=
  startsWith s p ||
  match s with
  | [] => false
  | _ :: s' => includes s' p
  end.

(** [s.substring(a)] and [s.substring(a, b)] for [a <= b]. *)
Definition substringFrom (s : str) (a : nat) : str := skipn a s.
Definition substring (s : str) (a b : nat) : str := firstn (b - a) (skipn a s).

Fixpoint dropSpace (s : str) : str :=
  match s with
  | c :: s' => if isSpace c then dropSpace s' else s
  | [] => []
  end.

(** [s.trim()] *)
Definition trim (s : str) : str := rev (dropSpace (rev (dropSpace s))).

(** Truthiness of a string value. *)
Definition nonEmpty (s : str) : bool :=
  match s with [] => false | _ :: _ => true end.

(** [parts.join(sep)] *)
Fixpoint join (sep : str) (parts : list str) : str :=
  match parts with
  | [] => []
  | [p] => p
  | p :: ps => p ++ sep ++ join sep ps
  end.

(** [s.split(sep)] for a non-empty string separator: [cur] holds the piece
    being read (reversed), [skip] the code units of a separator still to be
    dropped. *)
Fixpoint splitOn_go (sep : str) (s : str) (skip : nat) (cur : str) : list str :=
  match s with
  | [] => [rev cur]
  | x :: s' =>
      match skip with
      | S k => splitOn_go sep s' k cur
      | O =>
          if startsWith s sep
          then rev cur :: splitOn_go sep s' (length sep - 1) []
          else splitOn_go sep s' 0 (x :: cur)
      end
  end.

Definition splitOn (s sep : str) : list str := splitOn_go sep s 0 [].

(** Decimal digits of a non-negative integer.  This is what [String(n)]
    prints for the integers a number holds exactly, those up to
    [maxSafeInteger]; a larger number is rounded and, from 10^21 on,
    printed with an exponent, which the digits do not show. *)
Definition digitsOf (n : N) : str :=
  match n with
  | N0 => `"0"
  | _ => list_ascii_of_string (NilEmpty.string_of_uint (N.to_uint n))
  end.

(** [Number.MAX_SAFE_INTEGER], that is 2^53 - 1. *)
Definition maxSafeInteger : N := 9007199254740991.

(* ================================================================== *)
(** ** Regular expressions

    The fragment of ECMAScript regular expressions the sources use, with the
    backtracking semantics of the language: ordered alternation, greedy and
    lazy repetition (an iteration that consumes nothing is rejected),
    capture groups, [^], [$], [\b], classes, and the [i] flag.  No source
    pattern has a capture group under a repetition, so the reset of captures
    at each iteration is not modelled. *)
(* ================================================================== *)

Inductive citem :=
| CChar (c : ascii)
| CRange (lo hi : ascii)
| CSpace            (* \s *)
| CNotSpace         (* \S *)
| CDigit.           (* \d *)

Inductive regex :=
| Eps
| Chr (c : ascii)
| Dot
| Cls (neg : bool) (items : list citem)
| Seq (r1 r2 : regex)
| Alt (r1 r2 : regex)
| Star (greedy : bool) (r : regex)
| Grp (i : nat) (r : regex)
| Bol
| Eol
| WordB.

Fixpoint lit (s : str) : regex :=
  match s with
  | [] => Eps
  | c :: s' => Seq (Chr c) (lit s')
  end.

Definition plus (greedy : bool) (r : regex) : regex := Seq r (Star greedy r).
Definition opt (r : regex) : regex := Alt r Eps.

Fixpoint seqs (rs : list regex) : regex :=
  match rs with
  | [] => Eps
  | [r] => r
  | r :: rs' => Seq r (seqs rs')
  end.

Fixpoint alts (rs : list regex) : regex :=
  match rs with
  | [] => Eps
  | [r] => r
  | r :: rs' => Alt r (alts rs')
  end.

Definition inRange (lo hi x : ascii) : bool := between (code lo) (code hi) (code x).

(** A class item matches [x]; under [i], when some member of the item has
    the canonical form of [x]. *)
Definition citemMatches (ic : bool) (it : citem) (x : ascii) : bool :=
  match it with
  | CChar c => ceq ic c x
  | CRange lo hi =>
      inRange lo hi x ||
      (ic && (inRange lo hi (canon x) || inRange lo hi (toLowerChar x)))
  | CSpace => isSpace x
  | CNotSpace => negb (isSpace x)
  | CDigit => isDigit x
  end.

Definition clsMatches (ic neg : bool) (items : list citem) (x : ascii) : bool :=
  xorb neg (existsb (fun it => citemMatches ic it x) items).

(** The matcher state: the code units before the position (last one first),
    those from the position on, and the captures made so far. *)
Record mstate := MState {
  consumed : str;
  rest : str;
  caps : list (nat * str)
}.

Definition cont := mstate -> option mstate.

Definition step (s : mstate) (x : ascii) (xs : str) : mstate :=
  MState (x :: consumed s) xs (caps s).

Definition setCap (i : nat) (v : str) (s : mstate) : mstate :=
  MState (consumed s) (rest s) ((i, v) :: caps s).

Definition isWordAt (s : str) : bool :=
  match s with
  | [] => false
  | c :: _ => isWordChar c
  end.

(** [\b]: exactly one of the two neighbours is a word character. *)
Definition atWordBoundary (before after : str) : bool :=
  xorb (isWordAt before) (isWordAt after).

Definition orElse (a b : option mstate) : option mstate :=
  match a with
  | Some _ => a
  | None => b
  end.

(** Repetition: [m] matches one iteration.  Each iteration has to consume,
    so [fuel] above the number of code units left is never used up. *)
Fixpoint starLoop (m : cont -> cont) (greedy : bool) (k : cont)
    (fuel : nat) (s : mstate) : option mstate :=
  match fuel with
  | O => None
  | S f =>
      let again :=
        m (fun s' =>
             if length (rest s') <? length (rest s)
             then starLoop m greedy k f s' else None) s in
      if greedy then orElse again (k s) else orElse (k s) again
  end.

Fixpoint rmatch (ic : bool) (r : regex) (k : cont) (s : mstate) : option mstate :=
  match r with
  | Eps => k s
  | Chr c =>
      match rest s with
      | x :: xs => if ceq ic c x then k (step s x xs) else None
      | [] => None
      end
  | Dot =>
      match rest s with
      | x :: xs => if isLineTerminator x then None else k (step s x xs)
      | [] => None
      end
  | Cls neg items =>
      match rest s with
      | x :: xs => if clsMatches ic neg items x then k (step s x xs) else None
      | [] => None
      end
  | Seq r1 r2 => rmatch ic r1 (rmatch ic r2 k) s
  | Alt r1 r2 => orElse (rmatch ic r1 k s) (rmatch ic r2 k s)
  | Star greedy r1 =>
      starLoop (rmatch ic r1) greedy k (S (length (rest s))) s
  | Grp i r1 =>
      rmatch ic r1
        (fun s' =>
           k (setCap i (firstn (length (rest s) - length (rest s')) (rest s)) s'))
        s
  | Bol => match consumed s with [] => k s | _ :: _ => None end
  | Eol => match rest s with [] => k s | _ :: _ => None end
  | WordB => if atWordBoundary (consumed s) (rest s) then k s else None
  end.

(** A match attempt at one position: the state at the end of the match. *)
Definition matchAt (ic : bool) (r : regex) (before after : str) : option mstate :=
  rmatch ic r (fun s => Some s) (MState before after []).

(** What [exec] / [match] return for a match. *)
Record reMatch := ReMatch {
  m_pre : str;              (* the subject before the match *)
  m_text : str;             (* the matched text, index 0 *)
  m_post : str;             (* the subject after the match *)
  m_caps : list (nat * str)
}.

Fixpoint lookupCap (i : nat) (cs : list (nat * str)) : option str :=
  match cs with
  | [] => None
  | (j, v) :: cs' => if Nat.eqb i j then Some v else lookupCap i cs'
  end.

(** [m[i]]: [None] is [undefined], a group that did not take part. *)
Definition group (m : reMatch) (i : nat) : option str := lookupCap i (m_caps m).

Definition mkMatch (before after : str) (e : mstate) : reMatch :=
  ReMatch (rev before)
          (firstn (length after - length (rest e)) after)
          (rest e) (caps e).

(** The leftmost match at or after the position. *)
Fixpoint searchFrom (ic : bool) (r : regex) (before after : str) : option reMatch :=
  match matchAt ic r before after with
  | Some e => Some (mkMatch before after e)
  | None =>
      match after with
      | [] => None
      | x :: after' => searchFrom ic r (x :: before) after'
      end
  end.

(** [re.test(s)] and [s.match(re)] without the [g] flag. *)
Definition reExec (ic : bool) (r : regex) (s : str) : option reMatch :=
  searchFrom ic r [] s.

Definition reTest (ic : bool) (r : regex) (s : str) : bool :=
  match reExec ic r s with Some _ => true | None => false end.

(** All matches of a [g] pattern, left to right, as the loops of
    [s.match(re)], of [re.exec(s)] and of [s.replace(re, ..)] find them:
    after a match the search resumes at its end, one code unit further when
    the match was empty.  [skip] counts the code units of the last match
    still to be passed. *)
Fixpoint matchesFrom (ic : bool) (r : regex) (before after : str) (skip : nat)
  : list reMatch :=
  match skip with
  | S k =>
      match after with
      | [] => []
      | x :: after' => matchesFrom ic r (x :: before) after' k
      end
  | O =>
      match matchAt ic r before after with
      | Some e =>
          mkMatch before after e ::
          match after with
          | [] => []
          | x :: after' =>
              matchesFrom ic r (x :: before) after'
                (length after - length (rest e) - 1)
          end
      | None =>
          match after with
          | [] => []
          | x :: after' => matchesFrom ic r (x :: before) after' 0
          end
      end
  end.

Definition reMatches (ic : bool) (r : regex) (s : str) : list reMatch :=
  matchesFrom ic r [] s 0.

(** [s.match(re)] with the [g] flag: the matched texts ([null] is the empty
    list here; the sources only test the result for being non-empty). *)
Definition reMatchAll (ic : bool) (r : regex) (s : str) : list str :=
  map m_text (reMatches ic r s).

(** Number of capture groups of a pattern. *)
Fixpoint groupCount (r : regex) : nat :=
  match r with
  | Seq r1 r2 | Alt r1 r2 => groupCount r1 + groupCount r2
  | Star _ r1 => groupCount r1
  | Grp _ r1 => S (groupCount r1)
  | _ => 0
  end.

Definition capText (m : reMatch) (i : nat) : str :=
  match group m i with
  | Some v => v
  | None => []
  end.

Definition digitVal (c : ascii) : nat := N.to_nat (code c - 48).

Definition isChar (a b : ascii) : bool := Ascii.eqb a b.

(** GetSubstitution of the language: the text a replacement string stands
    for at one match of a pattern with [n] groups and no named groups.  The
    dollar forms are expanded, every other code unit is copied. *)
Fixpoint getSubstitution (n : nat) (m : reMatch) (t : str) : str :=
  match t with
  | [] => []
  | c :: t' =>
      if isChar c "$" then
        match t' with
        | [] => [c]
        | d :: t'' =>
            if isChar d "$" then d :: getSubstitution n m t''
            else if isChar d "&" then m_text m ++ getSubstitution n m t''
            else if isChar d "`" then m_pre m ++ getSubstitution n m t''
            else if isChar d "'" then m_post m ++ getSubstitution n m t''
            else if isDigit d then
              let one :=
                if (1 <=? digitVal d) && (digitVal d <=? n)
                then capText m (digitVal d) ++ getSubstitution n m t''
                else c :: d :: getSubstitution n m t'' in
              match t'' with
              | d2 :: t''' =>
                  if isDigit d2 then
                    let i2 := 10 * digitVal d + digitVal d2 in
                    if i2 <=? n then
                      if 1 <=? i2
                      then capText m i2 ++ getSubstitution n m t'''
                      else c :: d :: d2 :: getSubstitution n m t'''
                    else one
                  else one
              | [] => one
              end
            else c :: getSubstitution n m t'
        end
      else c :: getSubstitution n m t'
  end.

(** [s.replace(re, ..)] with the [g] flag; [subst] gives the replacement
    text of a match. *)
Fixpoint replaceFrom (ic : bool) (r : regex) (subst : reMatch -> str)
    (before after : str) (skip : nat) : str :=
  match skip with
  | S k =>
      match after with
      | [] => []
      | x :: after' => replaceFrom ic r subst (x :: before) after' k
      end
  | O =>
      match matchAt ic r before after with
      | Some e =>
          subst (mkMatch before after e) ++
          match after with
          | [] => []
          | x :: after' =>
              match length after - length (rest e) with
              | O => x :: replaceFrom ic r subst (x :: before) after' 0
              | S k => replaceFrom ic r subst (x :: before) after' k
              end
          end
      | None =>
          match after with
          | [] => []
          | x :: after' => x :: replaceFrom ic r subst (x :: before) after' 0
          end
      end
  end.

(** [s.replace(re, t)] for a [g] pattern and a replacement string [t]. *)
Definition replaceAll (ic : bool) (r : regex) (t : str) (s : str) : str :=
  replaceFrom ic r (fun m => getSubstitution (groupCount r) m t) [] s 0.

(** [s.replace(re, t)] for a pattern without the [g] flag: the first match
    only. *)
Definition replaceFirst (ic : bool) (r : regex) (t : str) (s : str) : str :=
  match reExec ic r s with
  | Some m => m_pre m ++ getSubstitution (groupCount r) m t ++ m_post m
  | None => s
  end.

(** [s.split(re)] for a pattern without groups.  [cur] is the piece being
    read (reversed); a separator is never looked for at the end of the
    subject, and an empty match does not split where the piece is empty. *)
Fixpoint splitFrom (ic : bool) (r : regex) (before after : str) (skip : nat)
    (cur : str) : list str :=
  match after with
  | [] => [rev cur]
  | x :: after' =>
      match skip with
      | S k => splitFrom ic r (x :: before) after' k cur
      | O =>
          match matchAt ic r before after with
          | Some e =>
              match length after - length (rest e) with
              | O =>
                  match cur with
                  | [] => splitFrom ic r (x :: before) after' 0 [x]
                  | _ :: _ => rev cur :: splitFrom ic r (x :: before) after' 0 [x]
                  end
              | S k => rev cur :: splitFrom ic r (x :: before) after' k []
              end
          | None => splitFrom ic r (x :: before) after' 0 (x :: cur)
          end
      end
  end.

Definition reSplit (ic : bool) (r : regex) (s : str) : list str :=
  match s with
  | [] => match matchAt ic r [] [] with Some _ => [] | None => [[]] end
  | _ :: _ => splitFrom ic r [] s 0 []
  end.

(** Frequent pattern pieces. *)
Definition ws : regex := Cls false [CSpace].                   (* \s *)
Definition digit : regex := Cls false [CDigit].                (* \d *)
Definition anyChar : regex := Cls false [CSpace; CNotSpace].   (* [\s\S] *)
Definition notCh (c : string) : regex :=                      (* [^..] *)
  Cls true (map CChar (list_ascii_of_string c)).

(* ================================================================== *)
(** ** Exceptions *)
(* ================================================================== *)

Inductive error :=
| TypeError (msg : str)      (* raised by the language *)
| ApiError (msg : str).      (* a failed chat-completion call *)

(** The outcome of a computation that may throw. *)
Inductive js (A : Type) :=
| Ret (a : A)
| Throw (e : error).

Arguments Ret {A} a.
Arguments Throw {A} e.

Definition bind {A B : Type} (m : js A) (f : A -> js B) : js B :=
  match m with
  | Ret a => f a
  | Throw e => Throw e
  end.

Notation "x <- m ;; k" := (bind m (fun x => k))
  (at level 61, m at next level, right associativity).

(** [try { body } catch (e) { handler(e) }] *)
Definition tryCatch {A : Type} (body : js A) (handler : error -> js A) : js A :=
  match body with
  | Ret a => Ret a
  | Throw e => handler e
  end.

Fixpoint mapM {A B : Type} (f : A -> js B) (l : list A) : js (list B) :=
  match l with
  | [] => Ret []
  | a :: l' => b <- f a ;; bs <- mapM f l' ;; Ret (b :: bs)
  end.

(** A match entry in a template literal or a concatenation: [undefined]
    prints as its name. *)
Definition interp (v : option str) : str :=
  match v with
  | Some s => s
  | None => `"undefined"
  end.

(** Truthiness of a match entry: captured and not empty. *)
Definition truthyCap (v : option str) : bool :=
  match v with
  | Some s => nonEmpty s
  | None => false
  end.

(* ================================================================== *)
(** ** src/recipe-extraction.js *)
(* ================================================================== *)

Record Details := MkDetails {
  PrepTime : str;
  CookTime : str;
  TotalTime : str;
  Yield : str;
  Category : str;
  Method : str;
  Cuisine : str;
  Diet : str
}.

Record Nutrition := MkNutrition {
  ServingSize : str;
  Calories : str;
  Sugar : str;
  Sodium : str;
  Fat : str;
  SaturatedFat : str;
  UnsaturatedFat : str;
  TransFat : str;
  Carbohydrates : str;
  Fiber : str;
  Protein : str;
  Cholesterol : str
}.

Record RecipeData := MkRecipeData {
  Description : str;
  Ingredients : str;
  Instructions : str;
  Notes : str;
  RDetails : Details;
  Keywords : str;
  RNutrition : Nutrition
}.

Definition recipeIndicators : list str :=
  [ `"ingredients"; `"instructions"; `"preparation"; `"minutes";
    `"cook time"; `"prep time"; `"servings"; `"recipe"; `"tablespoon";
    `"teaspoon"; `"cup"; `"bake"; `"fry"; `"boil"; `"simmer" ].

(** The counter of the [forEach] over the indicators. *)
Definition indicatorCount (content : str) : nat :=
  length (filter (fun term => includes (toLowerCase content) term) recipeIndicators).

(** [/<p>(.*?)<\/p>/g] *)
Definition paragraphRe : regex :=
  seqs [lit `"<p>"; Grp 1 (Star false Dot); lit `"</p>"].

(** [/<\/?p>/g] *)
Definition pTagRe : regex := seqs [Chr "<"; opt (Chr "/"); lit `"p>"].

Definition stripP (p : str) : str := replaceAll false pTagRe [] p.

Definition extractDescription (content : str) : str :=
  let paragraphs := reMatchAll false paragraphRe content in
  match paragraphs with
  | p0 :: more =>
      let description := stripP p0 in
      let description :=
        match more with
        | p1 :: _ => if length description <? 50 then stripP p1 else description
        | [] => description
        end in
      if 300 <? length description
      then substring description 0 297 ++ `"..."
      else description
  | [] => `"A delicious and easy recipe that everyone will love."
  end.

(** [<h[2-3]] *)
Definition h23 : regex := Seq (lit `"<h") (Cls false [CRange "2" "3"]).

(** [/(?:<h[2-3][^>]*>(?: titles )<\/h[2-3]>)([\s\S]*?)(?:<h[2-3]|<\/body)/i]:
    a heading whose text is one of the alternatives [titles], the section
    after it as group 1, up to the next heading or the end of the body. *)
Definition sectionRe (titles : regex) : regex :=
  seqs [ h23; Star true (notCh ">"); Chr ">"; titles;
         lit `"</h"; Cls false [CRange "2" "3"]; Chr ">";
         Grp 1 (Star false anyChar);
         Alt h23 (lit `"</body") ].

Definition notLt : regex := Star true (notCh "<").   (* [^<]* *)

(** The alternatives [[^<]*ingredients] and [ingredients[^<]*]. *)
Definition ingredientsTitles : regex :=
  Alt (Seq notLt (lit `"ingredients")) (Seq (lit `"ingredients") notLt).

(** [/<ul>([\s\S]*?)<\/ul>/] and [/<ol>([\s\S]*?)<\/ol>/] *)
Definition ulRe : regex := seqs [lit `"<ul>"; Grp 1 (Star false anyChar); lit `"</ul>"].
Definition olRe : regex := seqs [lit `"<ol>"; Grp 1 (Star false anyChar); lit `"</ol>"].

(** [/<br\s*\/?>/] *)
Definition brRe : regex := seqs [lit `"<br"; Star true ws; opt (Chr "/"); Chr ">"].

(** The section after a heading: group 1 of the match when it is not
    empty. *)
Definition sectionOf (titles : regex) (content : str) : option str :=
  match reExec true (sectionRe titles) content with
  | Some m => if truthyCap (group m 1) then group m 1 else None
  | None => None
  end.

Definition ingredientLine (line : str) : str :=
  let line := trim line in
  if nonEmpty line && negb (startsWith line `"<") && negb (endsWith line `">")
     && (3 <? length line)
  then `"<li>" ++ line ++ `"</li>" else [].

Definition isMeasuredList (list : str) : bool :=
  let l := toLowerCase list in
  includes l `"cup" || includes l `"teaspoon" || includes l `"tablespoon"
  || includes l `"ounce" || includes l `"pound".

(** [!v || v === empty] *)
Definition emptyOr (empty v : str) : bool := negb (nonEmpty v) || str_eqb v empty.

Definition extractIngredients (content : str) : str :=
  let fromLines section :=
    let lines := reSplit false brRe section in
    if 2 <? length lines
    then `"<ul>" ++ concat (map ingredientLine lines) ++ `"</ul>"
    else [] in
  let ingredients :=
    match sectionOf ingredientsTitles content with
    | Some section =>
        match reExec true ulRe section with
        | Some ulMatch =>
            if truthyCap (group ulMatch 1)
            then `"<ul>" ++ interp (group ulMatch 1) ++ `"</ul>"
            else fromLines section
        | None => fromLines section
        end
    | None => []
    end in
  let ingredients :=
    if emptyOr `"<ul></ul>" ingredients then
      match find isMeasuredList (reMatchAll false ulRe content) with
      | Some list => list
      | None => ingredients
      end
    else ingredients in
  if emptyOr `"<ul></ul>" ingredients
  then `"<ul><li>Ingredient 1</li><li>Ingredient 2</li><li>Ingredient 3</li></ul>"
  else ingredients.

(** The alternatives [[^<]*instructions], [directions], [method], [steps]
    and [how to[^<]*]. *)
Definition instructionsTitles : regex :=
  alts [ Seq notLt (lit `"instructions"); lit `"directions"; lit `"method";
         lit `"steps"; Seq (lit `"how to") notLt ].

(** [/^\d+[\.\)\-]+\s*/] *)
Definition leadingNumberRe : regex :=
  seqs [ Bol; plus true digit;
         plus true (Cls false [CChar "."; CChar ")"; CChar "-"]); Star true ws ].

Definition instructionItem (p : str) : str :=
  let text := trim (stripP p) in
  if nonEmpty text && (5 <? length text)
  then `"<li>" ++ replaceFirst false leadingNumberRe [] text ++ `"</li>"
  else [].

(** The longest list, the first one among equals. *)
Definition longestOf (lists : list str) : str :=
  fold_left (fun longest list =>
               if length longest <? length list then list else longest)
            lists [].

Definition extractInstructions (content : str) : str :=
  let fromParagraphs section :=
    let paragraphs := reMatchAll false paragraphRe section in
    if 1 <? length paragraphs
    then `"<ol>" ++ concat (map instructionItem paragraphs) ++ `"</ol>"
    else [] in
  let instructions :=
    match sectionOf instructionsTitles content with
    | Some section =>
        match reExec true olRe section with
        | Some olMatch =>
            if truthyCap (group olMatch 1)
            then `"<ol>" ++ interp (group olMatch 1) ++ `"</ol>"
            else fromParagraphs section
        | None => fromParagraphs section
        end
    | None => []
    end in
  let instructions :=
    if emptyOr `"<ol></ol>" instructions then
      match reMatchAll false olRe content with
      | [] => instructions
      | allOrderedLists => longestOf allOrderedLists
      end
    else instructions in
  if emptyOr `"<ol></ol>" instructions
  then `"<ol><li>Step 1</li><li>Step 2</li><li>Step 3</li></ol>"
  else instructions.

(** The alternatives [[^<]*notes], [tips], [additional] and
    [advice[^<]*]. *)
Definition notesTitles : regex :=
  alts [ Seq notLt (lit `"notes"); lit `"tips"; lit `"additional";
         Seq (lit `"advice") notLt ].

Definition noteItem (p : str) : str :=
  let text := trim (stripP p) in
  if nonEmpty text && (5 <? length text)
  then `"<li>" ++ text ++ `"</li>" else [].

Definition extractNotes (content : str) : str :=
  let fromParagraphs section :=
    match reMatchAll false paragraphRe section with
    | [] => []
    | paragraphs => `"<ul>" ++ concat (map noteItem paragraphs) ++ `"</ul>"
    end in
  let notes :=
    match sectionOf notesTitles content with
    | Some section =>
        match reExec true ulRe section with
        | Some ulMatch =>
            if truthyCap (group ulMatch 1)
            then `"<ul>" ++ interp (group ulMatch 1) ++ `"</ul>"
            else fromParagraphs section
        | None => fromParagraphs section
        end
    | None => []
    end in
  if nonEmpty notes then notes
  else `"<ul><li>For best results, let the dish rest for 5 minutes before serving.</li></ul>".

(** [head\s+time:?\s*(\d+)(?:\s+to\s+(\d+))?\s+(minutes|hours)] *)
Definition timeRe (head : regex) : regex :=
  seqs [ head; plus true ws; lit `"time"; opt (Chr ":"); Star true ws;
         Grp 1 (plus true digit);
         opt (seqs [plus true ws; lit `"to"; plus true ws; Grp 2 (plus true digit)]);
         plus true ws;
         Grp 3 (Alt (lit `"minutes") (lit `"hours")) ].

(** [prep(?:aration)?], [cook(?:ing)?] and [total]. *)
Definition prepHead : regex := Seq (lit `"prep") (opt (lit `"aration")).
Definition cookHead : regex := Seq (lit `"cook") (opt (lit `"ing")).
Definition totalHead : regex := lit `"total".

(** The first [switch] of [extractTime]: the match on the lower-cased
    content, [undefined] ([None]) for any other time type. *)
Definition timeMatch (content timeType : str) : option reMatch :=
  let lowerContent := toLowerCase content in
  if str_eqb timeType `"prep" then reExec true (timeRe prepHead) lowerContent
  else if str_eqb timeType `"cook" then reExec true (timeRe cookHead) lowerContent
  else if str_eqb timeType `"total" then reExec true (timeRe totalHead) lowerContent
  else None.

Definition defaultTime (timeType : str) : str :=
  if str_eqb timeType `"prep" then `"15 minutes"
  else if str_eqb timeType `"cook" then `"30 minutes"
  else if str_eqb timeType `"total" then `"45 minutes"
  else [].

(** [timeMatch[3].toLowerCase()] throws when group 3 is [undefined]. *)
Definition extractTime (content timeType : str) : js str :=
  match timeMatch content timeType with
  | Some m =>
      let time := group m 1 in
      match group m 3 with
      | Some u => Ret (interp time ++ `" " ++ toLowerCase u)
      | None => Throw (TypeError `"Cannot read properties of undefined (reading 'toLowerCase')")
      end
  | None => Ret (defaultTime timeType)
  end.

(** [/(?:serves|servings|yield|makes):\s*(\d+)(?:\s*-\s*(\d+))?/i] *)
Definition yieldRe : regex :=
  seqs [ alts [lit `"serves"; lit `"servings"; lit `"yield"; lit `"makes"];
         Chr ":"; Star true ws; Grp 1 (plus true digit);
         opt (seqs [Star true ws; Chr "-"; Star true ws; Grp 2 (plus true digit)]) ].

Definition extractYield (content : str) : str :=
  let lowerContent := toLowerCase content in
  match reExec true yieldRe lowerContent with
  | Some servingsMatch =>
      if truthyCap (group servingsMatch 2)
      then interp (group servingsMatch 1) ++ `"-" ++ interp (group servingsMatch 2)
           ++ `" servings"
      else interp (group servingsMatch 1) ++ `" servings"
  | None => `"4 servings"
  end.

(** U+00E9, the e with acute accent of three of the search terms. *)
Definition eAcute : str := [chr 233].

Definition determineCategory (content keyword : str) : str :=
  let lowerContent := toLowerCase content in
  let lowerKeyword := toLowerCase keyword in
  if includes lowerContent `"breakfast" || includes lowerKeyword `"breakfast"
     || includes lowerContent `"morning meal" then `"Breakfast"
  else if includes lowerContent `"appetizer" || includes lowerKeyword `"appetizer"
     || includes lowerContent `"starter" || includes lowerContent `"hors d'oeuvre"
  then `"Appetizer"
  else if includes lowerContent `"main course" || includes lowerContent `"dinner"
     || includes lowerContent (`"entr" ++ eAcute ++ `"e")
     || includes lowerContent `"entree" then `"Main Course"
  else if includes lowerContent `"dessert" || includes lowerKeyword `"dessert"
     || includes lowerContent `"sweet" || includes lowerContent `"cake"
     || includes lowerContent `"cookie" || includes lowerContent `"pie"
  then `"Dessert"
  else if includes lowerContent `"side dish" || includes lowerKeyword `"side"
     || includes lowerContent `"accompaniment" then `"Side Dish"
  else if includes lowerContent `"soup" || includes lowerKeyword `"soup"
     || includes lowerContent `"stew" || includes lowerContent `"broth"
  then `"Soup"
  else if includes lowerContent `"salad" || includes lowerKeyword `"salad"
  then `"Salad"
  else if includes lowerContent `"drink" || includes lowerContent `"beverage"
     || includes lowerContent `"cocktail" || includes lowerContent `"smoothie"
  then `"Drink"
  else `"Main Course".

Definition determineMethod (content : str) : str :=
  let lowerContent := toLowerCase content in
  if includes lowerContent `"bake" || includes lowerContent `"roast"
     || includes lowerContent `"oven" then `"Baking"
  else if includes lowerContent `"boil" || includes lowerContent `"blanch"
  then `"Boiling"
  else if includes lowerContent `"grill" || includes lowerContent `"barbecue"
     || includes lowerContent `"bbq" then `"Grilling"
  else if includes lowerContent `"slow cooker" || includes lowerContent `"crockpot"
  then `"Slow Cooking"
  else if includes lowerContent `"pressure cooker"
     || includes lowerContent `"instant pot" then `"Pressure Cooking"
  else if includes lowerContent `"steam" then `"Steaming"
  else if includes lowerContent `"fry"
     || includes lowerContent (`"saut" ++ eAcute)
     || includes lowerContent `"saute" then `"Frying"
  else if includes lowerContent `"no cook" || includes lowerContent `"no-cook"
     || includes lowerContent `"raw" then `"No-Cook"
  else `"Cooking".

(** A named list of search terms, as the tables of cuisines and diets. *)
Record termTable := MkTerms { name : str; terms : list str }.

Definition cuisines : list termTable :=
  [ MkTerms `"Italian" [`"italian"; `"pasta"; `"pizza"; `"risotto"; `"lasagna"];
    MkTerms `"Mexican" [`"mexican"; `"taco"; `"burrito"; `"enchilada"; `"quesadilla"; `"salsa"];
    MkTerms `"Chinese" [`"chinese"; `"stir fry"; `"stir-fry"; `"wok"; `"dim sum"; `"dumpling"];
    MkTerms `"Indian" [`"indian"; `"curry"; `"masala"; `"tandoori"; `"naan"];
    MkTerms `"French" [`"french"; `"ratatouille"; `"croissant"; `"souffl" ++ eAcute; `"souffle"];
    MkTerms `"Thai" [`"thai"; `"pad thai"; `"curry"; `"tom yum"];
    MkTerms `"Japanese" [`"japanese"; `"sushi"; `"teriyaki"; `"miso"; `"tempura"];
    MkTerms `"Mediterranean" [`"mediterranean"; `"greek"; `"hummus"; `"falafel"; `"olive oil"];
    MkTerms `"American" [`"american"; `"burger"; `"hot dog"; `"mac and cheese"; `"barbecue"] ].

(** The nested [for] loops over a table: the name of the first entry one of
    whose terms satisfies [hit]. *)
Definition firstEntry (hit : str -> bool) (table : list termTable) : option str :=
  option_map name (find (fun entry => existsb hit (terms entry)) table).

Definition determineCuisine (content keyword : str) : str :=
  let lowerContent := toLowerCase content in
  let lowerKeyword := toLowerCase keyword in
  match firstEntry (fun term => includes lowerContent term || includes lowerKeyword term)
                   cuisines with
  | Some n => n
  | None => `"American"
  end.

Definition dietPatterns : list termTable :=
  [ MkTerms `"Vegan" [`"vegan"; `"plant-based"; `"no animal products"];
    MkTerms `"Vegetarian" [`"vegetarian"; `"no meat"; `"meatless"];
    MkTerms `"Gluten Free" [`"gluten-free"; `"gluten free"; `"without gluten"];
    MkTerms `"Low Calorie" [`"low calorie"; `"low-calorie"; `"diet"; `"light"];
    MkTerms `"Low Fat" [`"low fat"; `"low-fat"; `"fat free"];
    MkTerms `"Low Salt" [`"low salt"; `"low-salt"; `"low sodium"];
    MkTerms `"Diabetic" [`"diabetic"; `"diabetes"; `"low sugar"; `"sugar-free"];
    MkTerms `"Kosher" [`"kosher"; `"jewish dietary laws"];
    MkTerms `"Halal" [`"halal"; `"islamic dietary laws"] ].

Definition determineDiet (content : str) : str :=
  let lowerContent := toLowerCase content in
  match firstEntry (fun term => includes lowerContent term) dietPatterns with
  | Some n => n
  | None => []
  end.

(** [/<h[2-3][^>]*>(.*?)<\/h[2-3]>/g] and [/<\/?h[2-3][^>]*>/g] *)
Definition headerRe : regex :=
  seqs [ h23; Star true (notCh ">"); Chr ">"; Grp 1 (Star false Dot);
         lit `"</h"; Cls false [CRange "2" "3"]; Chr ">" ].
Definition headerTagRe : regex :=
  seqs [ Chr "<"; opt (Chr "/"); Chr "h"; Cls false [CRange "2" "3"];
         Star true (notCh ">"); Chr ">" ].

(** [/ingredients|instructions|steps|notes|tips/i] *)
Definition sectionWordRe : regex :=
  alts [ lit `"ingredients"; lit `"instructions"; lit `"steps"; lit `"notes";
         lit `"tips" ].

(** [/^,\s*/] *)
Definition leadingCommaRe : regex := seqs [Bol; Chr ","; Star true ws].

Definition commonKeywords : list str :=
  [ `"homemade"; `"easy"; `"delicious"; `"quick"; `"healthy";
    `"family"; `"dinner"; `"recipe"; `"best"; `"traditional" ].

Definition extractKeywords (content : str) : str :=
  let headers := reMatchAll false headerRe content in
  let keywordsStr :=
    fold_left (fun acc header =>
                 let text := trim (replaceAll false headerTagRe [] header) in
                 if nonEmpty text && negb (reTest true sectionWordRe text)
                 then acc ++ `", " ++ text else acc)
              headers [] in
  let lowerContent := toLowerCase content in
  let keywordsStr :=
    fold_left (fun acc keyword =>
                 if includes lowerContent keyword && negb (includes acc keyword)
                 then acc ++ `", " ++ keyword else acc)
              commonKeywords keywordsStr in
  replaceFirst false leadingCommaRe [] keywordsStr.

(** The alternatives [[^<]*nutrition], [nutritional] and
    [nutrients[^<]*]. *)
Definition nutritionTitles : regex :=
  alts [ Seq notLt (lit `"nutrition"); lit `"nutritional";
         Seq (lit `"nutrients") notLt ].

(** [/calories:?\s*(\d+)/i] *)
Definition caloriesRe : regex :=
  seqs [lit `"calories"; opt (Chr ":"); Star true ws; Grp 1 (plus true digit)].

(** [label:?\s*(NUM)\s*(unit|units)] where [NUM] is [\d+\.?\d*]. *)
Definition amountRe (label : regex) (unit units : string) : regex :=
  seqs [ label; opt (Chr ":"); Star true ws;
         Grp 1 (seqs [plus true digit; opt (Chr "."); Star true digit]);
         Star true ws;
         Grp 2 (Alt (lit (list_ascii_of_string unit)) (lit (list_ascii_of_string units))) ].

(** One nutrition entry: group 1 of the pattern with its unit, or empty. *)
Definition amountOf (r : regex) (unit : str) (section : option str) : str :=
  match section with
  | Some text =>
      match reExec true r text with
      | Some m => interp (group m 1) ++ unit
      | None => []
      end
  | None => []
  end.

Definition orDefault (v dflt : str) : str := if nonEmpty v then v else dflt.

Definition extractNutrition (content : str) : Nutrition :=
  let section := option_map toLowerCase (sectionOf nutritionTitles content) in
  let calories := amountOf caloriesRe [] section in
  let fat := amountOf (amountRe (lit `"fat") "g" "grams") `"g" section in
  let carbs :=
    amountOf (amountRe (seqs [lit `"carb"; opt (lit `"ohydrate"); Chr "s"]) "g" "grams")
             `"g" section in
  let protein := amountOf (amountRe (lit `"protein") "g" "grams") `"g" section in
  let sugar := amountOf (amountRe (lit `"sugar") "g" "grams") `"g" section in
  let fiber := amountOf (amountRe (lit `"fiber") "g" "grams") `"g" section in
  let sodium := amountOf (amountRe (lit `"sodium") "mg" "milligrams") `"mg" section in
  let cholesterol :=
    amountOf (amountRe (lit `"cholesterol") "mg" "milligrams") `"mg" section in
  {| ServingSize := orDefault [] `"1 serving";
     Calories := orDefault calories `"250";
     Sugar := sugar;
     Sodium := sodium;
     Fat := orDefault fat `"10g";
     SaturatedFat := [];
     UnsaturatedFat := [];
     TransFat := [];
     Carbohydrates := orDefault carbs `"30g";
     Fiber := fiber;
     Protein := orDefault protein `"15g";
     Cholesterol := cholesterol |}.

(** [extractRecipeData]: [null] ([None]) under three indicators, the
    record otherwise; the fields are evaluated in the order of the object
    literal. *)
Definition extractRecipeData (content keyword : str) : js (option RecipeData) :=
  if indicatorCount content <? 3 then Ret None
  else
    let description := extractDescription content in
    let ingredients := extractIngredients content in
    let instructions := extractInstructions content in
    let notes := extractNotes content in
    prep <- extractTime content `"prep" ;;
    cook <- extractTime content `"cook" ;;
    total <- extractTime content `"total" ;;
    let details :=
      {| PrepTime := prep; CookTime := cook; TotalTime := total;
         Yield := extractYield content;
         Category := determineCategory content keyword;
         Method := determineMethod content;
         Cuisine := determineCuisine content keyword;
         Diet := determineDiet content |} in
    Ret (Some {| Description := description;
                 Ingredients := ingredients;
                 Instructions := instructions;
                 Notes := notes;
                 RDetails := details;
                 Keywords := keyword ++ extractKeywords content;
                 RNutrition := extractNutrition content |}).

(* ================================================================== *)
(** ** src/openai.js: term suppression *)
(* ================================================================== *)

Definition dq : str := [chr 34].     (* the double quote *)
Definition nl : str := [chr 10].     (* the line feed *)
Definition bs : ascii := chr 92.     (* the backslash *)

(** [/[.*+?^${}()|[\]\\]/g], the class of [escapeRegExp]. *)
Definition specialRe : regex :=
  Cls false (map CChar (`".*+?^${}()|[]" ++ [bs])).

(** [escapeRegExp]: a backslash before each special character; the
    replacement string is a backslash followed by [$&]. *)
Definition escapeRegExp (s : str) : str :=
  replaceAll false specialRe (bs :: `"$&") s.

Definition isSyntaxChar (c : ascii) : bool :=
  existsb (Ascii.eqb c) (`"^$.*+?()[]{}|" ++ [bs]).

(** [new RegExp(source, flags)] for the sources this program builds: the
    assertion [\b], a backslash followed by a syntax character (the
    character itself), and pattern characters.  Other forms do not occur
    in those sources and are read as ordinary characters. *)
Fixpoint newRegExp (source : str) : regex :=
  match source with
  | [] => Eps
  | c :: source' =>
      if Ascii.eqb c bs then
        match source' with
        | d :: source'' =>
            if Ascii.eqb d "b" then Seq WordB (newRegExp source'')
            else if isSyntaxChar d then Seq (Chr d) (newRegExp source'')
            else Seq (Chr c) (newRegExp source')
        | [] => Seq (Chr c) Eps
        end
      else Seq (Chr c) (newRegExp source')
  end.

(** The pattern of [parseAvoidTerms], with [g]: a run between double
    quotes (group 1), or a run between single quotes (group 2), or a run
    without comma and quotes (group 3); each run is not empty. *)
Definition termRegex : regex :=
  alts [ seqs [Chr (chr 34); Grp 1 (plus true (Cls true [CChar (chr 34)])); Chr (chr 34)];
         seqs [Chr "'"; Grp 2 (plus true (notCh "'")); Chr "'"];
         Grp 3 (plus true (Cls true [CChar ","; CChar (chr 34); CChar "'"])) ].

(** [a || b] on match entries. *)
Definition orCap (a b : option str) : option str := if truthyCap a then a else b.

Definition parseAvoidTerms (thingsToAvoid : str) : list str :=
  flat_map (fun m =>
              let term := orCap (group m 1) (orCap (group m 2) (group m 3)) in
              match term with
              | Some t => if nonEmpty (trim t) then [trim t] else []
              | None => []
              end)
           (reMatches false termRegex thingsToAvoid).

(** The pattern of the clean-up: [^Q(.+)Q$] where [Q] is the class of the
    double and the single quote. *)
Definition quotedRe : regex :=
  seqs [ Bol; Cls false [CChar (chr 34); CChar "'"]; Grp 1 (plus true Dot);
         Cls false [CChar (chr 34); CChar "'"]; Eol ].

(** An element of a parsed JSON array: a string, or a value of another
    kind. *)
Inductive json :=
| JString (s : str)
| JOther.

(** [new RegExp(`\\b${escapeRegExp(term)}\\b`, 'gi')] *)
Definition wordPattern (term : str) : regex :=
  newRegExp (bs :: "b"%char :: escapeRegExp term ++ [bs; "b"%char]).

Definition alternative : str := `"[alternative]".

Section Suppression.

(** [JSON.parse] on a text whose trimmed form starts with [[] and ends with
    []]: the elements of the array, or [None] when it throws. *)
Variable JSON_parse : str -> option (list json).

(** The first half of [removeProhibitedContent]: the parsed, cleaned and
    normalised terms.  [term.trim] of an element that is no string throws. *)
Definition avoidTermsOf (thingsToAvoid : str) : js (list str) :=
  let parsed :=
    if startsWith (trim thingsToAvoid) `"[" && endsWith (trim thingsToAvoid) `"]"
    then match JSON_parse thingsToAvoid with
         | Some elements => elements
         | None => map JString (parseAvoidTerms thingsToAvoid)
         end
    else map JString (parseAvoidTerms thingsToAvoid) in
  cleaned <- mapM (fun term =>
                     match term with
                     | JString s =>
                         Ret (toLowerCase (replaceFirst false quotedRe `"$1" (trim s)))
                     | JOther => Throw (TypeError `"term.trim is not a function")
                     end) parsed ;;
  Ret (filter nonEmpty cleaned).

(** The [forEach] over the terms: each one replaced in turn. *)
Definition replaceTerms (avoidTerms : list str) (content : str) : str :=
  fold_left (fun content term => replaceAll true (wordPattern term) alternative content)
            avoidTerms content.

Definition removeProhibitedContent (content thingsToAvoid : str) : js str :=
  avoidTerms <- avoidTermsOf thingsToAvoid ;;
  Ret (replaceTerms avoidTerms content).

End Suppression.

(* ================================================================== *)
(** ** src/openai.js: prompt variables and word count *)
(* ================================================================== *)

(** [applyPromptVariables(template, { keyword, minWords })]: the entries
    are visited in insertion order; a number value is converted to its
    string by [replace].  The number of words is a non-negative integer. *)
Definition applyPromptVariables (template keyword : str) (minWords : N) : str :=
  fold_left (fun result kv =>
               replaceAll false (newRegExp (bs :: "{"%char :: fst kv ++ [bs; "}"%char]))
                          (snd kv) result)
            [ (`"keyword", keyword); (`"minWords", digitsOf minWords) ]
            template.

(** [text.split(/\s+/).filter(word => word.length > 0).length] *)
Definition countWords (text : str) : nat :=
  length (filter nonEmpty (reSplit false (plus true ws) text)).

(* ================================================================== *)
(** ** src/openai.js: article generation *)
(* ================================================================== *)

Record PromptSettings := MkPromptSettings {
  useMultiPartGeneration : bool;
  mainPrompt : str;
  part1Prompt : str;
  part2Prompt : str;
  part3Prompt : str;
  toneVoice : str;
  seoGuidelines : str;
  thingsToAvoid : str;
  articleFormat : str;
  useArticleFormat : bool;
  enableRecipeDetection : bool;
  recipeFormatPrompt : str
}.

(** The configuration of the client.  [temperature] is only passed on; it
    is kept in hundredths. *)
Record OpenAIConfig := MkOpenAIConfig {
  apiKey : str;
  model : str;
  temperature : N;
  maxTokens : N
}.

(** The argument of [openai.chat.completions.create]. *)
Record ChatRequest := MkChatRequest {
  req_model : str;
  req_system : str;
  req_user : str;
  req_temperature : N;
  req_max_tokens : N
}.

Record Article := MkArticle {
  title : str;
  content : str;
  wordCount : nat;
  recipeData : option RecipeData
}.

(** A generation step: it sees the requests made so far and adds its own. *)
Definition Gen (A : Type) : Type := list ChatRequest -> js A * list ChatRequest.

Definition gret {A : Type} (a : A) : Gen A := fun log => (Ret a, log).

Definition gbind {A B : Type} (m : Gen A) (f : A -> Gen B) : Gen B :=
  fun log =>
    match m log with
    | (Ret a, log') => f a log'
    | (Throw e, log') => (Throw e, log')
    end.

Definition lift {A : Type} (m : js A) : Gen A := fun log => (m, log).

(** [try { body } catch (error) { throw error }] *)
Definition rethrow {A : Type} (body : Gen A) : Gen A :=
  fun log =>
    match body log with
    | (Ret a, log') => (Ret a, log')
    | (Throw e, log') => (Throw e, log')
    end.

Notation "x <~ m ;; k" := (gbind m (fun x => k))
  (at level 61, m at next level, right associativity).

Definition systemBase : str :=
  `"You are a professional content writer specializing in SEO-optimized articles that follow WordPress formatting standards.".

Definition defaultContentPrompt (keyword : str) (minWords : N) : str :=
  `"Write a comprehensive, engaging, and SEO-optimized article about " ++ dq ++
  keyword ++ dq ++ `" that follows these guidelines:" ++ nl ++ `"      " ++
  nl ++ `"      1. The article should be at least " ++ digitsOf minWords ++
  `" words" ++ nl ++
  `"      2. Use proper WordPress formatting with H2 and H3 headings (no H1 as that's for the title)" ++
  nl ++ `"      3. Include a compelling introduction that hooks the reader" ++
  nl ++
  `"      4. Break down the topic into logical sections with descriptive headings" ++
  nl ++ `"      5. Include practical tips, examples, and actionable advice" ++
  nl ++ `"      6. Add a conclusion that summarizes key points" ++ nl ++
  `"      7. Optimize for SEO with natural keyword usage" ++ nl ++
  `"      8. Make the content valuable and informative for the reader" ++ nl ++
  `"      " ++ nl ++ `"      Format the article with proper HTML tags:" ++
  nl ++ `"      - Use <h2> for main section headings" ++ nl ++
  `"      - Use <h3> for subsection headings" ++ nl ++
  `"      - Use <p> for paragraphs" ++ nl ++
  `"      - Use <ul> and <li> for bullet points where appropriate" ++ nl ++
  `"      - Use <ol> and <li> for numbered lists where appropriate" ++ nl ++
  `"      " ++ nl ++
  `"      Write in a conversational, authoritative tone that engages the reader.".

Definition defaultRecipeFormat : str :=
  nl ++ nl ++ `"RECIPE FORMAT INSTRUCTIONS:" ++ nl ++
  `"Please format this as a recipe article with the following sections:" ++
  nl ++ `"1. A brief introduction about the dish" ++ nl ++ `"2. A " ++ dq ++
  `"Ingredients" ++ dq ++
  `" section with a clear, bulleted list (<ul><li>) of all ingredients with quantities" ++
  nl ++ `"3. A " ++ dq ++ `"Instructions" ++ dq ++
  `" section with numbered steps (<ol><li>) for preparation" ++ nl ++
  `"4. Include preparation time, cooking time, and servings information clearly labeled (e.g., " ++
  dq ++ `"Prep Time: 15 minutes" ++ dq ++ `")" ++ nl ++ `"5. Add a " ++ dq ++
  `"Tips and Notes" ++ dq ++
  `" section with helpful advice for making this recipe" ++ nl ++
  `"6. If relevant, include nutrition information".

Definition toneDirective (tone : str) : str :=
  nl ++ nl ++ `"Write in the following tone/voice: " ++ tone.

Definition seoDirective (seo : str) : str :=
  nl ++ nl ++ `"Follow these additional SEO guidelines:" ++ nl ++ seo.

Definition avoidDirective (avoid : str) : str :=
  nl ++ nl ++
  `"IMPORTANT: DO NOT mention, include, or reference ANY of the following in your content. This is a strict requirement. DO NOT use ANY of these terms or concepts:" ++
  nl ++ avoid.

Definition formatDirective (format : str) : str :=
  nl ++ nl ++ `"ARTICLE FORMAT INSTRUCTIONS:" ++ nl ++
  `"Follow this specific structure and format for the article:" ++ nl ++ format.

Definition recipeDirective (recipe : str) : str :=
  nl ++ nl ++ `"RECIPE FORMAT INSTRUCTIONS:" ++ nl ++ recipe.

Definition titlePromptFor (keyword : str) : str :=
  `"Create an engaging, SEO-friendly title for an article about " ++ dq ++
  keyword ++ dq ++ `" that will attract clicks and is optimized for SEO.".

Definition titleAvoidDirective (avoid : str) : str :=
  nl ++ nl ++ `"IMPORTANT: DO NOT use ANY of the following words in the title: " ++ avoid.

Definition titleSystem : str :=
  `"Generate a compelling, SEO-friendly title for this article.".

(** [/recipe|dish|cook|bake|food|meal|breakfast|lunch|dinner|dessert|appetizer|snack/] *)
Definition recipeSignalRe : regex :=
  alts (map (fun w => lit (list_ascii_of_string w))
            [ "recipe"; "dish"; "cook"; "bake"; "food"; "meal"; "breakfast";
              "lunch"; "dinner"; "dessert"; "appetizer"; "snack" ]%string).

Definition recipeInstructionsFor (keyword : str) (ps : PromptSettings) : str :=
  if enableRecipeDetection ps && reTest false recipeSignalRe (toLowerCase keyword)
  then if nonEmpty (recipeFormatPrompt ps)
       then recipeDirective (recipeFormatPrompt ps)
       else defaultRecipeFormat
  else [].

Definition defaultPart1 : str :=
  `"Write an engaging introduction for an article about {keyword}. The introduction should hook the reader, explain why the topic is important, and preview what the article will cover. Use approximately {minWords} words.".
Definition defaultPart2 : str :=
  `"Write the main body content for an article about {keyword}. This should include detailed information, breakdown of the topic into logical sections with appropriate H2 and H3 headings, practical tips, examples, and actionable advice. Use approximately {minWords} words.".
Definition defaultPart3 : str :=
  `"Write a conclusion for an article about {keyword}. The conclusion should summarize the key points, provide final thoughts, and possibly include a call to action. Use approximately {minWords} words.".

(** The pattern of the title clean-up: one double quote, with [g]. *)
Definition quoteRe : regex := Chr (chr 34).

(** [a || b] on strings. *)
Definition orStr (a b : str) : str := if nonEmpty a then a else b.

Section Generation.

Variable JSON_parse : str -> option (list json).

(** The chat-completion service: what the call numbered [n] (counting from
    0) returns for a request, the value of [choices[0].message.content],
    or the error it fails with.  The content of an answer is a text or
    [null] ([None]), as the interface of the service declares it. *)
Variable llm : nat -> ChatRequest -> js (option str).

(** [await openai.chat.completions.create(request)] and the access to the
    content of the first choice. *)
Definition createCompletion (request : ChatRequest) : Gen (option str) :=
  fun log => (llm (length log) request, log ++ [request]).

(** The error of a method call on [null]. *)
Definition nullAccess (method : str) : error :=
  TypeError (`"Cannot read properties of null (reading '" ++ method ++ `"')").

(** A content that may be [null] in a template literal. *)
Definition interpolate (content : option str) : str :=
  match content with
  | Some text => text
  | None => `"null"
  end.

(** [removeProhibitedContent] on a content that may be [null]: the terms
    are parsed first, and the [replace] for the first of them throws on
    [null]; without terms the content is returned as it is. *)
Definition removeProhibitedContentOf (content : option str) (thingsToAvoid : str)
    : js (option str) :=
  match content with
  | Some text =>
      text' <- removeProhibitedContent JSON_parse text thingsToAvoid ;;
      Ret (Some text')
  | None =>
      avoidTerms <- avoidTermsOf JSON_parse thingsToAvoid ;;
      match avoidTerms with
      | [] => Ret None
      | _ :: _ => Throw (nullAccess `"replace")
      end
  end.

(** [if (promptSettings.thingsToAvoid) text = removeProhibitedContent(..)],
    on a text. *)
Definition suppress (ps : option PromptSettings) (text : str) : js str :=
  match ps with
  | Some s =>
      if nonEmpty (thingsToAvoid s)
      then removeProhibitedContent JSON_parse text (thingsToAvoid s)
      else Ret text
  | None => Ret text
  end.

(** The same on the content of an answer. *)
Definition suppressContent (ps : option PromptSettings) (content : option str)
    : js (option str) :=
  match ps with
  | Some s =>
      if nonEmpty (thingsToAvoid s)
      then removeProhibitedContentOf content (thingsToAvoid s)
      else Ret content
  | None => Ret content
  end.

(** The title call, its clean-up and the assembly of the article: the tail
    shared by both modes.  The [replace] of the clean-up throws on a title
    that is [null], and the word count, taken after the title, on a content
    that is [null]. *)
Definition finishArticle (config : OpenAIConfig) (keyword : str)
    (ps : option PromptSettings) (content : option str) : Gen Article :=
  let fullTitlePrompt :=
    titlePromptFor keyword ++
    match ps with
    | Some s => if nonEmpty (thingsToAvoid s)
                then titleAvoidDirective (thingsToAvoid s) else []
    | None => []
    end in
  titleResponse <~ createCompletion
    (MkChatRequest (model config) titleSystem fullTitlePrompt (temperature config) 50) ;;
  title <~ lift
    (match titleResponse with
     | Some text => suppress ps (replaceAll false quoteRe [] text)
     | None => Throw (nullAccess `"replace")
     end) ;;
  text <~ lift
    (match content with
     | Some text => Ret text
     | None => Throw (nullAccess `"split")
     end) ;;
  recipeData <~ lift
    (match ps with
     | Some s => if enableRecipeDetection s
                 then extractRecipeData text keyword else Ret None
     | None => Ret None
     end) ;;
  gret (MkArticle title text (countWords text) recipeData).

Definition generateArticlePart (config : OpenAIConfig) (keyword : str)
    (wordCount : N) (promptTemplate systemMessage : str) (ps : PromptSettings)
    (formatInstructions : str) : Gen (option str) :=
  let prompt := applyPromptVariables promptTemplate keyword wordCount in
  let prompt :=
    if nonEmpty (seoGuidelines ps) then prompt ++ seoDirective (seoGuidelines ps)
    else prompt in
  let prompt :=
    if nonEmpty (thingsToAvoid ps) then prompt ++ avoidDirective (thingsToAvoid ps)
    else prompt in
  let prompt :=
    if nonEmpty formatInstructions then
      if includes prompt `"introduction for an article"
      then prompt ++ formatInstructions ++ nl ++ nl ++
           `"Focus on writing the introduction part while keeping the overall article format in mind."
      else if includes prompt `"main body content"
      then prompt ++ formatInstructions ++ nl ++ nl ++
           `"Ensure you follow this structure while creating the main body content."
      else if includes prompt `"conclusion for an article"
      then prompt ++ formatInstructions ++ nl ++ nl ++
           `"Focus on writing the conclusion part according to this format."
      else prompt ++ formatInstructions
    else prompt in
  response <~ createCompletion
    (MkChatRequest (model config) systemMessage prompt (temperature config)
                   (N.min 2000 (maxTokens config))) ;;
  lift (suppressContent (Some ps) response).

(** [Math.floor(minWords * 0.2)] and [Math.floor(minWords * 0.6)], in
    integer arithmetic.  The floating-point products of the code round to
    the same integers for the word counts of an article, not for every
    number: the two differ for some numbers beyond 10^15. *)
Definition fifth (minWords : N) : N := (minWords / 5)%N.
Definition threeFifths (minWords : N) : N := (minWords * 3 / 5)%N.

Definition generateMultiPartArticle (config : OpenAIConfig) (keyword : str)
    (minWords : N) (ps : PromptSettings) : Gen Article :=
  let systemMessage :=
    if nonEmpty (toneVoice ps) then systemBase ++ toneDirective (toneVoice ps)
    else systemBase in
  let articleFormatInstructions :=
    if useArticleFormat ps && nonEmpty (articleFormat ps)
    then formatDirective (articleFormat ps) else [] in
  let recipeFormatInstructions := recipeInstructionsFor keyword ps in
  let formatInstructions := articleFormatInstructions ++ recipeFormatInstructions in
  introPart <~ generateArticlePart config keyword (fifth minWords)
    (orStr (part1Prompt ps) defaultPart1) systemMessage ps formatInstructions ;;
  bodyPart <~ generateArticlePart config keyword (threeFifths minWords)
    (orStr (part2Prompt ps) defaultPart2) systemMessage ps formatInstructions ;;
  conclusionPart <~ generateArticlePart config keyword (fifth minWords)
    (orStr (part3Prompt ps) defaultPart3) systemMessage ps formatInstructions ;;
  combinedContent <~ lift
    (suppress (Some ps)
       (interpolate introPart ++ nl ++ nl ++ interpolate bodyPart ++ nl ++ nl ++
        interpolate conclusionPart)) ;;
  finishArticle config keyword (Some ps) (Some combinedContent).

Definition isMultiPart (ps : option PromptSettings) : bool :=
  match ps with
  | Some s => useMultiPartGeneration s
  | None => false
  end.

Definition generateArticleContent (config : OpenAIConfig) (keyword : str)
    (minWords : N) (promptSettings : option PromptSettings) : Gen Article :=
  rethrow
    (match promptSettings with
     | Some ps =>
         if useMultiPartGeneration ps
         then generateMultiPartArticle config keyword minWords ps
         else
           let contentPrompt :=
             if nonEmpty (mainPrompt ps)
             then applyPromptVariables (mainPrompt ps) keyword minWords
             else defaultContentPrompt keyword minWords in
           let systemMessage :=
             if nonEmpty (toneVoice ps) then systemBase ++ toneDirective (toneVoice ps)
             else systemBase in
           let contentPrompt :=
             if nonEmpty (seoGuidelines ps)
             then contentPrompt ++ seoDirective (seoGuidelines ps) else contentPrompt in
           let contentPrompt :=
             if nonEmpty (thingsToAvoid ps)
             then contentPrompt ++ avoidDirective (thingsToAvoid ps) else contentPrompt in
           let contentPrompt :=
             if useArticleFormat ps && nonEmpty (articleFormat ps)
             then contentPrompt ++ formatDirective (articleFormat ps) else contentPrompt in
           let contentPrompt := contentPrompt ++ recipeInstructionsFor keyword ps in
           contentResponse <~ createCompletion
             (MkChatRequest (model config) systemMessage contentPrompt
                            (temperature config) (maxTokens config)) ;;
           content <~ lift (suppressContent promptSettings contentResponse) ;;
           finishArticle config keyword promptSettings content
     | None =>
         contentResponse <~ createCompletion
           (MkChatRequest (model config) systemBase
                          (defaultContentPrompt keyword minWords)
                          (temperature config) (maxTokens config)) ;;
         finishArticle config keyword None contentResponse
     end).

End Generation.

(* ================================================================== *)
(** ** src/wordpress.js: formatContentForWordPress *)
(* ================================================================== *)

(** The values the formatter may be handed.  A number is an integer, given
    by its sign and magnitude.  An object is described by what its
    conversions to a string do, the first one ([conversion 0]), the second
    one and so on: the text the conversion yields, or the error it throws.
    An object without state converts the same way each time. *)
Inductive jsval :=
| VUndefined
| VNull
| VBool (b : bool)
| VNumber (neg : bool) (magnitude : N)
| VString (s : str)
| VObject (conversion : nat -> js str).

(** The values whose conversion the model prints as the code does: of the
    numbers, the integers up to [maxSafeInteger] in magnitude. *)
Definition exactValue (v : jsval) : bool :=
  match v with
  | VNumber _ n => (n <=? maxSafeInteger)%N
  | _ => true
  end.

Definition truthy (v : jsval) : bool :=
  match v with
  | VUndefined | VNull => false
  | VBool b => b
  | VNumber _ n => negb (n =? 0)%N
  | VString s => nonEmpty s
  | VObject _ => true
  end.

Definition isString (v : jsval) : bool :=
  match v with
  | VString _ => true
  | _ => false
  end.

(** [String(v)], when [k] conversions of [v] were made before. *)
Definition toStr (k : nat) (v : jsval) : js str :=
  match v with
  | VUndefined => Ret `"undefined"
  | VNull => Ret `"null"
  | VBool true => Ret `"true"
  | VBool false => Ret `"false"
  | VNumber neg n =>
      Ret (if neg && negb (n =? 0)%N then "-"%char :: digitsOf n else digitsOf n)
  | VString s => Ret s
  | VObject conversion => conversion k
  end.

(** [String(content || '')], when [k] conversions were made before. *)
Definition stringOrEmpty (k : nat) (content : jsval) : js str :=
  toStr k (if truthy content then content else VString []).

(** [/<\/?[a-z][\s\S]*>/i] *)
Definition htmlTagRe : regex :=
  seqs [ Chr "<"; opt (Chr "/"); Cls false [CRange "a" "z"]; Star true anyChar;
         Chr ">" ].

(** [/<h2>(.*?)<\/h2>/gi] and the like: an element on one line, and a list
    over any text. *)
Definition lineElementRe (tag : string) : regex :=
  seqs [ lit (`"<" ++ list_ascii_of_string tag ++ `">"); Grp 1 (Star false Dot);
         lit (`"</" ++ list_ascii_of_string tag ++ `">") ].
Definition blockElementRe (tag : string) : regex :=
  seqs [ lit (`"<" ++ list_ascii_of_string tag ++ `">"); Grp 1 (Star false anyChar);
         lit (`"</" ++ list_ascii_of_string tag ++ `">") ].

Definition h2Open : str := `"<!-- wp:heading --><h2>".
Definition h2Close : str := `"</h2><!-- /wp:heading -->".
Definition h3Open : str :=
  `"<!-- wp:heading {" ++ dq ++ `"level" ++ dq ++ `":3} --><h3>".
Definition h3Close : str := `"</h3><!-- /wp:heading -->".
Definition pOpen : str := `"<!-- wp:paragraph --><p>".
Definition pClose : str := `"</p><!-- /wp:paragraph -->".
Definition ulOpen : str := `"<!-- wp:list --><ul>".
Definition ulClose : str := `"</ul><!-- /wp:list -->".
Definition olOpen : str :=
  `"<!-- wp:list {" ++ dq ++ `"ordered" ++ dq ++ `":true} --><ol>".
Definition olClose : str := `"</ol><!-- /wp:list -->".

(** The five chained [replace] calls of the branch for content with tags. *)
Definition wrapElements (content : str) : str :=
  let content := replaceAll true (lineElementRe "h2") (h2Open ++ `"$1" ++ h2Close) content in
  let content := replaceAll true (lineElementRe "h3") (h3Open ++ `"$1" ++ h3Close) content in
  let content := replaceAll true (lineElementRe "p") (pOpen ++ `"$1" ++ pClose) content in
  let content := replaceAll true (blockElementRe "ul") (ulOpen ++ `"$1" ++ ulClose) content in
  replaceAll true (blockElementRe "ol") (olOpen ++ `"$1" ++ olClose) content.

(** The callback of the last [map]: one paragraph of tag-free text. *)
Definition formatParagraph (para : str) : str :=
  if startsWith para `"# " then h2Open ++ substringFrom para 2 ++ h2Close
  else if startsWith para `"## " then h2Open ++ substringFrom para 3 ++ h2Close
  else if startsWith para `"### " then h3Open ++ substringFrom para 4 ++ h3Close
  else pOpen ++ para ++ pClose.

(** The paragraphs of tag-free text: split at blank lines, trimmed, the
    empty ones dropped. *)
Definition paragraphsOf (content : str) : list str :=
  filter nonEmpty (map trim (splitOn content (nl ++ nl))).

Definition formatText (content : str) : str :=
  join (nl ++ nl) (map formatParagraph (paragraphsOf content)).

(** The body of the [try] once [content] is a string. *)
Definition formatString (content : str) : str :=
  if reTest true htmlTagRe content then wrapElements content else formatText content.

(** The conversion of the [try] is the first one; the handler is reached
    only when it threw, [content] being then the value handed in, and
    converts a second time. *)
Definition formatContentForWordPress (content : jsval) : js str :=
  tryCatch
    (content' <- (if negb (truthy content) || negb (isString content)
                  then stringOrEmpty 0 content
                  else toStr 0 content) ;;
     Ret (formatString content'))
    (fun _ => stringOrEmpty 1 content).

(* ================================================================== *)
(** ** Notions of the specification *)
(* ================================================================== *)

(** Two texts are equal up to case. *)
Definition ciEqual (a b : str) : Prop := toLowerCase a = toLowerCase b.



(** [term] occurs in [s] as a whole word, up to case: a segment equal to it
    up to case with a word boundary on either side. *)
Definition wordOccurs (term s : str) : Prop :=
  exists pre mid post,
    s = pre ++ mid ++ post /\ ciEqual mid term /\
    atWordBoundary (rev pre) (mid ++ post) = true /\
    atWordBoundary (rev mid ++ rev pre) post = true.

(** No code unit of [s] is one of [cs]. *)
Definition avoids (cs s : str) : bool :=
  forallb (fun c => negb (existsb (Ascii.eqb c) cs)) s.

(** The literal [q] read off the front of [s], up to case under [ic]: the
    segment read and what follows it. *)
Fixpoint stripPrefix (ic : bool) (q s : str) : option (str * str) :=
  match q with
  | [] => Some ([], s)
  | c :: q' =>
      match s with
      | x :: s' =>
          if ceq ic c x then
            match stripPrefix ic q' s' with
            | Some (m, r) => Some (x :: m, r)
            | None => None
            end
          else None
      | [] => None
      end
  end.

(** A match of the literal [q] at a position, between word boundaries when
    [wb] is set: what the patterns built from an escaped term or from a
    placeholder token match. *)
Definition litAt (ic wb : bool) (q before after : str) : option (str * str) :=
  if negb wb || atWordBoundary before after then
    match stripPrefix ic q after with
    | Some (m, r) =>
        if negb wb || atWordBoundary (rev m ++ before) r then Some (m, r) else None
    | None => None
    end
  else None.

Definition isSome {A : Type} (o : option A) : bool :=
  match o with Some _ => true | None => false end.

(** Some position of [after] has a match of the literal. *)
Fixpoint occursFrom (ic wb : bool) (q before after : str) : bool :=
  isSome (litAt ic wb q before after) ||
  match after with
  | [] => false
  | x :: after' => occursFrom ic wb q (x :: before) after'
  end.

(** Text equal up to case to one of the terms is replaced by
    [[alternative]]; everything else is kept. *)
Inductive Suppressed (terms : list str) : str -> str -> Prop :=
| sup_end : Suppressed terms [] []
| sup_keep c s o : Suppressed terms s o -> Suppressed terms (c :: s) (c :: o)
| sup_replace t m s o :
    In t terms -> ciEqual m t -> Suppressed terms s o ->
    Suppressed terms (m ++ s) (alternative ++ o).

(** Literal replace-all as the specification words it: every occurrence of
    [token], found left to right without overlap, gives way to [value]. *)
Fixpoint substituteFrom (token value s : str) (skip : nat) : str :=
  match s with
  | [] => []
  | x :: s' =>
      match skip with
      | S k => substituteFrom token value s' k
      | O =>
          if startsWith s token
          then value ++ substituteFrom token value s' (length token - 1)
          else x :: substituteFrom token value s' 0
      end
  end.

Definition substituteAll (token value s : str) : str := substituteFrom token value s 0.

(** The number of maximal runs of code units that are not white space. *)
Fixpoint countTokens (inWord : bool) (s : str) : nat :=
  match s with
  | [] => 0
  | x :: s' =>
      if isSpace x then countTokens false s'
      else (if inWord then 0 else 1) + countTokens true s'
  end.

(** The time pattern as the specification writes it:
    [<type>\s*time:?\s*(\d+)(?:\s+to\s+(\d+))?\s+(minutes|hours)]. *)
Definition specTimeRe (timeType : str) : regex :=
  seqs [ lit timeType; Star true ws; lit `"time"; opt (Chr ":"); Star true ws;
         Grp 1 (plus true digit);
         opt (seqs [plus true ws; lit `"to"; plus true ws; Grp 2 (plus true digit)]);
         plus true ws;
         Grp 3 (Alt (lit `"minutes") (lit `"hours")) ].

(** The pattern cannot match without reading the code unit [c] first. *)
Fixpoint startsWithChr (c : ascii) (r : regex) : bool :=
  match r with
  | Chr c' => Ascii.eqb c c'
  | Seq r1 _ => startsWithChr c r1
  | Grp _ r1 => startsWithChr c r1
  | Alt r1 r2 => startsWithChr c r1 && startsWithChr c r2
  | _ => false
  end.

(** The requests made so far were all answered. *)
Definition allAnswered (llm : nat -> ChatRequest -> js (option str))
    (log : list ChatRequest) : Prop :=
  forall i request e, nth_error log i = Some request -> llm i request <> Throw e.

(** Fail-fast: a call that failed is the last one made, and its error is
    the outcome. *)
Definition failFast {A : Type} (llm : nat -> ChatRequest -> js (option str))
    (outcome : js A * list ChatRequest) : Prop :=
  forall i request e,
    nth_error (snd outcome) i = Some request -> llm i request = Throw e ->
    fst outcome = Throw e /\ length (snd outcome) = S i.

(** A term the suppression handles cleanly: not empty, without square
    brackets, and not the word of the replacement text itself. *)
Definition plainTerm (t : str) : Prop :=
  t <> [] /\ avoids `"[]" t = true /\ toLowerCase t <> `"alternative".

(** The characters [escapeRegExp] escapes, and what it makes of one. *)
Definition isSpecial (c : ascii) : bool :=
  clsMatches false false (map CChar (`".*+?^${}()|[]" ++ [bs])) c.

Definition escapeChar (c : ascii) : str := if isSpecial c then [bs; c] else [c].

(** A generation step is fail-fast when it is so from every log of
    answered requests. *)
Definition failsFast {A : Type} (llm : nat -> ChatRequest -> js (option str))
    (m : Gen A) : Prop :=
  forall log, allAnswered llm log -> failFast llm (m log).

(** The number of non-empty pieces of a split. *)
Definition pieces (l : list str) : nat := length (filter nonEmpty l).

(* ================================================================== *)
(** ** Further notions *)
(* ================================================================== *)

(** A generation step makes at most [n] requests, whatever its outcome:
    the log it returns is the one it was given with at most [n] requests
    added. *)
Definition callsAtMost {A : Type} (n : nat) (m : Gen A) : Prop :=
  forall log, exists made, snd (m log) = log ++ made /\ length made <= n.

(** Every request a generation step makes has the property [P], whatever
    the outcome of the step. *)
Definition callsOnly {A : Type} (P : ChatRequest -> Prop) (m : Gen A) : Prop :=
  forall log, exists made, snd (m log) = log ++ made /\ forall r, In r made -> P r.

(** The pattern has a capture group numbered [i]. *)
Fixpoint hasGroup (i : nat) (r : regex) : bool :=
  match r with
  | Grp j r1 => Nat.eqb i j || hasGroup i r1
  | Seq r1 r2 | Alt r1 r2 => hasGroup i r1 || hasGroup i r2
  | Star _ r1 => hasGroup i r1
  | _ => false
  end.

(** The state [s'] comes after [s] in a match of [r]: [mid] was read
    between them, and the captures [extra] of groups of [r] were added. *)
Definition follows (r : regex) (s s' : mstate) (mid : str) (extra : list (nat * str)) : Prop :=
  rest s = mid ++ rest s' /\
  consumed s' = rev mid ++ consumed s /\
  caps s' = extra ++ caps s /\
  forall i v, In (i, v) extra -> hasGroup i r = true.

(** The text [v] is a number as the nutrition patterns read it, followed
    by [unit]: digits, at most one dot, digits. *)
Definition isAmount (unit v : str) : Prop :=
  exists whole dot frac,
    v = whole ++ dot ++ frac ++ unit /\ whole <> [] /\
    forallb isDigit whole = true /\ (dot = [] \/ dot = `".") /\
    forallb isDigit frac = true.

(** The literal [q] cannot be read at the front of [s], whatever follows
    [s]: a code unit of [s] differs from that of [q]. *)
Fixpoint definiteFail (ic : bool) (q s : str) : bool :=
  match q, s with
  | c :: q', x :: s' => if ceq ic c x then definiteFail ic q' s' else true
  | _, _ => false
  end.

(** The literal cannot be read at any position of [s]. *)
Fixpoint allFail (ic : bool) (q s : str) : bool :=
  match s with
  | [] => true
  | _ :: s' => definiteFail ic q s && allFail ic q s'
  end.

(** No occurrence of the literal [q] starts within [s], whatever follows. *)
Definition noStart (ic : bool) (q s : str) : Prop :=
  forall a b out, s = a ++ b -> b <> [] -> stripPrefix ic q (b ++ out) = None.

(* ================================================================== *)
(** ** src/excel.js

    The workbook is seen through the rows of its first sheet, as
    [XLSX.utils.sheet_to_json] returns them and [XLSX.utils.json_to_sheet]
    takes them: a row is an object whose keys are the column names, in
    insertion order.  The file system is seen through whether the file
    exists.  Reading or writing a workbook is taken to succeed; column
    names are not array indices nor names every object inherits (such as
    [toString]); numbers are the integers. *)
(* ================================================================== *)

Inductive cell :=
| CStr (s : str)
| CNum (neg : bool) (magnitude : N)
| CBool (b : bool).

Definition row : Type := list (str * cell).

(** [row[key]]: [None] is [undefined]. *)
Fixpoint getCell (r : row) (key : str) : option cell :=
  match r with
  | [] => None
  | (k, v) :: r' => if str_eqb k key then Some v else getCell r' key
  end.

(** [row[key] = v]: an existing key keeps its place, a new one goes last. *)
Fixpoint setCell (r : row) (key : str) (v : cell) : row :=
  match r with
  | [] => [(key, v)]
  | (k, w) :: r' => if str_eqb k key then (k, v) :: r' else (k, w) :: setCell r' key v
  end.

Definition truthyCell (c : option cell) : bool :=
  match c with
  | Some (CStr s) => nonEmpty s
  | Some (CNum _ n) => negb (n =? 0)%N
  | Some (CBool b) => b
  | None => false
  end.

(** [a === b] on cells and [undefined]. *)
Definition strictEq (a b : option cell) : bool :=
  match a, b with
  | None, None => true
  | Some (CStr s), Some (CStr t) => str_eqb s t
  | Some (CNum neg n), Some (CNum neg' n') =>
      (n =? n')%N && (Bool.eqb neg neg' || (n =? 0)%N)
  | Some (CBool x), Some (CBool y) => Bool.eqb x y
  | _, _ => false
  end.

(** What the functions of the module throw. *)
Inductive xlError :=
| XlError (msg : str)        (* [new Error(msg)] *)
| XlTypeError (msg : str).   (* raised by the language *)

(** The predicate of the [filter] of [readKeywordsFromExcel]:
    [row[keywordColumn] && (!row.Status || row.Status.toLowerCase() !==
    'published')].  [toLowerCase] of a truthy status that is no string
    throws. *)
Definition isPending (keywordColumn : str) (r : row) : xlError + bool :=
  if truthyCell (getCell r keywordColumn) then
    let status := getCell r `"Status" in
    if negb (truthyCell status) then inr true
    else match status with
         | Some (CStr s) => inr (negb (str_eqb (toLowerCase s) `"published"))
         | _ => inl (XlTypeError `"row.Status.toLowerCase is not a function")
         end
  else inr false.

(** [data.filter(p)] for a predicate that may throw. *)
Fixpoint filterRows (p : row -> xlError + bool) (data : list row) : xlError + list row :=
  match data with
  | [] => inr []
  | r :: data' =>
      match p r with
      | inl e => inl e
      | inr keep =>
          match filterRows p data' with
          | inl e => inl e
          | inr rows => inr (if keep then r :: rows else rows)
          end
      end
  end.

(** [readKeywordsFromExcel(filePath, keywordColumn)]; [file] is the sheet
    at [filePath], [None] when there is no such file.  The [catch] throws
    the error again. *)
Definition readKeywordsFromExcel (file : option (list row)) (filePath keywordColumn : str)
  : xlError + list row :=
  match file with
  | None => inl (XlError (`"File not found: " ++ filePath))
  | Some data =>
      match data with
      | [] => inr []
      | _ :: _ => filterRows (isPending keywordColumn) data
      end
  end.

(** [data.findIndex(row => row[keywordColumn] === keywordValue)] *)
Fixpoint findIndex (p : row -> bool) (data : list row) : option nat :=
  match data with
  | [] => None
  | r :: data' => if p r then Some 0 else option_map S (findIndex p data')
  end.

Fixpoint updateAt (i : nat) (f : row -> row) (data : list row) : list row :=
  match data, i with
  | [], _ => []
  | r :: data', 0 => f r :: data'
  | r :: data', S j => r :: updateAt j f data'
  end.

(** The answer of the publication, as far as the update reads it. *)
Record PublishData := MkPublishData {
  postUrl : option cell;
  postId : option cell
}.

(** [Object.keys(keywordRow)[0]]; as a property name [undefined] is the
    string of that name. *)
Definition firstKey (keywordRow : row) : str :=
  match keywordRow with
  | (k, _) :: _ => k
  | [] => `"undefined"
  end.

(** The assignments to the row found. *)
Definition markPublished (publishData : PublishData) (formattedDate : str) (r : row) : row :=
  let r := setCell r `"Status" (CStr `"Published") in
  let r := setCell r `"Publication Date" (CStr formattedDate) in
  let r := setCell r `"Post URL"
             (match postUrl publishData with
              | Some v => if truthyCell (Some v) then v else CStr []
              | None => CStr []
              end) in
  match postId publishData with
  | Some v => if truthyCell (Some v) then setCell r `"Post ID" v else r
  | None => r
  end.

(** [updateExcelWithPublicationStatus(excelFile, keywordRow, publishData)]
    for a path that is a string, [absoluteExcelPath] being the path made
    absolute: [None] when the keyword is not found and nothing is written,
    the rows written otherwise.  [formattedDate] is the day of the call.  The
    [catch] wraps the message of any error. *)
Definition updateExcelWithPublicationStatus (file : option (list row))
    (absoluteExcelPath : str)
    (keywordRow : row) (publishData : PublishData) (formattedDate : str)
  : xlError + option (list row) :=
  match file with
  | None =>
      inl (XlError (`"Error updating Excel with publication status: " ++
                    `"Excel file not found: " ++ absoluteExcelPath))
  | Some data =>
      let keywordColumn := firstKey keywordRow in
      let keywordValue := getCell keywordRow keywordColumn in
      match findIndex (fun r => strictEq (getCell r keywordColumn) keywordValue) data with
      | None => inr None
      | Some rowIndex =>
          inr (Some (updateAt rowIndex (markPublished publishData formattedDate) data))
      end
  end.

(** The object literal of a new row; a later entry of the same name takes
    the place of an earlier one. *)
Definition newRow (keywordColumn keyword : str) : row :=
  setCell (setCell (setCell (setCell [(keywordColumn, CStr keyword)]
    `"Status" (CStr `"Pending")) `"Publication Date" (CStr []))
    `"Post URL" (CStr [])) `"Post ID" (CStr []).

(** [addKeywordsToExcel(excelFile, keywords, keywordColumn)]: the rows
    written; the function returns their number. *)
Definition addKeywordsToExcel (file : option (list row)) (keywords : list str)
    (keywordColumn : str) : list row :=
  fold_left (fun data keyword =>
               if existsb (fun r => strictEq (getCell r keywordColumn) (Some (CStr keyword)))
                          data
               then data else data ++ [newRow keywordColumn keyword])
            keywords
            (match file with Some data => data | None => [] end).

(* ================================================================== *)
(** * Properties *)
(* ================================================================== *)

(** ** Code units *)

Ltac each_ascii c :=
  destruct c as [[] [] [] [] [] [] [] []].

Lemma canon_lower (c : ascii) : canon (toLowerChar c) = canon c.
Proof. each_ascii c; reflexivity. Qed.

Lemma lower_canon (c : ascii) : toLowerChar (canon c) = toLowerChar c.
Proof. each_ascii c; reflexivity. Qed.

Lemma canon_eq_lower (a b : ascii) :
  canon a = canon b <-> toLowerChar a = toLowerChar b.
Proof.
  split; intro H.
  - rewrite <- (lower_canon a), <- (lower_canon b), H. reflexivity.
  - rewrite <- (canon_lower a), <- (canon_lower b), H. reflexivity.
Qed.

Lemma canon_word (c : ascii) : isWordChar (canon c) = isWordChar c.
Proof. each_ascii c; reflexivity. Qed.

Lemma ceq_true_iff (ic : bool) (a b : ascii) :
  ceq ic a b = true <-> (if ic then canon a = canon b else a = b).
Proof. unfold ceq. destruct ic; apply Ascii.eqb_eq. Qed.

Lemma ceq_word (ic : bool) (a b : ascii) :
  ceq ic a b = true -> isWordChar a = isWordChar b.
Proof.
  intro H. apply ceq_true_iff in H. destruct ic.
  - rewrite <- (canon_word a), <- (canon_word b), H. reflexivity.
  - now subst.
Qed.

Lemma ceq_refl (ic : bool) (a : ascii) : ceq ic a a = true.
Proof. apply ceq_true_iff. destruct ic; reflexivity. Qed.

Lemma caseless_fix (a : ascii) : toLowerChar a = canon a -> a = canon a.
Proof. each_ascii a; vm_compute; congruence. Qed.

(** A code unit outside the letters is equal up to case only to itself. *)
Lemma ceq_caseless (ic : bool) (a b : ascii) :
  canon b = b -> toLowerChar b = b -> ceq ic a b = true -> a = b.
Proof.
  intros Hc Hl H. apply ceq_true_iff in H. destruct ic; [|assumption].
  rewrite Hc in H. rewrite (caseless_fix a); [assumption|].
  rewrite <- (lower_canon a), H. congruence.
Qed.

Lemma str_eqb_eq (a b : str) : str_eqb a b = true <-> a = b.
Proof.
  revert b. induction a as [|x a IH]; intros [|y b]; cbn [str_eqb]; split; intro H;
    try discriminate; try reflexivity.
  - apply andb_true_iff in H. destruct H as [H1 H2]. apply Ascii.eqb_eq in H1.
    apply IH in H2. congruence.
  - inversion H; subst. rewrite Ascii.eqb_refl. apply IH. reflexivity.
Qed.

(** ** The matcher on literals *)

Lemma stripPrefix_app (ic : bool) (q s m r : str) :
  stripPrefix ic q s = Some (m, r) -> s = m ++ r /\ length m = length q.
Proof.
  revert s m r. induction q as [|c q IH]; intros s m r H; simpl in H.
  - inversion H. auto.
  - destruct s as [|x s]; [discriminate|].
    destruct (ceq ic c x); [|discriminate].
    destruct (stripPrefix ic q s) as [[m' r']|] eqn:E; [|discriminate].
    inversion H; subst. apply IH in E. destruct E as [-> E]. simpl. auto.
Qed.

Lemma rmatch_lit (ic : bool) (q : str) (k : cont) (s : mstate) :
  rmatch ic (lit q) k s =
  match stripPrefix ic q (rest s) with
  | Some (m, r) => k (MState (rev m ++ consumed s) r (caps s))
  | None => None
  end.
Proof.
  revert s. induction q as [|c q IH]; intro s; simpl.
  - destruct s; reflexivity.
  - destruct (rest s) as [|x xs] eqn:E; [reflexivity|].
    destruct (ceq ic c x); [|reflexivity].
    rewrite IH. simpl. destruct (stripPrefix ic q xs) as [[m r]|]; [|reflexivity].
    simpl. rewrite <- app_assoc. reflexivity.
Qed.

(** The continuation of a successful match was entered. *)
Ltac entered := solve [eexists; eassumption | eauto].

Lemma starLoop_enters (m : cont -> cont) (greedy : bool) (k : cont) :
  (forall k' s e, m k' s = Some e -> exists s', k' s' = Some e) ->
  forall fuel s e, starLoop m greedy k fuel s = Some e -> exists s', k s' = Some e.
Proof.
  intros Hm. induction fuel as [|f IH]; intros s e H; simpl in H; [discriminate|].
  assert (Hagain : forall e',
    m (fun s' => if length (rest s') <? length (rest s)
                 then starLoop m greedy k f s' else None) s = Some e' ->
    exists s', k s' = Some e').
  { intros e' H'. apply Hm in H'. destruct H' as [s' H'].
    destruct (length (rest s') <? length (rest s)); [|discriminate].
    apply IH in H'. exact H'. }
  destruct greedy; unfold orElse in H.
  - destruct (m _ s) as [e'|] eqn:E.
    + inversion H; subst. apply Hagain. reflexivity.
    + entered.
  - destruct (k s) as [e'|] eqn:E.
    + inversion H; subst. entered.
    + apply Hagain. exact H.
Qed.

Lemma rmatch_enters (ic : bool) (r : regex) :
  forall k s e, rmatch ic r k s = Some e -> exists s', k s' = Some e.
Proof.
  induction r as [|c| |neg items|r1 IH1 r2 IH2|r1 IH1 r2 IH2|g r1 IH1|i r1 IH1| | |];
    intros k s e H; cbn [rmatch] in H.
  - entered.
  - destruct (rest s) as [|x xs]; [discriminate|].
    destruct (ceq ic c x); [entered|discriminate].
  - destruct (rest s) as [|x xs]; [discriminate|].
    destruct (isLineTerminator x); [discriminate|entered].
  - destruct (rest s) as [|x xs]; [discriminate|].
    destruct (clsMatches ic neg items x); [entered|discriminate].
  - apply IH1 in H. destruct H as [s' H]. apply IH2 in H. exact H.
  - unfold orElse in H. destruct (rmatch ic r1 k s) eqn:E.
    + inversion H; subst. apply IH1 in E. exact E.
    + apply IH2 in H. exact H.
  - eapply starLoop_enters; [|exact H]. intros k' s0 e0. apply IH1.
  - apply IH1 in H. destruct H as [s' H]. entered.
  - destruct (consumed s); [entered|discriminate].
  - destruct (rest s); [entered|discriminate].
  - destruct (atWordBoundary (consumed s) (rest s)); [entered|discriminate].
Qed.

(** ** [escapeRegExp] and the patterns built from it *)

Lemma succ_sub (n : nat) : S n - n = 1.
Proof. lia. Qed.

Lemma escapeRegExp_chars (s : str) : escapeRegExp s = flat_map escapeChar s.
Proof.
  unfold escapeRegExp, replaceAll.
  generalize (@nil ascii) as bf.
  induction s as [|x s IH]; intro bf; [reflexivity|].
  cbn [replaceFrom flat_map]. unfold matchAt. cbn [rmatch specialRe rest].
  fold (isSpecial x). unfold escapeChar at 1.
  destruct (isSpecial x).
  - unfold mkMatch, step. cbn [rest length]. rewrite succ_sub, IH. reflexivity.
  - rewrite IH. reflexivity.
Qed.

Lemma special_syntax (c : ascii) :
  isSpecial c = true -> isSyntaxChar c = true /\ Ascii.eqb c "b" = false.
Proof. each_ascii c; vm_compute; intro H; (discriminate || auto). Qed.

Lemma unspecial_plain (c : ascii) : isSpecial c = false -> Ascii.eqb c bs = false.
Proof. each_ascii c; vm_compute; intro H; (discriminate || auto). Qed.

Lemma newRegExp_escaped (ic : bool) (t tail : str) (k : cont) (s : mstate) :
  rmatch ic (newRegExp (flat_map escapeChar t ++ tail)) k s =
  rmatch ic (lit t) (rmatch ic (newRegExp tail) k) s.
Proof.
  revert s. induction t as [|c t IH]; intro s; [reflexivity|].
  cbn [flat_map lit]. unfold escapeChar at 1.
  destruct (isSpecial c) eqn:E.
  - apply special_syntax in E. destruct E as [E1 E2].
    cbn [app newRegExp]. replace (Ascii.eqb bs bs) with true by reflexivity.
    rewrite E2, E1. cbn [rmatch].
    destruct (rest s); [reflexivity|]. destruct (ceq ic c a); [apply IH|reflexivity].
  - apply unspecial_plain in E. cbn [app newRegExp]. rewrite E. cbn [rmatch].
    destruct (rest s); [reflexivity|]. destruct (ceq ic c a); [apply IH|reflexivity].
Qed.

(** What the pattern of an avoided term matches at a position. *)
Lemma matchAt_wordPattern (term before after : str) :
  matchAt true (wordPattern term) before after =
  match litAt true true term before after with
  | Some (m, r) => Some (MState (rev m ++ before) r [])
  | None => None
  end.
Proof.
  unfold matchAt, wordPattern, litAt. rewrite escapeRegExp_chars.
  cbn [newRegExp]. replace (Ascii.eqb bs bs) with true by reflexivity.
  replace (Ascii.eqb "b" "b") with true by reflexivity.
  cbn [rmatch consumed rest negb orb].
  destruct (atWordBoundary before after); [|reflexivity].
  rewrite newRegExp_escaped, rmatch_lit. cbn [rest consumed caps].
  destruct (stripPrefix true term after) as [[m r]|]; [|reflexivity].
  cbn [newRegExp]. replace (Ascii.eqb bs bs) with true by reflexivity.
  replace (Ascii.eqb "b" "b") with true by reflexivity.
  cbn [rmatch consumed rest]. destruct (atWordBoundary (rev m ++ before) r); reflexivity.
Qed.

(** What the pattern of a placeholder token matches at a position. *)
Lemma matchAt_lit (ic : bool) (q before after : str) :
  matchAt ic (lit q) before after =
  match litAt ic false q before after with
  | Some (m, r) => Some (MState (rev m ++ before) r [])
  | None => None
  end.
Proof.
  unfold matchAt, litAt. rewrite rmatch_lit. cbn [rest consumed caps negb orb].
  destruct (stripPrefix ic q after) as [[m r]|]; reflexivity.
Qed.

(** ** Replacing a literal everywhere *)

Lemma litAt_shape (ic wb : bool) (q bf af m r' : str) :
  litAt ic wb q bf af = Some (m, r') ->
  af = m ++ r' /\ length m = length q /\ stripPrefix ic q af = Some (m, r') /\
  (wb = true ->
   atWordBoundary bf af = true /\ atWordBoundary (rev m ++ bf) r' = true).
Proof.
  unfold litAt. intro H.
  destruct (negb wb || atWordBoundary bf af) eqn:B1; [|discriminate].
  destruct (stripPrefix ic q af) as [[m0 r0]|] eqn:E; [|discriminate].
  destruct (negb wb || atWordBoundary (rev m0 ++ bf) r0) eqn:B2; [|discriminate].
  inversion H; subst. apply stripPrefix_app in E as E'. destruct E' as [E1 E2].
  split; [assumption|]. split; [assumption|]. split; [reflexivity|].
  intro Hwb; subst wb; simpl in B1, B2. auto.
Qed.

Lemma stripPrefix_nil (ic : bool) (q : str) : q <> [] -> stripPrefix ic q [] = None.
Proof. destruct q; [congruence|reflexivity]. Qed.

Lemma litAt_nil (ic wb : bool) (q bf : str) : q <> [] -> litAt ic wb q bf [] = None.
Proof.
  intro Hq. unfold litAt. rewrite (stripPrefix_nil ic q Hq).
  destruct (negb wb || atWordBoundary bf []); reflexivity.
Qed.

Lemma isWordAt_app (l a : str) : l <> [] -> isWordAt (l ++ a) = isWordAt l.
Proof. destruct l; [congruence|reflexivity]. Qed.

Lemma rev_cons_app (x : ascii) (m bf : str) : rev (x :: m) ++ bf = rev m ++ x :: bf.
Proof. simpl. rewrite <- app_assoc. reflexivity. Qed.

Lemma occursFrom_false_all (ic wb : bool) (q : str) :
  forall af bf, occursFrom ic wb q bf af = false ->
  forall pre suf, af = pre ++ suf -> litAt ic wb q (rev pre ++ bf) suf = None.
Proof.
  induction af as [|x af IH]; intros bf H pre suf E; simpl in H;
    apply orb_false_iff in H; destruct H as [H1 H2].
  - destruct pre; [|discriminate]. simpl in E. subst suf. simpl.
    destruct (litAt ic wb q bf []); [discriminate|reflexivity].
  - destruct pre as [|y pre]; simpl in E.
    + subst suf. simpl. destruct (litAt ic wb q bf (x :: af)); [discriminate|reflexivity].
    + inversion E; subst. rewrite rev_cons_app. apply IH; auto.
Qed.

Lemma ceq_lower (a b : ascii) : ceq true a b = true -> toLowerChar b = toLowerChar a.
Proof. intro H. apply ceq_true_iff in H. symmetry. apply canon_eq_lower. assumption. Qed.

Lemma stripPrefix_ci (q s m r : str) :
  stripPrefix true q s = Some (m, r) -> ciEqual m q.
Proof.
  revert s m r. induction q as [|c q IH]; intros s m r H; cbn [stripPrefix] in H.
  - inversion H. reflexivity.
  - destruct s as [|x s]; [discriminate|].
    destruct (ceq true c x) eqn:E; [|discriminate].
    destruct (stripPrefix true q s) as [[m' r']|] eqn:E'; [|discriminate].
    inversion H; subst. unfold ciEqual. simpl. f_equal.
    + apply ceq_lower. assumption.
    + eapply IH. eassumption.
Qed.

Section LiteralReplace.

Variables (ic wb : bool) (p : str) (r : regex) (subst : reMatch -> str) (V : str).

Hypothesis Hr : forall bf af,
  matchAt ic r bf af =
  match litAt ic wb p bf af with
  | Some (m, r') => Some (MState (rev m ++ bf) r' [])
  | None => None
  end.
Hypothesis Hp : p <> [].
Hypothesis Hs : forall m, subst m = V.

Lemma replaceFrom_skip (m r' : str) :
  forall bf, replaceFrom ic r subst bf (m ++ r') (length m) =
             replaceFrom ic r subst (rev m ++ bf) r' 0.
Proof.
  induction m as [|x m IH]; intro bf; [reflexivity|].
  cbn [app length replaceFrom]. rewrite IH, rev_cons_app. reflexivity.
Qed.

Lemma replaceFrom_step (bf af : str) :
  replaceFrom ic r subst bf af 0 =
  match litAt ic wb p bf af with
  | Some (m, r') => V ++ replaceFrom ic r subst (rev m ++ bf) r' 0
  | None =>
      match af with
      | [] => []
      | x :: a => x :: replaceFrom ic r subst (x :: bf) a 0
      end
  end.
Proof.
  destruct af as [|x a].
  - rewrite (litAt_nil ic wb p bf Hp). cbn [replaceFrom]. rewrite Hr.
    rewrite (litAt_nil ic wb p bf Hp). reflexivity.
  - cbn [replaceFrom]. rewrite Hr.
    destruct (litAt ic wb p bf (x :: a)) as [[m r']|] eqn:E; [|reflexivity].
    apply litAt_shape in E. destruct E as (E1 & E2 & _).
    destruct m as [|y m]; [destruct p; [congruence|discriminate]|].
    inversion E1; subst y a. rewrite Hs. f_equal.
    cbn [rest length]. rewrite length_app.
    replace (S (length m + length r') - length r') with (S (length m)) by lia.
    rewrite replaceFrom_skip, rev_cons_app. reflexivity.
Qed.

(** Without an occurrence nothing is replaced. *)
Lemma replaceFrom_stable :
  forall af bf, occursFrom ic wb p bf af = false ->
                replaceFrom ic r subst bf af 0 = af.
Proof.
  induction af as [|x a IH]; intros bf H; rewrite replaceFrom_step;
    simpl in H; apply orb_false_iff in H; destruct H as [H1 H2].
  - destruct (litAt ic wb p bf []); [discriminate|reflexivity].
  - destruct (litAt ic wb p bf (x :: a)); [discriminate|]. rewrite IH; auto.
Qed.

(** The replacement touches only text equal to the literal up to case. *)
Lemma replaceFrom_suppressed :
  ic = true -> V = alternative ->
  forall n af bf, length af <= n ->
    Suppressed [p] af (replaceFrom ic r subst bf af 0).
Proof.
  intros Hic HV. induction n as [|n IH]; intros af bf Hn; rewrite replaceFrom_step.
  - destruct af; [|simpl in Hn; lia]. rewrite (litAt_nil ic wb p bf Hp). constructor.
  - destruct (litAt ic wb p bf af) as [[m r']|] eqn:E.
    + apply litAt_shape in E. destruct E as (E1 & E2 & E3 & _). subst af V.
      apply sup_replace with (t := p).
      * left. reflexivity.
      * rewrite Hic in E3. eapply stripPrefix_ci. eassumption.
      * apply IH. rewrite length_app in Hn.
        assert (0 < length m) by (rewrite E2; destruct p; [congruence|simpl; lia]). lia.
    + destruct af as [|x a]; constructor. apply IH. simpl in Hn. lia.
Qed.

Lemma isWordAt_replaceFrom (bf af : str) :
  litAt ic wb p bf af = None ->
  isWordAt (replaceFrom ic r subst bf af 0) = isWordAt af.
Proof.
  intro H. rewrite replaceFrom_step, H. destruct af; reflexivity.
Qed.

(** The target literal [q], and what keeps it apart from the replacement:
    no match of [q] begins inside a copy of [V], and none runs into one. *)
Variable q : str.
Hypothesis Hq : q <> [].
Hypothesis inside : forall V1 V2 bf out,
  V = V1 ++ V2 -> V2 <> [] -> litAt ic wb q (rev V1 ++ bf) (V2 ++ out) = None.
Hypothesis into : forall q1 q2 out,
  q = q1 ++ q2 -> q1 <> [] -> q2 <> [] -> stripPrefix ic q2 (V ++ out) = None.

Lemma stripPrefix_through :
  forall q2 q1 bf af m outr,
    q = q1 ++ q2 -> q1 <> [] ->
    stripPrefix ic q2 (replaceFrom ic r subst bf af 0) = Some (m, outr) ->
    exists r', stripPrefix ic q2 af = Some (m, r') /\
               outr = replaceFrom ic r subst (rev m ++ bf) r' 0.
Proof.
  induction q2 as [|c q3 IH]; intros q1 bf af m outr Eq Hq1 H.
  - simpl in H. inversion H; subst. exists af. auto.
  - rewrite replaceFrom_step in H.
    destruct (litAt ic wb p bf af) as [[pm pr]|] eqn:E.
    + rewrite (into q1 (c :: q3)) in H; [discriminate|assumption|assumption|discriminate].
    + destruct af as [|x a]; [discriminate|].
      cbn [stripPrefix] in *. destruct (ceq ic c x); [|discriminate].
      destruct (stripPrefix ic q3 (replaceFrom ic r subst (x :: bf) a 0))
        as [[m3 o3]|] eqn:E3; [|discriminate].
      inversion H; subst m outr.
      apply (IH (q1 ++ [c])) in E3.
      * destruct E3 as (r' & E4 & E5). exists r'. rewrite E4.
        rewrite rev_cons_app. auto.
      * rewrite <- app_assoc. assumption.
      * destruct q1; discriminate.
Qed.

Lemma litAt_through (bf ob af m outr : str) :
  litAt ic wb p bf af = None ->
  (wb = true -> isWordAt ob = isWordAt bf \/ atWordBoundary bf af = true) ->
  litAt ic wb q ob (replaceFrom ic r subst bf af 0) = Some (m, outr) ->
  exists r', litAt ic wb q bf af = Some (m, r').
Proof.
  intros Hnone Hlink H.
  apply litAt_shape in H. destruct H as (_ & Hlen & Hstrip & Hb).
  assert (Hw : isWordAt (replaceFrom ic r subst bf af 0) = isWordAt af)
    by (apply isWordAt_replaceFrom; assumption).
  assert (Hex : exists c q3, q = c :: q3).
  { clear - Hq. destruct q as [|c q3]; [congruence|]. exists c, q3. reflexivity. }
  destruct Hex as (c & q3 & Eq).
  rewrite replaceFrom_step, Hnone, Eq in Hstrip.
  destruct af as [|x a]; [discriminate|].
  cbn [stripPrefix] in Hstrip. destruct (ceq ic c x) eqn:Ec; [|discriminate].
  destruct (stripPrefix ic q3 (replaceFrom ic r subst (x :: bf) a 0))
    as [[m3 o3]|] eqn:E3; [|discriminate].
  inversion Hstrip; subst m outr.
  apply (stripPrefix_through q3 [c]) in E3; [|rewrite Eq; reflexivity|discriminate].
  destruct E3 as (r' & E4 & E5). exists r'.
  unfold litAt. rewrite Eq. cbn [stripPrefix]. rewrite Ec, E4.
  destruct (Bool.bool_dec wb true) as [Hwb|Hwb];
    [|apply not_true_is_false in Hwb; rewrite Hwb; reflexivity].
  destruct (Hb Hwb) as [B1 B2].
  assert (S1 : atWordBoundary bf (x :: a) = true).
  { destruct (Hlink Hwb) as [L|L]; [|assumption].
    unfold atWordBoundary in *. rewrite <- L, <- Hw. assumption. }
  rewrite S1.
  assert (S2 : atWordBoundary (rev (x :: m3) ++ bf) r' = true).
  { assert (Hne : rev (x :: m3) <> []) by (simpl; destruct (rev m3); discriminate).
    unfold atWordBoundary in B2 |- *.
    rewrite isWordAt_app in B2 by assumption. rewrite isWordAt_app by assumption.
    destruct (litAt ic wb p (rev m3 ++ x :: bf) r') as [[pm pr]|] eqn:E.
    - apply litAt_shape in E. destruct E as (_ & _ & _ & E).
      destruct (E Hwb) as [E' _]. unfold atWordBoundary in E'.
      rewrite <- rev_cons_app, isWordAt_app in E' by assumption. assumption.
    - rewrite E5, isWordAt_replaceFrom in B2 by assumption. assumption. }
  rewrite S2, !orb_true_r. reflexivity.
Qed.

Lemma occursFrom_app (out : str) :
  forall V2 V1 ob, V = V1 ++ V2 ->
    occursFrom ic wb q (rev V1 ++ ob) (V2 ++ out) =
    occursFrom ic wb q (rev V ++ ob) out.
Proof.
  induction V2 as [|v V2 IH]; intros V1 ob E.
  - rewrite app_nil_r in E. subst V1. reflexivity.
  - assert (Hin := inside V1 (v :: V2) ob out E ltac:(discriminate)).
    cbn [app occursFrom] in Hin |- *. rewrite Hin.
    cbn [isSome orb].
    rewrite <- (IH (V1 ++ [v]) ob) by (rewrite <- app_assoc; assumption).
    rewrite rev_app_distr. reflexivity.
Qed.

(** If [q] matches the subject nowhere that [p] does not, the result of the
    replacement has no match of [q] at all. *)
Lemma replaceFrom_clears :
  forall n af bf ob,
    length af <= n ->
    (wb = true -> isWordAt ob = isWordAt bf \/ atWordBoundary bf af = true) ->
    (forall pre suf, af = pre ++ suf ->
       litAt ic wb p (rev pre ++ bf) suf = None ->
       litAt ic wb q (rev pre ++ bf) suf = None) ->
    occursFrom ic wb q ob (replaceFrom ic r subst bf af 0) = false.
Proof.
  induction n as [|n IH]; intros af bf ob Hn Hlink Hall.
  - destruct af; [|simpl in Hn; lia].
    rewrite replaceFrom_step, (litAt_nil ic wb p bf Hp). simpl.
    rewrite (litAt_nil ic wb q ob Hq). reflexivity.
  - destruct (litAt ic wb p bf af) as [[m r']|] eqn:E.
    + rewrite replaceFrom_step, E.
      rewrite (occursFrom_app _ V [] ob eq_refl).
      apply litAt_shape in E. destruct E as (E1 & E2 & _ & E3).
      assert (Hm : 0 < length m) by (rewrite E2; destruct p; [congruence|simpl; lia]).
      apply IH.
      * subst af. rewrite length_app in Hn. lia.
      * intro Hwb. right. apply E3. assumption.
      * intros pre suf Epre. subst af r'.
        specialize (Hall (m ++ pre) suf). rewrite rev_app_distr, <- !app_assoc in Hall.
        apply Hall. reflexivity.
    + destruct (litAt ic wb q ob (replaceFrom ic r subst bf af 0)) as [[m outr]|] eqn:Eq.
      { apply litAt_through in Eq; [|assumption|assumption].
        destruct Eq as [r' Eq]. assert (H0 := Hall [] af eq_refl E).
        simpl in H0. rewrite H0 in Eq. discriminate. }
      rewrite replaceFrom_step, E in Eq |- *.
      destruct af as [|x a].
      * simpl. rewrite (litAt_nil ic wb q ob Hq). reflexivity.
      * cbn [occursFrom]. rewrite Eq. cbn [isSome orb]. apply IH.
        -- simpl in Hn. lia.
        -- intro. left. reflexivity.
        -- intros pre suf Epre. subst a.
           specialize (Hall (x :: pre) suf). rewrite rev_cons_app in Hall.
           apply Hall. reflexivity.
Qed.

(** A literal absent from the subject is absent from the result. *)
Lemma replaceFrom_keeps_absent (s : str) :
  occursFrom ic wb q [] s = false ->
  occursFrom ic wb q [] (replaceFrom ic r subst [] s 0) = false.
Proof.
  intro H. apply (replaceFrom_clears (length s)); [lia|auto|].
  intros pre suf E _. apply (occursFrom_false_all _ _ _ _ _ H). assumption.
Qed.

End LiteralReplace.

(** ** Suppressing one term *)

Lemma lower_idem (c : ascii) : toLowerChar (toLowerChar c) = toLowerChar c.
Proof. each_ascii c; reflexivity. Qed.

Lemma toLowerCase_idem (s : str) : toLowerCase (toLowerCase s) = toLowerCase s.
Proof.
  unfold toLowerCase. rewrite map_map. apply map_ext. intro c. apply lower_idem.
Qed.

Lemma avoids_cons (cs : str) (c : ascii) (t : str) :
  avoids cs (c :: t) = true ->
  existsb (Ascii.eqb c) cs = false /\ avoids cs t = true.
Proof.
  unfold avoids. simpl. intro H. apply andb_true_iff in H. destruct H as [H1 H2].
  split; [|assumption]. destruct (existsb (Ascii.eqb c) cs); [discriminate|reflexivity].
Qed.

Lemma avoids_app (cs a b : str) :
  avoids cs (a ++ b) = true -> avoids cs a = true /\ avoids cs b = true.
Proof. unfold avoids. rewrite forallb_app. apply andb_true_iff. Qed.

(** A term without brackets does not begin with one, up to case. *)
Lemma bracket_free_head (c x : ascii) (t : str) :
  avoids `"[]" (c :: t) = true -> existsb (Ascii.eqb x) `"[]" = true ->
  ceq true c x = false.
Proof.
  intros Hav Hx. apply avoids_cons in Hav. destruct Hav as [Hc _].
  destruct (ceq true c x) eqn:E; [|reflexivity].
  assert (c = x).
  { simpl in Hx. rewrite orb_false_r in Hx. apply orb_true_iff in Hx.
    destruct Hx as [Hx|Hx]; apply Ascii.eqb_eq in Hx; subst x;
      apply (ceq_caseless true); auto. }
  subst c. rewrite Hx in Hc. discriminate.
Qed.

Ltac split_concat E V1 :=
  let v := fresh "v" in
  destruct V1 as [|v V1]; cbn [app] in E;
  [ subst | injection E as ? E; subst v ].

(** One more code unit of the term is read against the letter [x] of the
    replacement; the side cases are a term that ends here and a mismatch. *)
Ltac read_letter Hav :=
  match goal with
  | |- context [stripPrefix true ?t (?x :: _)] =>
      let c := fresh "c" in
      let Ec := fresh "Ec" in
      let Hav' := fresh "Hav" in
      destruct t as [|c t];
      [ | cbn [stripPrefix]; destruct (ceq true c x) eqn:Ec; [|reflexivity];
          apply ceq_lower in Ec;
          destruct (avoids_cons _ _ _ Hav) as [_ Hav']; clear Hav;
          rename Hav' into Hav ]
  end.

Lemma alternative_inside (t : str) :
  t <> [] -> avoids `"[]" t = true -> toLowerCase t <> `"alternative" ->
  forall V1 V2 bf out,
    alternative = V1 ++ V2 -> V2 <> [] ->
    litAt true true t (rev V1 ++ bf) (V2 ++ out) = None.
Proof.
  intros Hne Hav Hno V1 V2 bf out E HV2. unfold alternative in E. cbn in E.
  unfold litAt. cbn [negb orb].
  split_concat E V1.
  { (* at the opening bracket *)
    destruct t as [|c t]; [congruence|]. cbn [app stripPrefix].
    rewrite (bracket_free_head c "[" t Hav eq_refl).
    destruct (atWordBoundary _ _); reflexivity. }
  split_concat E V1.
  { (* at the first letter: the term ends inside the word, is the word, or
       runs into the closing bracket *)
    cbn [rev app]. replace (atWordBoundary _ _) with true by reflexivity.
    read_letter Hav; [congruence|].
    do 10 (read_letter Hav; [reflexivity|]).
    destruct t as [|z t].
    - exfalso. apply Hno. cbn [toLowerCase map].
      repeat match goal with H : _ = toLowerChar _ |- _ => rewrite <- H; clear H end.
      reflexivity.
    - cbn [stripPrefix]. rewrite (bracket_free_head z "]" t Hav eq_refl). reflexivity. }
  (* further in: no word boundary before a letter that follows a letter *)
  do 10 (split_concat E V1; [reflexivity|]).
  split_concat E V1.
  { (* at the closing bracket *)
    destruct t as [|c t]; [congruence|]. cbn [app stripPrefix].
    rewrite (bracket_free_head c "]" t Hav eq_refl).
    destruct (atWordBoundary _ _); reflexivity. }
  destruct V1; cbn [app] in E; [subst; congruence|discriminate].
Qed.

Lemma alternative_into (t : str) :
  avoids `"[]" t = true ->
  forall q1 q2 out,
    t = q1 ++ q2 -> q1 <> [] -> q2 <> [] ->
    stripPrefix true q2 (alternative ++ out) = None.
Proof.
  intros Hav q1 q2 out E _ Hq2. subst t. apply avoids_app in Hav.
  destruct Hav as [_ Hav]. destruct q2 as [|c q2]; [congruence|].
  cbn [alternative list_ascii_of_string app stripPrefix].
  rewrite (bracket_free_head c "[" q2 Hav eq_refl). reflexivity.
Qed.

(** ** Suppressing the terms in turn *)

Lemma getSubstitution_alternative (n : nat) (m : reMatch) :
  getSubstitution n m alternative = alternative.
Proof. reflexivity. Qed.

Lemma suppress_clears (t s : str) :
  plainTerm t ->
  occursFrom true true t [] (replaceAll true (wordPattern t) alternative s) = false.
Proof.
  intros (Hne & Hav & Hno). unfold replaceAll.
  apply (replaceFrom_clears true true t (wordPattern t) _ alternative
           (matchAt_wordPattern t) Hne (getSubstitution_alternative _) t Hne
           (alternative_inside t Hne Hav Hno) (alternative_into t Hav) (length s)).
  - lia.
  - intro. left. reflexivity.
  - intros pre suf _ H. exact H.
Qed.

Lemma suppress_keeps_absent (t t' s : str) :
  plainTerm t -> t' <> [] ->
  occursFrom true true t [] s = false ->
  occursFrom true true t [] (replaceAll true (wordPattern t') alternative s) = false.
Proof.
  intros (Hne & Hav & Hno) Hne' H. unfold replaceAll.
  apply (replaceFrom_keeps_absent true true t' (wordPattern t') _ alternative
           (matchAt_wordPattern t') Hne' (getSubstitution_alternative _) t Hne
           (alternative_inside t Hne Hav Hno) (alternative_into t Hav)).
  exact H.
Qed.

Lemma suppress_stable (t s : str) :
  t <> [] -> occursFrom true true t [] s = false ->
  replaceAll true (wordPattern t) alternative s = s.
Proof.
  intros Hne H. unfold replaceAll.
  apply (replaceFrom_stable true true t (wordPattern t) _ alternative
           (matchAt_wordPattern t) Hne (getSubstitution_alternative _)).
  exact H.
Qed.

Lemma suppress_suppressed (t s : str) :
  t <> [] -> Suppressed [t] s (replaceAll true (wordPattern t) alternative s).
Proof.
  intro Hne. unfold replaceAll.
  apply (replaceFrom_suppressed true true t (wordPattern t) _ alternative
           (matchAt_wordPattern t) Hne (getSubstitution_alternative _)
           eq_refl eq_refl (length s)).
  lia.
Qed.

Lemma replaceTerms_snoc (ts : list str) (t s : str) :
  replaceTerms (ts ++ [t]) s =
  replaceAll true (wordPattern t) alternative (replaceTerms ts s).
Proof. unfold replaceTerms. rewrite fold_left_app. reflexivity. Qed.

(** After the pass no term occurs any more. *)
Lemma replaceTerms_clean (ts : list str) :
  (forall t, In t ts -> plainTerm t) ->
  forall s t, In t ts -> occursFrom true true t [] (replaceTerms ts s) = false.
Proof.
  induction ts as [|t' ts IH] using rev_ind; intros Hall s t Hin; [destruct Hin|].
  rewrite replaceTerms_snoc. apply in_app_or in Hin. destruct Hin as [Hin|[Hin|[]]].
  - apply suppress_keeps_absent.
    + apply Hall. apply in_or_app. left. assumption.
    + apply (Hall t'). apply in_or_app. right. left. reflexivity.
    + apply IH; [|assumption]. intros u Hu. apply Hall. apply in_or_app. left. assumption.
  - subst t'. apply suppress_clears. apply Hall. apply in_or_app. right. left. reflexivity.
Qed.

(** A text in which no term occurs is left as it is. *)
Lemma replaceTerms_stable (ts : list str) :
  forall s, (forall t, In t ts -> t <> [] /\ occursFrom true true t [] s = false) ->
            replaceTerms ts s = s.
Proof.
  induction ts as [|t ts IH]; intros s H; [reflexivity|].
  unfold replaceTerms. cbn [fold_left]. fold (replaceTerms ts).
  destruct (H t (or_introl eq_refl)) as [Hne Hocc].
  rewrite (suppress_stable t s Hne Hocc). apply IH.
  intros u Hu. apply H. right. assumption.
Qed.

Lemma replaceTerms_idempotent (ts : list str) (s : str) :
  (forall t, In t ts -> plainTerm t) ->
  replaceTerms ts (replaceTerms ts s) = replaceTerms ts s.
Proof.
  intro Hall. apply replaceTerms_stable. intros t Hin. split.
  - apply (Hall t Hin).
  - apply replaceTerms_clean; assumption.
Qed.

(** ** Occurrences as the specification words them *)

Lemma stripPrefix_of_ci (t post : str) :
  forall mid, ciEqual mid t -> stripPrefix true t (mid ++ post) = Some (mid, post).
Proof.
  induction t as [|c t IH]; intros mid H; unfold ciEqual in H.
  - destruct mid; [reflexivity|discriminate].
  - destruct mid as [|x mid]; [discriminate|]. simpl in H. injection H as H1 H2.
    cbn [app stripPrefix].
    replace (ceq true c x) with true
      by (symmetry; apply ceq_true_iff; apply canon_eq_lower; auto).
    rewrite (IH mid H2). reflexivity.
Qed.

Lemma not_occursFrom_wordOccurs (t s : str) :
  occursFrom true true t [] s = false -> ~ wordOccurs t s.
Proof.
  intros H (pre & mid & post & E & Hci & B1 & B2).
  assert (Hnone := occursFrom_false_all true true t s [] H pre (mid ++ post) E).
  rewrite app_nil_r in Hnone. unfold litAt in Hnone. cbn [negb orb] in Hnone.
  rewrite B1, (stripPrefix_of_ci t post mid Hci), B2 in Hnone. discriminate.
Qed.

Lemma occursFrom_true_some (ic wb : bool) (q : str) :
  forall af bf, occursFrom ic wb q bf af = true ->
    exists pre suf m r, af = pre ++ suf /\ litAt ic wb q (rev pre ++ bf) suf = Some (m, r).
Proof.
  induction af as [|x af IH]; intros bf H; cbn [occursFrom] in H;
    apply orb_true_iff in H; destruct H as [H|H]; try discriminate.
  - destruct (litAt ic wb q bf []) as [[m r]|] eqn:E; [|discriminate].
    exists [], [], m, r. auto.
  - destruct (litAt ic wb q bf (x :: af)) as [[m r]|] eqn:E; [|discriminate].
    exists [], (x :: af), m, r. auto.
  - destruct (IH _ H) as (pre & suf & m & r & -> & E).
    exists (x :: pre), suf, m, r. rewrite rev_cons_app. auto.
Qed.

Lemma wordOccurs_occursFrom (t s : str) :
  wordOccurs t s <-> occursFrom true true t [] s = true.
Proof.
  split.
  - intro H. destruct (occursFrom true true t [] s) eqn:E; [reflexivity|].
    exfalso. exact (not_occursFrom_wordOccurs t s E H).
  - intro H. apply occursFrom_true_some in H.
    destruct H as (pre & suf & m & r & -> & E). rewrite app_nil_r in E.
    apply litAt_shape in E. destruct E as (-> & _ & Es & Eb).
    destruct (Eb eq_refl) as [B1 B2].
    exists pre, m, r. split; [reflexivity|]. split; [eapply stripPrefix_ci; eassumption|].
    auto.
Qed.

(** ** Substituting the prompt variables *)

Lemma digitsOf_digits (n : N) : forallb isDigit (digitsOf n) = true.
Proof.
  destruct n as [|p]; [reflexivity|]. unfold digitsOf.
  generalize (N.to_uint (Npos p)) as d.
  induction d; simpl; auto.
Qed.

Lemma digitsOf_nonempty (n : N) : digitsOf n <> [].
Proof.
  destruct n as [|p]; [discriminate|]. unfold digitsOf. simpl.
  pose proof (Unsigned.to_uint_nonnil p) as H.
  destruct (Pos.to_uint p); [congruence| | | | | | | | | |]; discriminate.
Qed.

Lemma startsWith_strip (q s : str) : isSome (stripPrefix false q s) = startsWith s q.
Proof.
  revert s. induction q as [|c q IH]; intro s; [destruct s; reflexivity|].
  destruct s as [|x s]; [reflexivity|]. cbn [stripPrefix startsWith ceq].
  destruct (Ascii.eqb c x); [|reflexivity]. rewrite <- IH.
  destruct (stripPrefix false q s) as [[m r]|]; reflexivity.
Qed.

Lemma litAt_plain (q bf af : str) :
  isSome (litAt false false q bf af) = startsWith af q.
Proof.
  unfold litAt. cbn [negb orb]. rewrite <- startsWith_strip.
  destruct (stripPrefix false q af) as [[m r]|]; reflexivity.
Qed.

Lemma includes_occursFrom (q : str) :
  forall s bf, includes s q = occursFrom false false q bf s.
Proof.
  induction s as [|x s IH]; intro bf; cbn [includes occursFrom]; rewrite litAt_plain.
  - reflexivity.
  - rewrite (IH (x :: bf)). reflexivity.
Qed.

(** A replacement string without a dollar sign stands for itself. *)
Lemma getSubstitution_plain (n : nat) (m : reMatch) (t : str) :
  avoids `"$" t = true -> getSubstitution n m t = t.
Proof.
  induction t as [|c t IH]; intro H; [reflexivity|].
  apply avoids_cons in H. destruct H as [H1 H2].
  cbn [getSubstitution]. unfold isChar.
  simpl in H1. rewrite orb_false_r in H1. rewrite H1, (IH H2). reflexivity.
Qed.

Lemma avoids_weaken (cs cs' s : str) :
  (forall c, existsb (Ascii.eqb c) cs' = true -> existsb (Ascii.eqb c) cs = true) ->
  avoids cs s = true -> avoids cs' s = true.
Proof.
  intros Hsub H. unfold avoids in *. rewrite forallb_forall in *.
  intros c Hc. specialize (H c Hc).
  destruct (existsb (Ascii.eqb c) cs') eqn:E; [|reflexivity].
  rewrite (Hsub c E) in H. discriminate.
Qed.

Lemma digits_avoid (cs : str) (n : N) :
  forallb (fun c => negb (isDigit c)) cs = true -> avoids cs (digitsOf n) = true.
Proof.
  intro H. pose proof (digitsOf_digits n) as Hd. unfold avoids.
  rewrite forallb_forall in *. intros d Hin. specialize (Hd d Hin).
  destruct (existsb (Ascii.eqb d) cs) eqn:E; [|reflexivity].
  apply existsb_exists in E. destruct E as (c & Hc & E).
  apply Ascii.eqb_eq in E. subst c. specialize (H d Hc). rewrite Hd in H. discriminate.
Qed.

(** A literal whose first code unit is foreign to the replacement cannot
    begin inside it. *)
Lemma foreign_head_inside (c : ascii) (q V : str) :
  avoids [c] V = true ->
  forall V1 V2 bf out,
    V = V1 ++ V2 -> V2 <> [] ->
    litAt false false (c :: q) (rev V1 ++ bf) (V2 ++ out) = None.
Proof.
  intros Hav V1 V2 bf out E HV2. subst V. apply avoids_app in Hav.
  destruct Hav as [_ Hav]. destruct V2 as [|v V2]; [congruence|].
  apply avoids_cons in Hav. destruct Hav as [Hv _]. simpl in Hv.
  rewrite orb_false_r in Hv. unfold litAt. cbn [negb orb app stripPrefix ceq].
  rewrite Ascii.eqb_sym. rewrite Hv. reflexivity.
Qed.

(** A literal that runs into the replacement has it as a prefix of what
    remains, or ends within it. *)
Lemma stripPrefix_meets (V out : str) :
  forall q2 m r, q2 <> [] ->
    stripPrefix false q2 (V ++ out) = Some (m, r) ->
    startsWith q2 V = true \/ existsb (Ascii.eqb (last q2 " "%char)) V = true.
Proof.
  induction V as [|v V IH]; intros q2 m r Hne H.
  - left. destruct q2; reflexivity.
  - destruct q2 as [|c q2]; [congruence|]. cbn [app stripPrefix ceq] in H.
    destruct (Ascii.eqb c v) eqn:Ec; [|discriminate].
    destruct (stripPrefix false q2 (V ++ out)) as [[m' r']|] eqn:E; [|discriminate].
    destruct q2 as [|c2 q2].
    + right. cbn [last existsb]. rewrite Ec. reflexivity.
    + apply IH in E; [|discriminate]. destruct E as [E|E].
      * left. cbn [startsWith]. rewrite Ascii.eqb_sym, Ec. assumption.
      * right. cbn [existsb]. change (last (c :: c2 :: q2) " "%char)
          with (last (c2 :: q2) " "%char). rewrite E. apply orb_true_r.
Qed.

Lemma includes_suffix (q1 q2 V : str) :
  startsWith q2 V = true -> includes (q1 ++ q2) V = true.
Proof.
  intro H. induction q1 as [|c q1 IH].
  - destruct q2; cbn [app includes]; rewrite H; reflexivity.
  - cbn [app includes]. rewrite IH. apply orb_true_r.
Qed.

Lemma last_suffix (q1 q2 : str) (d : ascii) :
  q2 <> [] -> last (q1 ++ q2) d = last q2 d.
Proof.
  intro H. induction q1 as [|c q1 IH]; [reflexivity|].
  cbn [app]. destruct (q1 ++ q2) eqn:E.
  - destruct q1; [simpl in E; congruence|discriminate].
  - rewrite <- IH. reflexivity.
Qed.

Lemma foreign_into (q V : str) :
  includes q V = false ->
  existsb (Ascii.eqb (last q " "%char)) V = false ->
  forall q1 q2 out,
    q = q1 ++ q2 -> q1 <> [] -> q2 <> [] -> stripPrefix false q2 (V ++ out) = None.
Proof.
  intros Hinc Hlast q1 q2 out E _ Hq2.
  destruct (stripPrefix false q2 (V ++ out)) as [[m r]|] eqn:Es; [|reflexivity].
  apply stripPrefix_meets in Es; [|assumption]. destruct Es as [Es|Es].
  - rewrite E, (includes_suffix q1 q2 V Es) in Hinc. discriminate.
  - subst q. rewrite last_suffix in Hlast by assumption. rewrite Es in Hlast. discriminate.
Qed.

(** The pattern-based replacement of a literal token is the plain
    substitution. *)
Lemma replaceFrom_substitute (q V : str) (subst : reMatch -> str) :
  q <> [] -> (forall m, subst m = V) ->
  forall af bf skip,
    replaceFrom false (lit q) subst bf af skip = substituteFrom q V af skip.
Proof.
  intros Hq Hs. induction af as [|x a IH]; intros bf skip.
  - destruct skip; cbn [replaceFrom substituteFrom]; [|reflexivity].
    rewrite matchAt_lit, (litAt_nil false false q bf Hq). reflexivity.
  - destruct skip as [|k]; cbn [replaceFrom substituteFrom]; [|apply IH].
    rewrite matchAt_lit. rewrite <- litAt_plain with (bf := bf).
    destruct (litAt false false q bf (x :: a)) as [[m r']|] eqn:E; cbn [isSome].
    + apply litAt_shape in E. destruct E as (E1 & E2 & _).
      rewrite Hs. f_equal. cbn [rest]. rewrite E1, length_app.
      replace (length m + length r' - length r') with (length q) by lia.
      destruct q as [|c q']; [congruence|]. cbn [length Nat.sub].
      rewrite Nat.sub_0_r. apply IH.
    + rewrite IH. reflexivity.
Qed.

Lemma avoids_one (c : ascii) (V : str) :
  avoids [c] V = true -> existsb (Ascii.eqb c) V = false.
Proof.
  induction V as [|v V IH]; intro H; [reflexivity|].
  apply avoids_cons in H. destruct H as [H1 H2]. simpl in H1.
  rewrite orb_false_r in H1. cbn [existsb]. rewrite Ascii.eqb_sym, H1. apply IH, H2.
Qed.

(** A text with a code unit foreign to [q] is no part of [q]. *)
Lemma includes_foreign (q V : str) :
  V <> [] -> avoids q V = true -> includes q V = false.
Proof.
  intros HV Hav. destruct V as [|v V]; [congruence|].
  apply avoids_cons in Hav. destruct Hav as [Hv _].
  induction q as [|c q IH]; [reflexivity|].
  cbn [includes startsWith existsb] in *. apply orb_false_iff in Hv.
  destruct Hv as [Hv1 Hv2]. rewrite Ascii.eqb_sym in Hv1. rewrite Ascii.eqb_sym, Hv1.
  cbn [andb orb]. apply IH. assumption.
Qed.

Lemma startsWith_drop_last (c : ascii) (V : str) :
  existsb (Ascii.eqb c) V = false ->
  forall s, startsWith (s ++ [c]) V = true -> startsWith s V = true.
Proof.
  intro Hc. induction V as [|v V IH]; intros s H; [destruct s; reflexivity|].
  cbn [existsb] in Hc. apply orb_false_iff in Hc. destruct Hc as [Hc1 Hc2].
  destruct s as [|x s]; cbn [app startsWith] in *.
  - rewrite Ascii.eqb_sym, Hc1 in H. discriminate.
  - apply andb_true_iff in H. destruct H as [H1 H2]. rewrite H1. apply IH; assumption.
Qed.

(** Code units foreign to [V] at either end of a text do not matter to
    whether [V] is part of it. *)
Lemma includes_trim_head (c : ascii) (s V : str) :
  V <> [] -> existsb (Ascii.eqb c) V = false ->
  includes (c :: s) V = true -> includes s V = true.
Proof.
  intros HV Hc H. destruct V as [|v V]; [congruence|].
  cbn [includes startsWith existsb] in *. apply orb_false_iff in Hc.
  destruct Hc as [Hc _]. rewrite Ascii.eqb_sym, Hc in H. exact H.
Qed.

Lemma includes_trim_last (c : ascii) (V : str) :
  V <> [] -> existsb (Ascii.eqb c) V = false ->
  forall s, includes (s ++ [c]) V = true -> includes s V = true.
Proof.
  intros HV Hc. induction s as [|x s IH]; intro H.
  - destruct V as [|v V]; [congruence|].
    cbn [app includes startsWith existsb] in *. apply orb_false_iff in Hc.
    destruct Hc as [Hc _]. rewrite Ascii.eqb_sym, Hc in H. discriminate.
  - cbn [app includes] in *. apply orb_true_iff in H. destruct H as [H|H].
    + change (x :: s ++ [c]) with ((x :: s) ++ [c]) in H.
      rewrite (startsWith_drop_last c V Hc _ H). reflexivity.
    + rewrite (IH H). apply orb_true_r.
Qed.

Lemma applyPromptVariables_steps (template keyword : str) (minWords : N) :
  applyPromptVariables template keyword minWords =
  replaceAll false (lit `"{minWords}") (digitsOf minWords)
    (replaceAll false (lit `"{keyword}") keyword template).
Proof. reflexivity. Qed.

(** After the substitution of a number no [{minWords}] is left. *)
Lemma minWords_cleared (minWords : N) (s : str) :
  includes (replaceAll false (lit `"{minWords}") (digitsOf minWords) s) `"{minWords}"
  = false.
Proof.
  rewrite (includes_occursFrom _ _ []). unfold replaceAll.
  assert (Hd : forall cs, forallb (fun c => negb (isDigit c)) cs = true ->
                          avoids cs (digitsOf minWords) = true)
    by (intros; apply digits_avoid; assumption).
  apply (replaceFrom_clears false false `"{minWords}" (lit `"{minWords}") _
           (digitsOf minWords) (matchAt_lit false _) ltac:(discriminate)
           (fun m => getSubstitution_plain _ m _ (Hd `"$" eq_refl))
           `"{minWords}" ltac:(discriminate)
           (foreign_head_inside "{" `"minWords}" _ (Hd `"{" eq_refl))
           (foreign_into `"{minWords}" _
              (includes_foreign _ _ (digitsOf_nonempty _) (Hd `"{minWords}" eq_refl))
              (avoids_one _ _ (Hd `"}" eq_refl)))
           (length s)).
  - lia.
  - intro; discriminate.
  - intros pre suf _ H. exact H.
Qed.

(** The substitution of a number brings no [{keyword}] in. *)
Lemma minWords_keeps_keyword_absent (minWords : N) (s : str) :
  includes s `"{keyword}" = false ->
  includes (replaceAll false (lit `"{minWords}") (digitsOf minWords) s) `"{keyword}"
  = false.
Proof.
  rewrite !(includes_occursFrom _ _ []). unfold replaceAll.
  assert (Hd : forall cs, forallb (fun c => negb (isDigit c)) cs = true ->
                          avoids cs (digitsOf minWords) = true)
    by (intros; apply digits_avoid; assumption).
  apply (replaceFrom_keeps_absent false false `"{minWords}" (lit `"{minWords}") _
           (digitsOf minWords) (matchAt_lit false _) ltac:(discriminate)
           (fun m => getSubstitution_plain _ m _ (Hd `"$" eq_refl))
           `"{keyword}" ltac:(discriminate)
           (foreign_head_inside "{" `"keyword}" _ (Hd `"{" eq_refl))
           (foreign_into `"{keyword}" _
              (includes_foreign _ _ (digitsOf_nonempty _) (Hd `"{keyword}" eq_refl))
              (avoids_one _ _ (Hd `"}" eq_refl)))).
Qed.

(** After the substitution of a keyword that has no brace or dollar sign
    and is no part of the word [keyword], no [{keyword}] is left. *)
Lemma keyword_cleared (keyword s : str) :
  avoids `"${}" keyword = true -> includes `"keyword" keyword = false ->
  includes (replaceAll false (lit `"{keyword}") keyword s) `"{keyword}" = false.
Proof.
  intros Hav Hpart. rewrite (includes_occursFrom _ _ []). unfold replaceAll.
  assert (Hw : forall cs, forallb (fun c => existsb (Ascii.eqb c) `"${}") cs = true ->
                          avoids cs keyword = true).
  { intros cs Hcs. apply (avoids_weaken `"${}"); [|assumption].
    intros c Hc. apply existsb_exists in Hc. destruct Hc as (x & Hx & Hc).
    apply Ascii.eqb_eq in Hc. subst x. rewrite forallb_forall in Hcs. auto. }
  assert (Hne : keyword <> []) by (intro; subst keyword; discriminate).
  assert (Hopen := avoids_one _ _ (Hw `"{" eq_refl)).
  assert (Hclose := avoids_one _ _ (Hw `"}" eq_refl)).
  assert (Hout : includes `"{keyword}" keyword = false).
  { destruct (includes `"{keyword}" keyword) eqn:E; [|reflexivity].
    apply (includes_trim_head "{" _ keyword Hne Hopen) in E.
    apply (includes_trim_last "}" keyword Hne Hclose `"keyword") in E.
    congruence. }
  apply (replaceFrom_clears false false `"{keyword}" (lit `"{keyword}") _
           keyword (matchAt_lit false _) ltac:(discriminate)
           (fun m => getSubstitution_plain _ m _ (Hw `"$" eq_refl))
           `"{keyword}" ltac:(discriminate)
           (foreign_head_inside "{" `"keyword}" _ (Hw `"{" eq_refl))
           (foreign_into `"{keyword}" _ Hout Hclose)
           (length s)).
  - lia.
  - intro; discriminate.
  - intros pre suf _ H. exact H.
Qed.

Lemma replaceAll_substitute (token value s : str) :
  token <> [] -> avoids `"$" value = true ->
  replaceAll false (lit token) value s = substituteAll token value s.
Proof.
  intros Ht Hv. unfold replaceAll, substituteAll.
  apply replaceFrom_substitute; [assumption|].
  intro m. apply getSubstitution_plain. assumption.
Qed.

(** ** Counting words *)

Lemma dropSpace_length (s : str) : length (dropSpace s) <= length s.
Proof.
  induction s as [|x s IH]; [auto|]. cbn [dropSpace]. destruct (isSpace x); simpl; lia.
Qed.

Lemma ws_matches (x : ascii) : clsMatches false false [CSpace] x = isSpace x.
Proof. unfold clsMatches. cbn. destruct (isSpace x); reflexivity. Qed.

Lemma rmatch_ws (k : cont) (s : mstate) :
  rmatch false ws k s =
  match rest s with
  | x :: xs => if isSpace x then k (step s x xs) else None
  | [] => None
  end.
Proof.
  unfold ws. cbn [rmatch]. destruct (rest s) as [|x xs]; [reflexivity|].
  rewrite ws_matches. reflexivity.
Qed.

(** Greedy [\s*] with nothing after it reads all the white space ahead. *)
Lemma starLoop_spaces :
  forall fuel s, length (rest s) < fuel ->
    exists e, starLoop (rmatch false ws) true (fun s => Some s) fuel s = Some e /\
              rest e = dropSpace (rest s).
Proof.
  induction fuel as [|f IH]; intros s Hf; [lia|].
  cbn [starLoop]. rewrite rmatch_ws.
  destruct (rest s) as [|x xs] eqn:E.
  - exists s. cbn [orElse]. auto.
  - cbn [dropSpace]. destruct (isSpace x).
    + unfold step. cbn [rest]. replace (length xs <? length (x :: xs)) with true
        by (symmetry; apply Nat.ltb_lt; simpl; lia).
      destruct (IH (MState (x :: consumed s) xs (caps s))) as (e & He1 & He2);
        [simpl in *; lia|].
      exists e. rewrite He1. cbn [orElse]. auto.
    + exists s. cbn [orElse]. auto.
Qed.

Lemma matchAt_spaces (bf af : str) :
  match af with
  | x :: a =>
      if isSpace x
      then exists e, matchAt false (plus true ws) bf af = Some e /\
                     rest e = dropSpace a
      else matchAt false (plus true ws) bf af = None
  | [] => matchAt false (plus true ws) bf af = None
  end.
Proof.
  unfold matchAt, plus. cbn [rmatch]. rewrite rmatch_ws. cbn [rest].
  destruct af as [|x a]; [reflexivity|].
  destruct (isSpace x); [|reflexivity]. unfold step. cbn [rest consumed caps].
  apply starLoop_spaces. cbn [rest]. lia.
Qed.

Lemma nonEmpty_rev (s : str) : nonEmpty (rev s) = nonEmpty s.
Proof.
  destruct s as [|x s]; [reflexivity|]. simpl. destruct (rev s); reflexivity.
Qed.

Lemma splitFrom_count :
  forall af,
    (forall bf cur,
       pieces (splitFrom false (plus true ws) bf af 0 cur) =
       countTokens (nonEmpty cur) af + (if nonEmpty cur then 1 else 0)) /\
    (forall bf k,
       k <= length af - length (dropSpace af) ->
       pieces (splitFrom false (plus true ws) bf af k []) = countTokens false af).
Proof.
  induction af as [|x a [IH1 IH2]].
  - split.
    + intros bf cur. unfold pieces. cbn [splitFrom filter countTokens].
      rewrite nonEmpty_rev. destruct (nonEmpty cur); reflexivity.
    + intros bf k _. destruct k; reflexivity.
  - assert (Hstep : forall bf cur,
       pieces (splitFrom false (plus true ws) bf (x :: a) 0 cur) =
       countTokens (nonEmpty cur) (x :: a) + (if nonEmpty cur then 1 else 0)).
    { intros bf cur. cbn [splitFrom countTokens].
      pose proof (matchAt_spaces bf (x :: a)) as Hm. cbn beta iota in Hm.
      destruct (isSpace x).
      - destruct Hm as (e & He1 & He2). rewrite He1, He2.
        pose proof (dropSpace_length a) as Hl.
        replace (length (x :: a) - length (dropSpace a))
          with (S (length a - length (dropSpace a))) by (cbn [length]; lia).
        unfold pieces in *. cbn [filter]. rewrite nonEmpty_rev.
        specialize (IH2 (x :: bf) (length a - length (dropSpace a)) (le_n _)).
        destruct (nonEmpty cur); cbn [length]; rewrite IH2; lia.
      - rewrite Hm, IH1. cbn [nonEmpty]. destruct (nonEmpty cur); lia. }
    split; [exact Hstep|].
    intros bf k Hk. destruct k as [|k].
    + rewrite Hstep. cbn [nonEmpty]. lia.
    + cbn [splitFrom countTokens dropSpace] in *.
      destruct (isSpace x).
      * apply IH2. pose proof (dropSpace_length a). cbn [length] in Hk. lia.
      * rewrite Nat.sub_diag in Hk. lia.
Qed.

(** [countWords] counts the maximal runs of code units that are not white
    space. *)
Lemma countWords_tokens (text : str) : countWords text = countTokens false text.
Proof.
  unfold countWords, reSplit. destruct text as [|x a]; [reflexivity|].
  destruct (splitFrom_count (x :: a)) as [H _].
  fold (pieces (splitFrom false (plus true ws) [] (x :: a) 0 [])).
  rewrite H. cbn [nonEmpty]. lia.
Qed.

(** ** The recipe extractor *)

Lemma searchFrom_some (ic : bool) (r : regex) :
  forall af bf m, searchFrom ic r bf af = Some m ->
    exists bf' af' e, matchAt ic r bf' af' = Some e /\ m = mkMatch bf' af' e.
Proof.
  induction af as [|x a IH]; intros bf m H; cbn [searchFrom] in H.
  - destruct (matchAt ic r bf []) as [e|] eqn:E; [|discriminate].
    inversion H. exists bf, [], e. auto.
  - destruct (matchAt ic r bf (x :: a)) as [e|] eqn:E.
    + inversion H. exists bf, (x :: a), e. auto.
    + apply IH in H. exact H.
Qed.

Lemma rmatch_seq_enters (ic : bool) (r1 r2 : regex) (k : cont) (s e : mstate) :
  rmatch ic (Seq r1 r2) k s = Some e -> exists s', rmatch ic r2 k s' = Some e.
Proof. cbn [rmatch]. apply rmatch_enters. Qed.

Lemma rmatch_group_set (ic : bool) (i : nat) (r : regex) (s e : mstate) :
  rmatch ic (Grp i r) (fun s => Some s) s = Some e ->
  exists v, lookupCap i (caps e) = Some v.
Proof.
  cbn [rmatch]. intro H. apply rmatch_enters in H. destruct H as [s' H].
  inversion H. cbn [setCap caps lookupCap]. rewrite Nat.eqb_refl. eexists. reflexivity.
Qed.

(** A match of the time pattern has its unit in group 3. *)
Lemma timeRe_unit (head : regex) (bf af : str) (e : mstate) :
  matchAt true (timeRe head) bf af = Some e ->
  exists u, lookupCap 3 (caps e) = Some u.
Proof.
  unfold matchAt, timeRe. cbn [seqs]. intro H.
  do 8 (apply rmatch_seq_enters in H; destruct H as [? H]).
  apply rmatch_group_set in H. exact H.
Qed.

Lemma timeMatch_unit (content timeType : str) (m : reMatch) :
  timeMatch content timeType = Some m -> exists u, group m 3 = Some u.
Proof.
  unfold timeMatch. intro H.
  assert (Hs : forall head, reExec true (timeRe head) (toLowerCase content) = Some m ->
                            exists u, group m 3 = Some u).
  { intros head Hh. apply searchFrom_some in Hh. destruct Hh as (bf & af & e & He & ->).
    apply timeRe_unit in He. exact He. }
  destruct (str_eqb timeType `"prep"); [eapply Hs; eassumption|].
  destruct (str_eqb timeType `"cook"); [eapply Hs; eassumption|].
  destruct (str_eqb timeType `"total"); [eapply Hs; eassumption|discriminate].
Qed.

(** [extractTime] does not throw. *)
Lemma extractTime_total (content timeType : str) :
  exists time, extractTime content timeType = Ret time.
Proof.
  unfold extractTime. destruct (timeMatch content timeType) as [m|] eqn:E.
  - destruct (timeMatch_unit _ _ _ E) as [u Hu]. rewrite Hu. eexists. reflexivity.
  - eexists. reflexivity.
Qed.

(** Past the gate a record is returned. *)
Lemma extractRecipeData_some (content keyword : str) :
  (indicatorCount content <? 3) = false ->
  exists prep cook total,
    extractTime content `"prep" = Ret prep /\
    extractTime content `"cook" = Ret cook /\
    extractTime content `"total" = Ret total /\
    extractRecipeData content keyword =
    Ret (Some {| Description := extractDescription content;
                 Ingredients := extractIngredients content;
                 Instructions := extractInstructions content;
                 Notes := extractNotes content;
                 RDetails :=
                   {| PrepTime := prep; CookTime := cook; TotalTime := total;
                      Yield := extractYield content;
                      Category := determineCategory content keyword;
                      Method := determineMethod content;
                      Cuisine := determineCuisine content keyword;
                      Diet := determineDiet content |};
                 Keywords := keyword ++ extractKeywords content;
                 RNutrition := extractNutrition content |}).
Proof.
  intro Hc. unfold extractRecipeData. rewrite Hc.
  destruct (extractTime_total content `"prep") as [prep Hp].
  destruct (extractTime_total content `"cook") as [cook Hk].
  destruct (extractTime_total content `"total") as [total Ht].
  exists prep, cook, total. rewrite Hp, Hk, Ht. auto.
Qed.

(** *** Content without markup *)

Lemma rmatch_needs_char (ic : bool) (c : ascii) (r : regex) :
  startsWithChr c r = true ->
  forall k s,
    match rest s with
    | x :: _ => ceq ic c x = false
    | [] => True
    end ->
    rmatch ic r k s = None.
Proof.
  induction r as [|c'| |neg items|r1 IH1 r2 IH2|r1 IH1 r2 IH2|g r1 IH1|i r1 IH1| | |];
    intros Hs k s Hx; cbn [startsWithChr] in Hs; try discriminate; cbn [rmatch].
  - apply Ascii.eqb_eq in Hs. subst c'.
    destruct (rest s) as [|x xs]; [reflexivity|]. rewrite Hx. reflexivity.
  - apply IH1; assumption.
  - apply andb_true_iff in Hs. destruct Hs as [H1 H2].
    rewrite (IH1 H1 k s Hx), (IH2 H2 k s Hx). reflexivity.
  - apply IH1; assumption.
Qed.

Lemma foreign_ceq (ic : bool) (c x : ascii) :
  canon c = c -> toLowerChar c = c -> Ascii.eqb x c = false -> ceq ic c x = false.
Proof.
  intros Hc Hl Hx. destruct (ceq ic c x) eqn:E; [|reflexivity].
  assert (canon x = canon c) by (apply ceq_true_iff in E; destruct ic; congruence).
  assert (ceq true x c = true) by (apply ceq_true_iff; assumption).
  apply (ceq_caseless true x c Hc Hl) in H0. subst x. rewrite Ascii.eqb_refl in Hx.
  discriminate.
Qed.

Lemma matchAt_needs_char (ic : bool) (c : ascii) (r : regex) (bf af : str) :
  startsWithChr c r = true -> canon c = c -> toLowerChar c = c ->
  avoids [c] af = true -> matchAt ic r bf af = None.
Proof.
  intros Hs Hc Hl Hav. unfold matchAt. apply (rmatch_needs_char ic c r Hs).
  cbn [rest]. destruct af as [|x a]; [exact I|].
  apply avoids_cons in Hav. destruct Hav as [Hx _]. simpl in Hx.
  rewrite orb_false_r in Hx. apply foreign_ceq; assumption.
Qed.

Lemma searchFrom_needs_char (ic : bool) (c : ascii) (r : regex) :
  startsWithChr c r = true -> canon c = c -> toLowerChar c = c ->
  forall af bf, avoids [c] af = true -> searchFrom ic r bf af = None.
Proof.
  intros Hs Hc Hl. induction af as [|x a IH]; intros bf Hav; cbn [searchFrom];
    rewrite (matchAt_needs_char ic c r bf _ Hs Hc Hl Hav); [reflexivity|].
  apply IH. apply avoids_cons in Hav. apply Hav.
Qed.

Lemma matchesFrom_needs_char (ic : bool) (c : ascii) (r : regex) :
  startsWithChr c r = true -> canon c = c -> toLowerChar c = c ->
  forall af bf, avoids [c] af = true -> matchesFrom ic r bf af 0 = [].
Proof.
  intros Hs Hc Hl. induction af as [|x a IH]; intros bf Hav; cbn [matchesFrom];
    rewrite (matchAt_needs_char ic c r bf _ Hs Hc Hl Hav); [reflexivity|].
  apply IH. apply avoids_cons in Hav. apply Hav.
Qed.

Lemma no_markup_exec (ic : bool) (r : regex) (content : str) :
  startsWithChr "<" r = true -> avoids `"<" content = true ->
  reExec ic r content = None.
Proof.
  intros Hs Hav. apply (searchFrom_needs_char ic "<" r Hs eq_refl eq_refl). exact Hav.
Qed.

Lemma no_markup_matchAll (ic : bool) (r : regex) (content : str) :
  startsWithChr "<" r = true -> avoids `"<" content = true ->
  reMatchAll ic r content = [].
Proof.
  intros Hs Hav. unfold reMatchAll, reMatches.
  rewrite (matchesFrom_needs_char ic "<" r Hs eq_refl eq_refl); [reflexivity|exact Hav].
Qed.



(** *** The gate *)

Lemma startsWith_split (s p : str) : startsWith s p = true -> exists b, s = p ++ b.
Proof.
  revert s. induction p as [|c p IH]; intros s H.
  - exists s. reflexivity.
  - destruct s as [|x s]; [discriminate|]. cbn [startsWith] in H.
    apply andb_true_iff in H. destruct H as [H1 H2]. apply Ascii.eqb_eq in H1.
    subst x. destruct (IH s H2) as [b ->]. exists b. reflexivity.
Qed.

Lemma startsWith_app (p b : str) : startsWith (p ++ b) p = true.
Proof.
  induction p as [|c p IH]; [destruct b; reflexivity|].
  cbn [app startsWith]. rewrite Ascii.eqb_refl. exact IH.
Qed.

Lemma includes_split (s p : str) :
  includes s p = true <-> exists a b, s = a ++ p ++ b.
Proof.
  split.
  - induction s as [|x s IH]; cbn [includes]; intro H;
      apply orb_true_iff in H; destruct H as [H|H]; try discriminate.
    + apply startsWith_split in H. destruct H as [b H]. exists [], b. exact H.
    + apply startsWith_split in H. destruct H as [b H]. exists [], b. exact H.
    + destruct (IH H) as (a & b & ->). exists (x :: a), b. reflexivity.
  - intros (a & b & ->). induction a as [|x a IH].
    + cbn [app]. destruct (p ++ b) eqn:E; cbn [includes]; rewrite <- E;
        rewrite startsWith_app; reflexivity.
    + cbn [app includes]. rewrite IH. apply orb_true_r.
Qed.







Lemma extractRecipeData_times (html keyword : str) (recipe : RecipeData) :
  extractRecipeData html keyword = Ret (Some recipe) ->
  extractTime html `"prep" = Ret (PrepTime (RDetails recipe)) /\
  extractTime html `"cook" = Ret (CookTime (RDetails recipe)) /\
  extractTime html `"total" = Ret (TotalTime (RDetails recipe)).
Proof.
  intro H. destruct (indicatorCount html <? 3) eqn:E.
  - unfold extractRecipeData in H. rewrite E in H. discriminate.
  - destruct (extractRecipeData_some html keyword E) as (p & c & t & Hp & Hc & Ht & H').
    rewrite H' in H. inversion H. cbn [RDetails PrepTime CookTime TotalTime]. auto.
Qed.

Lemma timeMatch_prep (html : str) :
  timeMatch html `"prep" = reExec true (timeRe prepHead) (toLowerCase html).
Proof. reflexivity. Qed.

Lemma timeMatch_cook (html : str) :
  timeMatch html `"cook" = reExec true (timeRe cookHead) (toLowerCase html).
Proof. reflexivity. Qed.

Lemma timeMatch_total (html : str) :
  timeMatch html `"total" = reExec true (timeRe totalHead) (toLowerCase html).
Proof. reflexivity. Qed.

(** C8 (amended). Each time is looked for anywhere in the lower-cased
    document, with the pattern [prep(?:aration)?\s+time...],
    [cook(?:ing)?\s+time...] or [total\s+time...]; when the pattern of a
    type does not match, the field is the fixed default of the type. *)
Theorem extractTime_defaults (html keyword : str) (recipe : RecipeData) :
  extractRecipeData html keyword = Ret (Some recipe) ->
  (reExec true (timeRe prepHead) (toLowerCase html) = None ->
   PrepTime (RDetails recipe) = `"15 minutes") /\
  (reExec true (timeRe cookHead) (toLowerCase html) = None ->
   CookTime (RDetails recipe) = `"30 minutes") /\
  (reExec true (timeRe totalHead) (toLowerCase html) = None ->
   TotalTime (RDetails recipe) = `"45 minutes").
Proof.
  intro H. apply extractRecipeData_times in H. destruct H as (Hp & Hc & Ht).
  unfold extractTime in Hp, Hc, Ht.
  rewrite timeMatch_prep in Hp. rewrite timeMatch_cook in Hc.
  rewrite timeMatch_total in Ht.
  repeat split; intro Hn; rewrite Hn in *; [inversion Hp|inversion Hc|inversion Ht];
    reflexivity.
Qed.

Lemma extractTime_defaults_witness :
  exists recipe,
    extractRecipeData `"Bake the recipe for 20 minutes." `"cake" = Ret (Some recipe) /\
    PrepTime (RDetails recipe) = `"15 minutes" /\
    CookTime (RDetails recipe) = `"30 minutes" /\
    TotalTime (RDetails recipe) = `"45 minutes".
Proof.
  assert (Hr : exists recipe,
             extractRecipeData `"Bake the recipe for 20 minutes." `"cake"
             = Ret (Some recipe))
    by (vm_compute; eexists; reflexivity).
  destruct Hr as [recipe Hr]. exists recipe. split; [exact Hr|].
  destruct (extractTime_defaults _ _ _ Hr) as (Hp & Hc & Ht).
  repeat split; [apply Hp|apply Hc|apply Ht]; reflexivity.
Defined.

(** C8 as stated fails: the pattern of the specification, [prep\s*time...],
    does not match a document that says [preparation time], yet the field is
    not the default; and it matches [preptime], which the extractor does not
    read. *)
Lemma extractTime_defaults_counterexample :
  (reExec true (specTimeRe `"prep") `"recipe: bake. preparation time: 20 minutes" = None /\
   exists recipe,
     extractRecipeData `"recipe: bake. preparation time: 20 minutes" `"cake"
     = Ret (Some recipe) /\
     PrepTime (RDetails recipe) = `"20 minutes") /\
  (reTest true (specTimeRe `"prep") `"recipe: bake. preptime: 20 minutes" = true /\
   exists recipe,
     extractRecipeData `"recipe: bake. preptime: 20 minutes" `"cake"
     = Ret (Some recipe) /\
     PrepTime (RDetails recipe) = `"15 minutes").
Proof.
  split; (split; [vm_compute; reflexivity|]); eexists; split;
    try (vm_compute; reflexivity); reflexivity.
Qed.

(** C9. When the time pattern matches with a range, [N to M], the field is
    the lower bound and the unit: the upper bound is dropped. *)
Theorem extractTime_range_lower (html keyword : str) (recipe : RecipeData)
    (m : reMatch) (lower upper unit : str) :
  extractRecipeData html keyword = Ret (Some recipe) ->
  group m 1 = Some lower -> group m 2 = Some upper -> group m 3 = Some unit ->
  (reExec true (timeRe prepHead) (toLowerCase html) = Some m ->
   PrepTime (RDetails recipe) = lower ++ `" " ++ toLowerCase unit) /\
  (reExec true (timeRe cookHead) (toLowerCase html) = Some m ->
   CookTime (RDetails recipe) = lower ++ `" " ++ toLowerCase unit) /\
  (reExec true (timeRe totalHead) (toLowerCase html) = Some m ->
   TotalTime (RDetails recipe) = lower ++ `" " ++ toLowerCase unit).
Proof.
  intros H H1 H2 H3. apply extractRecipeData_times in H. destruct H as (Hp & Hc & Ht).
  unfold extractTime in Hp, Hc, Ht.
  rewrite timeMatch_prep in Hp. rewrite timeMatch_cook in Hc.
  rewrite timeMatch_total in Ht.
  repeat split; intro Hm; rewrite Hm, H1, H3 in *;
    [inversion Hp|inversion Hc|inversion Ht]; reflexivity.
Qed.

Lemma extractTime_range_lower_witness :
  exists recipe,
    extractRecipeData `"Recipe: bake. Prep Time: 10 to 15 minutes" `"cake"
    = Ret (Some recipe) /\
    PrepTime (RDetails recipe) = `"10 minutes".
Proof.
  assert (Hr : exists recipe,
             extractRecipeData `"Recipe: bake. Prep Time: 10 to 15 minutes" `"cake"
             = Ret (Some recipe))
    by (vm_compute; eexists; reflexivity).
  destruct Hr as [recipe Hr]. exists recipe. split; [exact Hr|].
  assert (Hm : exists m,
             reExec true (timeRe prepHead)
                    (toLowerCase `"Recipe: bake. Prep Time: 10 to 15 minutes") = Some m /\
             group m 1 = Some `"10" /\ group m 2 = Some `"15" /\
             group m 3 = Some `"minutes")
    by (vm_compute; eexists; repeat split; reflexivity).
  destruct Hm as (m & Hm & H1 & H2 & H3).
  destruct (extractTime_range_lower _ _ recipe m _ _ _ Hr H1 H2 H3) as (Hp & _).
  apply Hp. exact Hm.
Defined.

(** *** A range of any two numbers *)

Lemma lit_ok (ic : bool) (q m r : str) (k : cont) (s e : mstate) :
  stripPrefix ic q (rest s) = Some (m, r) ->
  k (MState (rev m ++ consumed s) r (caps s)) = Some e ->
  rmatch ic (lit q) k s = Some e.
Proof. intros H1 H2. rewrite rmatch_lit, H1. exact H2. Qed.

Lemma opt_skip (ic : bool) (r : regex) (k : cont) (s e : mstate) :
  rmatch ic r k s = None -> k s = Some e -> rmatch ic (opt r) k s = Some e.
Proof. intros H1 H2. unfold opt. cbn [rmatch]. rewrite H1. exact H2. Qed.

Lemma opt_take (ic : bool) (r : regex) (k : cont) (s e : mstate) :
  rmatch ic r k s = Some e -> rmatch ic (opt r) k s = Some e.
Proof. intro H. unfold opt. cbn [rmatch]. rewrite H. reflexivity. Qed.

Lemma rmatch_cls (ic neg : bool) (items : list citem) (k : cont) (s : mstate) :
  rmatch ic (Cls neg items) k s =
  match rest s with
  | x :: xs => if clsMatches ic neg items x then k (step s x xs) else None
  | [] => None
  end.
Proof. reflexivity. Qed.

(** Greedy repetition of a class reads the whole run ahead when what
    follows the repetition accepts there. *)
Lemma star_ok (ic neg : bool) (items : list citem) (k : cont) :
  forall run fuel s tail e,
    rest s = run ++ tail ->
    forallb (clsMatches ic neg items) run = true ->
    match tail with
    | x :: _ => clsMatches ic neg items x = false
    | [] => True
    end ->
    length (rest s) < fuel ->
    k (MState (rev run ++ consumed s) tail (caps s)) = Some e ->
    starLoop (rmatch ic (Cls neg items)) true k fuel s = Some e.
Proof.
  induction run as [|d run IH]; intros fuel s tail e Hrest Hrun Htail Hfuel Hk;
    (destruct fuel as [|f]; [lia|]); destruct s as [c r cs];
    cbn [rest consumed caps app rev] in *; subst r;
    cbn [starLoop]; rewrite rmatch_cls; cbn [rest].
  - destruct tail as [|x tail]; [exact Hk|]. rewrite Htail. exact Hk.
  - apply andb_true_iff in Hrun. destruct Hrun as [Hd Hrun]. rewrite Hd.
    unfold step. cbn [rest consumed caps].
    replace (length (run ++ tail) <? length (d :: run ++ tail)) with true
      by (symmetry; apply Nat.ltb_lt; simpl; lia).
    rewrite (IH f (MState (d :: c) (run ++ tail) cs) tail e);
      [reflexivity|reflexivity|assumption|assumption| |].
    + cbn [rest]. simpl in Hfuel. lia.
    + cbn [consumed caps]. rewrite <- app_assoc in Hk. exact Hk.
Qed.

Lemma star_class_ok (ic neg : bool) (items : list citem) (k : cont)
    (run tail : str) (s e : mstate) :
  rest s = run ++ tail ->
  forallb (clsMatches ic neg items) run = true ->
  match tail with
  | x :: _ => clsMatches ic neg items x = false
  | [] => True
  end ->
  k (MState (rev run ++ consumed s) tail (caps s)) = Some e ->
  rmatch ic (Star true (Cls neg items)) k s = Some e.
Proof.
  intros. cbn [rmatch]. eapply star_ok; eauto.
Qed.

Lemma plus_class_ok (ic neg : bool) (items : list citem) (k : cont)
    (d : ascii) (run tail : str) (s e : mstate) :
  rest s = d :: run ++ tail ->
  forallb (clsMatches ic neg items) (d :: run) = true ->
  match tail with
  | x :: _ => clsMatches ic neg items x = false
  | [] => True
  end ->
  k (MState (rev (d :: run) ++ consumed s) tail (caps s)) = Some e ->
  rmatch ic (plus true (Cls neg items)) k s = Some e.
Proof.
  intros Hrest Hrun Htail Hk. unfold plus.
  change (rmatch ic (Seq (Cls neg items) (Star true (Cls neg items))) k s)
    with (rmatch ic (Cls neg items) (rmatch ic (Star true (Cls neg items)) k) s).
  rewrite rmatch_cls, Hrest. cbn [forallb] in Hrun.
  apply andb_true_iff in Hrun. destruct Hrun as [Hd Hrun]. rewrite Hd.
  apply (star_class_ok ic neg items k run tail); auto.
  unfold step. cbn [consumed caps]. rewrite rev_cons_app in Hk. exact Hk.
Qed.

Lemma digits_run (n : N) :
  exists d run, digitsOf n = d :: run /\
                forallb (clsMatches true false [CDigit]) (d :: run) = true.
Proof.
  pose proof (digitsOf_nonempty n) as Hne. pose proof (digitsOf_digits n) as Hd.
  destruct (digitsOf n) as [|d run]; [congruence|]. exists d, run. split; [reflexivity|].
  rewrite forallb_forall in *. intros x Hx. specialize (Hd x Hx).
  unfold clsMatches. cbn. rewrite Hd. reflexivity.
Qed.

Lemma digits_lower (n : N) : toLowerCase (digitsOf n) = digitsOf n.
Proof.
  pose proof (digitsOf_digits n) as Hd. induction (digitsOf n) as [|d run IH];
    [reflexivity|].
  cbn [forallb] in Hd. apply andb_true_iff in Hd. destruct Hd as [Hd Hrun].
  cbn [toLowerCase map]. fold (toLowerCase run). rewrite (IH Hrun). f_equal.
  revert Hd. clear. each_ascii d; vm_compute; congruence.
Qed.

Lemma rmatch_seq (ic : bool) (r1 r2 : regex) (k : cont) (s : mstate) :
  rmatch ic (Seq r1 r2) k s = rmatch ic r1 (rmatch ic r2 k) s.
Proof. reflexivity. Qed.

Lemma rmatch_grp (ic : bool) (i : nat) (r : regex) (k : cont) (s : mstate) :
  rmatch ic (Grp i r) k s =
  rmatch ic r
    (fun s' => k (setCap i (firstn (length (rest s) - length (rest s')) (rest s)) s')) s.
Proof. reflexivity. Qed.

Lemma firstn_exact (x t : str) : firstn (length (x ++ t) - length t) (x ++ t) = x.
Proof.
  rewrite length_app. replace (length x + length t - length t) with (length x) by lia.
  rewrite firstn_app, Nat.sub_diag, firstn_all. cbn [firstn]. apply app_nil_r.
Qed.

Lemma digit_not_space (d : ascii) :
  clsMatches true false [CDigit] d = true -> clsMatches true false [CSpace] d = false.
Proof. each_ascii d; vm_compute; congruence. Qed.

Ltac seq_step := rewrite rmatch_seq.
Ltac one_space tail' :=
  unfold ws; apply (plus_class_ok true false [CSpace] _ " "%char [] tail');
  [reflexivity|reflexivity|try reflexivity|].

Lemma chr_ok (ic : bool) (c x : ascii) (xs : str) (k : cont) (s e : mstate) :
  rest s = x :: xs -> ceq ic c x = true -> k (step s x xs) = Some e ->
  rmatch ic (Chr c) k s = Some e.
Proof. intros H1 H2 H3. cbn [rmatch]. rewrite H1, H2. exact H3. Qed.

Lemma timeRe_prep_range (bf : str) (a b : N) :
  exists e,
    matchAt true (timeRe prepHead) bf
      (`"prep time: " ++ digitsOf a ++ `" to " ++ digitsOf b ++ `" minutes") = Some e /\
    lookupCap 1 (caps e) = Some (digitsOf a) /\
    lookupCap 3 (caps e) = Some `"minutes".
Proof.
  destruct (digits_run a) as (d1 & r1 & Ea & Ha).
  destruct (digits_run b) as (d2 & r2 & Eb & Hb).
  rewrite Ea, Eb. clear Ea Eb.
  assert (Hs1 := digit_not_space d1 ltac:(cbn [forallb] in Ha; apply andb_true_iff in Ha; apply Ha)).
  assert (Hs2 := digit_not_space d2 ltac:(cbn [forallb] in Hb; apply andb_true_iff in Hb; apply Hb)).
  eexists. split.
  - unfold matchAt, timeRe. cbn [seqs]. unfold prepHead.
    seq_step. seq_step.
    eapply lit_ok; [reflexivity|]. cbn [rest consumed caps].
    apply opt_skip; [rewrite rmatch_lit; reflexivity|].
    seq_step. one_space (`"time: " ++ (d1 :: r1) ++ `" to " ++ (d2 :: r2) ++ `" minutes").
    cbn [rest consumed caps].
    seq_step. eapply lit_ok; [reflexivity|]. cbn [rest consumed caps].
    seq_step. apply opt_take. eapply chr_ok; [reflexivity|reflexivity|].
    unfold step. cbn [rest consumed caps].
    seq_step. unfold ws.
    apply (star_class_ok true false [CSpace] _ [" "%char]
             ((d1 :: r1) ++ `" to " ++ (d2 :: r2) ++ `" minutes"));
      [reflexivity|reflexivity|exact Hs1|].
    cbn [rest consumed caps].
    seq_step. rewrite rmatch_grp. unfold digit.
    apply (plus_class_ok true false [CDigit] _ d1 r1 (`" to " ++ (d2 :: r2) ++ `" minutes"));
      [reflexivity|exact Ha|reflexivity|].
    cbn beta. cbn [rest consumed caps]. rewrite firstn_exact.
    unfold setCap. cbn [rest consumed caps].
    seq_step. apply opt_take.
    seq_step. one_space (`"to " ++ (d2 :: r2) ++ `" minutes").
    cbn [rest consumed caps].
    seq_step. eapply lit_ok; [reflexivity|]. cbn [rest consumed caps].
    seq_step. one_space ((d2 :: r2) ++ `" minutes"); [exact Hs2|].
    cbn [rest consumed caps].
    rewrite rmatch_grp.
    apply (plus_class_ok true false [CDigit] _ d2 r2 (`" minutes"));
      [reflexivity|exact Hb|reflexivity|].
    cbn beta. cbn [rest consumed caps]. rewrite firstn_exact.
    unfold setCap. cbn [rest consumed caps].
    seq_step. one_space (`"minutes").
    cbn [rest consumed caps].
    rewrite rmatch_grp. cbn [rmatch]. rewrite rmatch_lit.
    cbn [rest consumed caps].
    change (stripPrefix true `"minutes" `"minutes") with (Some (`"minutes", @nil ascii)).
    cbn [orElse]. reflexivity.
  - split; reflexivity.
Qed.

(** A range written with any two numbers: the lower one is returned. *)
Lemma extractTime_prep_range (a b : N) :
  extractTime (`"prep time: " ++ digitsOf a ++ `" to " ++ digitsOf b ++ `" minutes")
              `"prep"
  = Ret (digitsOf a ++ `" minutes").
Proof.
  unfold extractTime. rewrite timeMatch_prep.
  assert (Hl : toLowerCase (`"prep time: " ++ digitsOf a ++ `" to " ++ digitsOf b ++ `" minutes")
               = `"prep time: " ++ digitsOf a ++ `" to " ++ digitsOf b ++ `" minutes").
  { unfold toLowerCase. rewrite !map_app. fold (toLowerCase (digitsOf a)).
    fold (toLowerCase (digitsOf b)). rewrite !digits_lower. reflexivity. }
  rewrite Hl. clear Hl.
  destruct (timeRe_prep_range [] a b) as (e & He & H1 & H3).
  unfold reExec.
  assert (Hs : searchFrom true (timeRe prepHead) []
                 (`"prep time: " ++ digitsOf a ++ `" to " ++ digitsOf b ++ `" minutes")
               = Some (mkMatch [] (`"prep time: " ++ digitsOf a ++ `" to " ++ digitsOf b ++ `" minutes") e)).
  { change (`"prep time: " ++ digitsOf a ++ `" to " ++ digitsOf b ++ `" minutes")
      with ("p"%char :: `"rep time: " ++ digitsOf a ++ `" to " ++ digitsOf b ++ `" minutes") in *.
    cbn [searchFrom]. rewrite He. reflexivity. }
  rewrite Hs. unfold group, mkMatch. cbn [m_caps]. rewrite H1, H3. reflexivity.
Qed.

(** ** The publication formatter *)

Lemma formatContentForWordPress_string (content : jsval) (text : str) :
  stringOrEmpty 0 content = Ret text ->
  formatContentForWordPress content = Ret (formatString text).
Proof.
  intro H. unfold formatContentForWordPress.
  replace (if negb (truthy content) || negb (isString content)
           then stringOrEmpty 0 content else toStr 0 content) with (Ret text).
  - reflexivity.
  - destruct (negb (truthy content) || negb (isString content)) eqn:E;
      [symmetry; exact H|].
    unfold stringOrEmpty in H. apply orb_false_iff in E. destruct E as [E _].
    apply negb_false_iff in E. rewrite E in H. symmetry. exact H.
Qed.

Lemma formatContentForWordPress_handler (content : jsval) (e : error) :
  stringOrEmpty 0 content = Throw e ->
  formatContentForWordPress content = stringOrEmpty 1 content.
Proof.
  intro H. unfold formatContentForWordPress.
  replace (if negb (truthy content) || negb (isString content)
           then stringOrEmpty 0 content else toStr 0 content) with (@Throw str e).
  - reflexivity.
  - destruct (negb (truthy content) || negb (isString content)) eqn:E;
      [symmetry; exact H|].
    unfold stringOrEmpty in H. apply orb_false_iff in E. destruct E as [E _].
    apply negb_false_iff in E. rewrite E in H. symmetry. exact H.
Qed.

Lemma stringOrEmpty_throws (k : nat) (content : jsval) (e : error) :
  stringOrEmpty k content = Throw e ->
  exists conversion, content = VObject conversion /\ conversion k = Throw e.
Proof.
  unfold stringOrEmpty. destruct content as [| |b|neg n|s|conversion]; cbn [truthy toStr].
  - discriminate.
  - discriminate.
  - destruct b; discriminate.
  - destruct (negb (n =? 0)%N); discriminate.
  - destruct (nonEmpty s); discriminate.
  - intro H. exists conversion. auto.
Qed.

(** C6 (amended). For every input that is [undefined], [null], a boolean,
    a string, an integer up to 2^53 - 1 in magnitude, or an object: when the
    conversion of the input to a string succeeds, the input is turned into a
    string, the empty one when it is falsy, and that string is formatted
    like any other; when the conversion throws, the handler converts the
    input as it was handed in once more and returns that text unchanged;
    and the formatter throws only for an object whose conversion throws both
    times.  So [toBlocks(42)] is the paragraph block around [42]. *)
Theorem formatContentForWordPress_returns (content : jsval) :
  exactValue content = true ->
  (forall text, stringOrEmpty 0 content = Ret text ->
     formatContentForWordPress content = Ret (formatString text)) /\
  (forall e, stringOrEmpty 0 content = Throw e ->
     formatContentForWordPress content = stringOrEmpty 1 content) /\
  (forall e, formatContentForWordPress content = Throw e ->
     exists conversion e0,
       content = VObject conversion /\ conversion 0 = Throw e0 /\
       conversion 1 = Throw e) /\
  formatContentForWordPress (VNumber false 42) =
    Ret `"<!-- wp:paragraph --><p>42</p><!-- /wp:paragraph -->".
Proof.
  intros _. split; [|split; [|split; [|reflexivity]]].
  - intros text H. apply formatContentForWordPress_string. exact H.
  - intros e H. apply (formatContentForWordPress_handler content e). exact H.
  - intros e H. destruct (stringOrEmpty 0 content) as [text|e0] eqn:E.
    + rewrite (formatContentForWordPress_string content text E) in H. discriminate.
    + rewrite (formatContentForWordPress_handler content e0 E) in H.
      apply stringOrEmpty_throws in E. destruct E as (conversion & -> & E).
      exists conversion, e0. split; [reflexivity|]. split; [exact E|exact H].
Qed.

Lemma formatContentForWordPress_returns_witness :
  formatContentForWordPress (VBool true) =
    Ret `"<!-- wp:paragraph --><p>true</p><!-- /wp:paragraph -->" /\
  formatContentForWordPress
    (VObject (fun k => match k with
                       | 0 => Throw (TypeError `"Cannot convert object to primitive value")
                       | _ => Ret `"<p>late</p>"
                       end))
  = Ret `"<p>late</p>".
Proof.
  split.
  - destruct (formatContentForWordPress_returns (VBool true) eq_refl) as [H _].
    exact (H `"true" eq_refl).
  - destruct (formatContentForWordPress_returns
                (VObject (fun k => match k with
                                   | 0 => Throw (TypeError
                                                   `"Cannot convert object to primitive value")
                                   | _ => Ret `"<p>late</p>"
                                   end)) eq_refl) as (_ & H & _).
    exact (H _ eq_refl).
Defined.

(** C6 as stated fails: [toBlocks(42)] is not the string [42], and an
    object whose conversion to a string throws each time makes the formatter
    throw, the handler of the [catch] converting it once more. *)
Lemma formatContentForWordPress_counterexample :
  formatContentForWordPress (VNumber false 42) <> Ret `"42" /\
  formatContentForWordPress
    (VObject (fun _ => Throw (TypeError `"Cannot convert object to primitive value")))
  = Throw (TypeError `"Cannot convert object to primitive value").
Proof. split; [discriminate|reflexivity]. Qed.

Lemma paragraphsOf_nonempty (content para : str) :
  In para (paragraphsOf content) -> para <> [].
Proof.
  unfold paragraphsOf. rewrite filter_In. intros [_ H] ->. discriminate.
Qed.

(** C10. Without tags the content is split into its non-empty paragraphs
    and each is wrapped by its prefix: [# ] and [## ] both give a level-2
    heading, [### ] a level-3 heading, anything else a paragraph block; the
    level-3 block comes from the [### ] prefix only. *)
Theorem formatParagraph_levels (content para : str) :
  (reTest true htmlTagRe content = false ->
   formatContentForWordPress (VString content) =
     Ret (join (nl ++ nl) (map formatParagraph (paragraphsOf content))) /\
   (In para (paragraphsOf content) -> para <> [])) /\
  (startsWith para `"# " = true ->
   formatParagraph para = h2Open ++ substringFrom para 2 ++ h2Close) /\
  (startsWith para `"## " = true ->
   formatParagraph para = h2Open ++ substringFrom para 3 ++ h2Close) /\
  (startsWith para `"### " = true ->
   formatParagraph para = h3Open ++ substringFrom para 4 ++ h3Close) /\
  (startsWith para `"# " = false -> startsWith para `"## " = false ->
   startsWith para `"### " = false ->
   formatParagraph para = pOpen ++ para ++ pClose) /\
  (startsWith (formatParagraph para) h3Open = true <-> startsWith para `"### " = true).
Proof.
  assert (H12 : startsWith para `"# " = true -> startsWith para `"## " = true -> False).
  { intros H1 H2. apply startsWith_split in H1, H2.
    destruct H1 as [b1 H1], H2 as [b2 H2]. rewrite H1 in H2. discriminate. }
  assert (H13 : startsWith para `"# " = true -> startsWith para `"### " = true -> False).
  { intros H1 H3. apply startsWith_split in H1, H3.
    destruct H1 as [b1 H1], H3 as [b3 H3]. rewrite H1 in H3. discriminate. }
  assert (H23 : startsWith para `"## " = true -> startsWith para `"### " = true -> False).
  { intros H2 H3. apply startsWith_split in H2, H3.
    destruct H2 as [b2 H2], H3 as [b3 H3]. rewrite H2 in H3. discriminate. }
  split; [|unfold formatParagraph;
           destruct (startsWith para `"# ") eqn:E1;
           destruct (startsWith para `"## ") eqn:E2;
           destruct (startsWith para `"### ") eqn:E3;
           try (exfalso; auto; fail);
           repeat split; intros; try discriminate;
           try apply startsWith_app; reflexivity].
  intro Htag. split; [|apply paragraphsOf_nonempty].
  rewrite (formatContentForWordPress_string (VString content) content).
  - unfold formatString. rewrite Htag. reflexivity.
  - unfold stringOrEmpty. destruct content; reflexivity.
Qed.

Lemma formatParagraph_levels_witness :
  formatParagraph `"# Title" = `"<!-- wp:heading --><h2>Title</h2><!-- /wp:heading -->" /\
  formatParagraph `"## Title" = `"<!-- wp:heading --><h2>Title</h2><!-- /wp:heading -->" /\
  formatParagraph `"### Title" = h3Open ++ `"Title" ++ h3Close /\
  formatParagraph `"#### Title" = `"<!-- wp:paragraph --><p>#### Title</p><!-- /wp:paragraph -->".
Proof.
  destruct (formatParagraph_levels [] `"# Title") as (_ & H1 & _).
  destruct (formatParagraph_levels [] `"## Title") as (_ & _ & H2 & _).
  destruct (formatParagraph_levels [] `"### Title") as (_ & _ & _ & H3 & _).
  destruct (formatParagraph_levels [] `"#### Title") as (_ & _ & _ & _ & H4 & _).
  split; [apply H1; reflexivity|].
  split; [apply H2; reflexivity|].
  split; [apply H3; reflexivity|apply H4; reflexivity].
Defined.

(** ** Article generation *)

Section GenerationProperties.

Variable JSON_parse : str -> option (list json).
Variable llm : nat -> ChatRequest -> js (option str).

Lemma allAnswered_nil : allAnswered llm [].
Proof. intros i request e H. destruct i; discriminate. Qed.

Lemma failFast_answered {A : Type} (a : A) (log : list ChatRequest) :
  failFast llm (Ret a, log) -> allAnswered llm log.
Proof.
  intros H i request e Hi He. destruct (H i request e Hi He) as [H1 _]. discriminate.
Qed.

Lemma answered_failFast {A : Type} (r : js A) (log : list ChatRequest) :
  allAnswered llm log -> failFast llm (r, log).
Proof. intros H i request e Hi He. exfalso. exact (H i request e Hi He). Qed.

Lemma failsFast_gret {A : Type} (a : A) : failsFast llm (gret a).
Proof. intros log H. apply answered_failFast. exact H. Qed.

Lemma failsFast_lift {A : Type} (m : js A) : failsFast llm (lift m).
Proof. intros log H. apply answered_failFast. exact H. Qed.

Lemma failsFast_createCompletion (request : ChatRequest) :
  failsFast llm (createCompletion llm request).
Proof.
  intros log H i req e Hi He. unfold createCompletion in *. cbn [fst snd] in *.
  destruct (Nat.lt_ge_cases i (length log)) as [Hlt|Hge].
  - rewrite nth_error_app1 in Hi by exact Hlt. exfalso. exact (H i req e Hi He).
  - rewrite nth_error_app2 in Hi by exact Hge.
    destruct (i - length log) as [|j] eqn:Ej; [|destruct j; discriminate].
    cbn in Hi. inversion Hi; subst req.
    assert (i = length log) by lia. subst i. split; [exact He|].
    rewrite length_app. simpl. lia.
Qed.

Lemma failsFast_gbind {A B : Type} (m : Gen A) (f : A -> Gen B) :
  failsFast llm m -> (forall a, failsFast llm (f a)) -> failsFast llm (gbind m f).
Proof.
  intros Hm Hf log Hlog. unfold gbind. specialize (Hm log Hlog).
  destruct (m log) as [[a|e] log1].
  - apply Hf. apply (failFast_answered a). exact Hm.
  - intros i request e' Hi He. destruct (Hm i request e' Hi He) as [H1 H2].
    cbn [fst snd] in *. split; [congruence|exact H2].
Qed.

Lemma failsFast_rethrow {A : Type} (m : Gen A) :
  failsFast llm m -> failsFast llm (rethrow m).
Proof.
  intros Hm log Hlog. unfold rethrow. specialize (Hm log Hlog).
  destruct (m log) as [[a|e] log1]; exact Hm.
Qed.

Ltac fail_fast :=
  repeat first
    [ apply failsFast_gbind; [|intro]
    | apply failsFast_createCompletion
    | apply failsFast_lift
    | apply failsFast_gret ].

Lemma failsFast_finishArticle config keyword ps content :
  failsFast llm (finishArticle JSON_parse llm config keyword ps content).
Proof. unfold finishArticle. cbv zeta. fail_fast. Qed.

Lemma failsFast_generateArticlePart config keyword wordCount template system ps format :
  failsFast llm
    (generateArticlePart JSON_parse llm config keyword wordCount template system ps format).
Proof. unfold generateArticlePart. cbv zeta. fail_fast. Qed.

Lemma failsFast_generateMultiPartArticle config keyword minWords ps :
  failsFast llm (generateMultiPartArticle JSON_parse llm config keyword minWords ps).
Proof.
  unfold generateMultiPartArticle. cbv zeta.
  repeat (apply failsFast_gbind; [apply failsFast_generateArticlePart|intro]).
  apply failsFast_gbind; [apply failsFast_lift|intro].
  apply failsFast_finishArticle.
Qed.

Lemma failsFast_generateArticleContent config keyword minWords ps :
  failsFast llm (generateArticleContent JSON_parse llm config keyword minWords ps).
Proof.
  unfold generateArticleContent. apply failsFast_rethrow.
  destruct ps as [ps|].
  - destruct (useMultiPartGeneration ps).
    + apply failsFast_generateMultiPartArticle.
    + cbv zeta. apply failsFast_gbind; [apply failsFast_createCompletion|intro].
      apply failsFast_gbind; [apply failsFast_lift|intro].
      apply failsFast_finishArticle.
  - apply failsFast_gbind; [apply failsFast_createCompletion|intro].
    apply failsFast_finishArticle.
Qed.

(** C5. When a chat-completion call of a generation fails, single-pass or
    multi-part, the generation rejects with the error of that call, the
    failed call is the last one made (no further call, no retry), and no
    article is returned. *)
Theorem generateArticleContent_fail_fast config keyword minWords ps
    (i : nat) (request : ChatRequest) (e : error) :
  let outcome := generateArticleContent JSON_parse llm config keyword minWords ps [] in
  nth_error (snd outcome) i = Some request ->
  llm i request = Throw e ->
  fst outcome = Throw e /\ length (snd outcome) = S i /\
  (forall article, fst outcome <> Ret article).
Proof.
  intros outcome Hi He. unfold outcome in *. clear outcome.
  destruct (failsFast_generateArticleContent config keyword minWords ps []
              allAnswered_nil i request e Hi He) as [H1 H2].
  split; [exact H1|]. split; [exact H2|]. intros article H. rewrite H in H1. discriminate.
Qed.

Lemma gbind_ret {A B : Type} (m : Gen A) (f : A -> Gen B) log b log' :
  gbind m f log = (Ret b, log') ->
  exists a log1, m log = (Ret a, log1) /\ f a log1 = (Ret b, log').
Proof.
  unfold gbind. destruct (m log) as [[a|e] log1]; [|discriminate].
  intro H. exists a, log1. auto.
Qed.

Lemma finishArticle_counts config keyword ps text log article log' :
  finishArticle JSON_parse llm config keyword ps text log = (Ret article, log') ->
  text = Some (content article) /\ wordCount article = countWords (content article).
Proof.
  unfold finishArticle. cbv zeta. intro H.
  apply gbind_ret in H. destruct H as (t0 & l0 & _ & H).
  apply gbind_ret in H. destruct H as (t1 & l1 & _ & H).
  apply gbind_ret in H. destruct H as (t2 & l2 & Ht & H).
  apply gbind_ret in H. destruct H as (r & l3 & _ & H).
  unfold gret in H. inversion H. cbn [content wordCount].
  unfold lift in Ht. destruct text as [t|]; [|discriminate].
  inversion Ht. auto.
Qed.

Lemma generated_counts config keyword minWords ps log article log' :
  generateArticleContent JSON_parse llm config keyword minWords ps log
  = (Ret article, log') ->
  wordCount article = countWords (content article).
Proof.
  unfold generateArticleContent, rethrow. intro H.
  match type of H with
  | (match ?m log with _ => _ end) = _ =>
      destruct (m log) as [[a|e] l] eqn:E; [|discriminate]
  end.
  inversion H; subst a l. clear H.
  assert (Hfin : forall ps' text l0,
            finishArticle JSON_parse llm config keyword ps' text l0 = (Ret article, log') ->
            wordCount article = countWords (content article)).
  { intros ps' text l0 Hf. apply finishArticle_counts in Hf.
    destruct Hf as [_ Hf]. exact Hf. }
  destruct ps as [ps|].
  - destruct (useMultiPartGeneration ps).
    + unfold generateMultiPartArticle in E. cbv zeta in E.
      do 4 (apply gbind_ret in E; destruct E as (? & ? & _ & E)).
      eapply Hfin. exact E.
    + cbv zeta in E.
      do 2 (apply gbind_ret in E; destruct E as (? & ? & _ & E)).
      eapply Hfin. exact E.
  - apply gbind_ret in E. destruct E as (? & ? & _ & E). eapply Hfin. exact E.
Qed.

End GenerationProperties.

Lemma generateArticleContent_fail_fast_witness :
  let config := MkOpenAIConfig `"key" `"gpt-4" 70 4000 in
  let llm := fun (n : nat) (_ : ChatRequest) =>
               match n with
               | 1 => Throw (ApiError `"429 rate limit")
               | _ => Ret (Some `"<p>Some text</p>")
               end in
  let multi := MkPromptSettings true [] [] [] [] [] [] [] [] false false [] in
  let single := generateArticleContent (fun _ => None) llm config `"tea" 800 None [] in
  let parts := generateArticleContent (fun _ => None) llm config `"tea" 800 (Some multi) [] in
  (fst single = Throw (ApiError `"429 rate limit") /\ length (snd single) = 2) /\
  (fst parts = Throw (ApiError `"429 rate limit") /\ length (snd parts) = 2).
Proof.
  intros config llm multi single parts. split.
  - assert (Hr : exists request, nth_error (snd single) 1 = Some request)
      by (vm_compute; eexists; reflexivity).
    destruct Hr as [request Hr].
    destruct (generateArticleContent_fail_fast (fun _ => None) llm config `"tea" 800 None
                1 request (ApiError `"429 rate limit") Hr eq_refl) as (H1 & H2 & _).
    split; [exact H1|exact H2].
  - assert (Hr : exists request, nth_error (snd parts) 1 = Some request)
      by (vm_compute; eexists; reflexivity).
    destruct Hr as [request Hr].
    destruct (generateArticleContent_fail_fast (fun _ => None) llm config `"tea" 800
                (Some multi) 1 request (ApiError `"429 rate limit") Hr eq_refl)
      as (H1 & H2 & _).
    split; [exact H1|exact H2].
Defined.

(** C7. The word count of a generated article is that of its final
    content: the number of non-empty pieces of the content split at white
    space, that is the number of maximal runs without white space; tags are
    counted with the text, so [<p>Hello world</p>] has 2 words. *)
Theorem wordCount_of_article JSON_parse llm config keyword minWords ps
    (log log' : list ChatRequest) (article : Article) :
  generateArticleContent JSON_parse llm config keyword minWords ps log
  = (Ret article, log') ->
  wordCount article
  = length (filter nonEmpty (reSplit false (plus true ws) (content article))) /\
  wordCount article = countTokens false (content article) /\
  countWords `"<p>Hello world</p>" = 2.
Proof.
  intro H. apply generated_counts in H. rewrite H.
  split; [reflexivity|]. split; [apply countWords_tokens|reflexivity].
Qed.

Lemma wordCount_of_article_witness :
  exists article log,
    generateArticleContent (fun _ => None)
      (fun n _ => match n with
                  | 0 => Ret (Some `"<p>Hello world</p>")
                  | _ => Ret (Some `"A title")
                  end)
      (MkOpenAIConfig `"key" `"gpt-4" 70 4000) `"greeting" 800 None []
    = (Ret article, log) /\
    content article = `"<p>Hello world</p>" /\ wordCount article = 2.
Proof.
  assert (Hrun : exists article log,
    generateArticleContent (fun _ => None)
      (fun n _ => match n with
                  | 0 => Ret (Some `"<p>Hello world</p>")
                  | _ => Ret (Some `"A title")
                  end)
      (MkOpenAIConfig `"key" `"gpt-4" 70 4000) `"greeting" 800 None []
    = (Ret article, log) /\ content article = `"<p>Hello world</p>")
    by (vm_compute; eexists; eexists; split; reflexivity).
  destruct Hrun as (article & log & Hrun & Hc).
  exists article, log. split; [exact Hrun|]. split; [exact Hc|].
  destruct (wordCount_of_article _ _ _ _ _ _ _ _ _ Hrun) as (_ & H & _).
  rewrite H, Hc. reflexivity.
Defined.

(** ** The term suppressor *)

Lemma mapM_ret {A B : Type} (f : A -> js B) :
  forall l l', mapM f l = Ret l' -> forall y, In y l' -> exists x, In x l /\ f x = Ret y.
Proof.
  induction l as [|a l IH]; intros l' H y Hy; cbn [mapM] in H.
  - inversion H; subst. destruct Hy.
  - unfold bind in H. destruct (f a) as [b|e] eqn:Ea; [|discriminate].
    destruct (mapM f l) as [bs|e] eqn:El; [|discriminate].
    inversion H; subst. destruct Hy as [<-|Hy].
    + exists a. split; [left; reflexivity|exact Ea].
    + destruct (IH bs eq_refl y Hy) as (x & Hx & Hfx). exists x. split; [right|]; assumption.
Qed.

(** The terms of a specification are not empty and in lower case. *)
Lemma avoidTermsOf_terms JSON_parse (spec : str) (terms : list str) :
  avoidTermsOf JSON_parse spec = Ret terms ->
  forall t, In t terms -> t <> [] /\ toLowerCase t = t.
Proof.
  unfold avoidTermsOf. intros H t Ht. unfold bind in H.
  match type of H with
  | match mapM ?f ?l with _ => _ end = _ =>
      destruct (mapM f l) as [cleaned|e] eqn:E; [|discriminate];
      pose proof (mapM_ret f l cleaned E) as Hc
  end.
  inversion H; subst terms. apply filter_In in Ht. destruct Ht as [Hin Hne].
  split; [intro; subst t; discriminate|].
  destruct (Hc t Hin) as (x & _ & Hx). destruct x as [s|]; [|discriminate].
  inversion Hx. apply toLowerCase_idem.
Qed.

(** C3 (amended). Suppression is idempotent for every text and every
    specification whose terms have no square bracket and do not include the
    word [alternative]. *)
Theorem removeProhibitedContent_idempotent JSON_parse (text spec : str)
    (terms : list str) :
  avoidTermsOf JSON_parse spec = Ret terms ->
  (forall t, In t terms -> avoids `"[]" t = true) ->
  ~ In `"alternative" terms ->
  exists once,
    removeProhibitedContent JSON_parse text spec = Ret once /\
    removeProhibitedContent JSON_parse once spec = Ret once.
Proof.
  intros Hterms Hav Hno. unfold removeProhibitedContent. rewrite Hterms. cbn [bind].
  eexists. split; [reflexivity|]. f_equal. apply replaceTerms_idempotent.
  intros t Ht. destruct (avoidTermsOf_terms _ _ _ Hterms t Ht) as [Hne Hlow].
  split; [exact Hne|]. split; [apply Hav; exact Ht|].
  rewrite Hlow. intro. subst t. apply Hno. exact Ht.
Qed.

Lemma removeProhibitedContent_idempotent_witness :
  removeProhibitedContent (fun _ => None)
    `"I like [alternative] and [alternative]" `"foo, bar baz"
  = Ret `"I like [alternative] and [alternative]".
Proof.
  destruct (removeProhibitedContent_idempotent (fun _ => None)
              `"I like FOO and Bar Baz" `"foo, bar baz" [`"foo"; `"bar baz"] eq_refl)
    as (once & H1 & H2).
  - intros t [<-|[<-|[]]]; reflexivity.
  - intros [H|[H|[]]]; discriminate.
  - vm_compute in H1. inversion H1; subst once. exact H2.
Defined.

(** C3 as stated fails: the term []] is not the word [alternative], and a
    second pass finds it in the text the first pass put in. *)
Lemma removeProhibitedContent_idempotent_counterexample :
  avoidTermsOf (fun _ => None) `"]" = Ret [`"]"] /\
  ~ In `"alternative" [`"]"] /\
  removeProhibitedContent (fun _ => None) `"a]b" `"]" = Ret `"a[alternative]b" /\
  removeProhibitedContent (fun _ => None) `"a[alternative]b" `"]"
  = Ret `"a[alternative[alternative]b" /\
  `"a[alternative[alternative]b" <> `"a[alternative]b".
Proof.
  split; [reflexivity|]. split; [intros [H|[]]; discriminate|].
  split; [reflexivity|]. split; [reflexivity|discriminate].
Qed.

(** C2. The specification made of foo, the quoted bar baz, and qux is
    parsed into exactly the terms [foo], [bar baz] and [qux].  Whatever the
    text, the result has no whole-word occurrence of [foo] or of [bar baz]
    up to case; it comes from the text by putting [[alternative]] for text
    equal up to case to a term, one term after the other; and a text
    without a whole-word occurrence of a term is returned as it is. *)
Theorem removeProhibitedContent_example JSON_parse (text : str) :
  let spec := `"foo, " ++ dq ++ `"bar baz" ++ dq ++ `", qux" in
  parseAvoidTerms spec = [`"foo"; `"bar baz"; `"qux"] /\
  avoidTermsOf JSON_parse spec = Ret [`"foo"; `"bar baz"; `"qux"] /\
  (exists result,
     removeProhibitedContent JSON_parse text spec = Ret result /\
     ~ wordOccurs `"foo" result /\ ~ wordOccurs `"bar baz" result /\
     (exists step1 step2,
        Suppressed [`"foo"] text step1 /\ Suppressed [`"bar baz"] step1 step2 /\
        Suppressed [`"qux"] step2 result) /\
     (~ wordOccurs `"foo" text -> ~ wordOccurs `"bar baz" text ->
      ~ wordOccurs `"qux" text -> result = text)) /\
  removeProhibitedContent JSON_parse `"I like FOO and Bar Baz" spec
  = Ret `"I like [alternative] and [alternative]".
Proof.
  intro spec.
  assert (Hterms : avoidTermsOf JSON_parse spec = Ret [`"foo"; `"bar baz"; `"qux"])
    by reflexivity.
  split; [reflexivity|]. split; [exact Hterms|]. split.
  - unfold removeProhibitedContent. rewrite Hterms. cbn [bind]. eexists.
    split; [reflexivity|].
    assert (Hplain : forall t, In t [`"foo"; `"bar baz"; `"qux"] -> plainTerm t).
    { intros t [<-|[<-|[<-|[]]]]; repeat split; discriminate. }
    split; [|split; [|split]].
    + apply not_occursFrom_wordOccurs. apply replaceTerms_clean; [exact Hplain|].
      left. reflexivity.
    + apply not_occursFrom_wordOccurs. apply replaceTerms_clean; [exact Hplain|].
      right. left. reflexivity.
    + eexists. eexists. unfold replaceTerms. cbn [fold_left].
      split; [|split]; apply suppress_suppressed; discriminate.
    + intros H1 H2 H3. apply replaceTerms_stable.
      intros t [<-|[<-|[<-|[]]]]; (split; [discriminate|]);
        match goal with
        | |- occursFrom true true ?t [] text = false =>
            destruct (occursFrom true true t [] text) eqn:E; [|reflexivity];
            apply wordOccurs_occursFrom in E; contradiction
        end.
  - unfold removeProhibitedContent. rewrite Hterms. reflexivity.
Qed.

(** ** The prompt variables *)

(** C4 (amended). For every template, every number of words that is a
    non-negative integer up to 2^53 - 1, which is printed with all its
    digits, and every keyword that has no dollar sign and no brace and is
    not a part of the word [keyword], the result is the template with every
    [{keyword}] and then every [{minWords}] replaced by the value as it is,
    and it contains neither token. *)
Theorem applyPromptVariables_substitutes (template keyword : str) (minWords : N) :
  (minWords <= maxSafeInteger)%N ->
  avoids `"${}" keyword = true ->
  includes `"keyword" keyword = false ->
  applyPromptVariables template keyword minWords
  = substituteAll `"{minWords}" (digitsOf minWords)
      (substituteAll `"{keyword}" keyword template) /\
  includes (applyPromptVariables template keyword minWords) `"{keyword}" = false /\
  includes (applyPromptVariables template keyword minWords) `"{minWords}" = false.
Proof.
  intros _ Hav Hpart. rewrite applyPromptVariables_steps. split; [|split].
  - rewrite !replaceAll_substitute; try discriminate; [reflexivity| |].
    + apply (avoids_weaken `"${}"); [|exact Hav].
      intros c Hc. simpl in Hc |- *. rewrite orb_false_r in Hc. rewrite Hc. reflexivity.
    + apply digits_avoid. reflexivity.
  - apply minWords_keeps_keyword_absent. apply keyword_cleared; assumption.
  - apply minWords_cleared.
Qed.

Lemma applyPromptVariables_substitutes_witness :
  applyPromptVariables `"Write {minWords} words on {keyword}; {keyword} again."
                       `"banana bread" 800
  = `"Write 800 words on banana bread; banana bread again.".
Proof.
  assert (Hsafe : (800 <= maxSafeInteger)%N) by (vm_compute; discriminate).
  destruct (applyPromptVariables_substitutes
              `"Write {minWords} words on {keyword}; {keyword} again."
              `"banana bread" 800 Hsafe eq_refl eq_refl) as (H & _).
  rewrite H. reflexivity.
Defined.

(** C4 as stated fails: a keyword that is itself the token stays in the
    result; a keyword with a dollar form is not inserted as it is; and a
    keyword that is a part of [keyword] can complete a token. *)
Lemma applyPromptVariables_substitutes_counterexample :
  includes (applyPromptVariables `"{keyword}" `"{keyword}" 100) `"{keyword}" = true /\
  applyPromptVariables `"About {keyword}" `"$&" 100 = `"About {keyword}" /\
  includes (applyPromptVariables `"{key{keyword}rd}" `"wo" 100) `"{keyword}" = true.
Proof. repeat split. Qed.

(** ** The term suppressor, for every specification *)

Lemma terms_plain JSON_parse (spec : str) (terms : list str) :
  avoidTermsOf JSON_parse spec = Ret terms ->
  (forall t, In t terms -> avoids `"[]" t = true) ->
  ~ In `"alternative" terms ->
  forall t, In t terms -> plainTerm t.
Proof.
  intros Hterms Hav Hno t Ht.
  destruct (avoidTermsOf_terms _ _ _ Hterms t Ht) as [Hne Hlow].
  split; [exact Hne|]. split; [apply Hav; exact Ht|].
  rewrite Hlow. intro. subst t. apply Hno. exact Ht.
Qed.

(** X1. Whatever the text, once the terms of a specification have been
    replaced none of them is left as a whole word, up to case, provided no
    term has a square bracket and none is the word [alternative]. *)
Theorem removeProhibitedContent_clears JSON_parse (text spec : str)
    (terms : list str) :
  avoidTermsOf JSON_parse spec = Ret terms ->
  (forall t, In t terms -> avoids `"[]" t = true) ->
  ~ In `"alternative" terms ->
  exists result,
    removeProhibitedContent JSON_parse text spec = Ret result /\
    forall t, In t terms -> ~ wordOccurs t result.
Proof.
  intros Hterms Hav Hno. unfold removeProhibitedContent. rewrite Hterms. cbn [bind].
  eexists. split; [reflexivity|]. intros t Ht.
  apply not_occursFrom_wordOccurs. apply replaceTerms_clean; [|exact Ht].
  exact (terms_plain _ _ _ Hterms Hav Hno).
Qed.

Lemma removeProhibitedContent_clears_witness :
  exists result,
    removeProhibitedContent (fun _ => None) `"Buy CHEAP pills, cheap!" `"cheap, 'pills'"
    = Ret result /\
    forall t, In t [`"cheap"; `"pills"] -> ~ wordOccurs t result.
Proof.
  apply (removeProhibitedContent_clears (fun _ => None) `"Buy CHEAP pills, cheap!"
           `"cheap, 'pills'" [`"cheap"; `"pills"] eq_refl).
  - intros t [<-|[<-|[]]]; reflexivity.
  - intros [H|[H|[]]]; discriminate.
Defined.

(** X2. A text in which no term of the specification occurs as a whole
    word, up to case, is returned as it is. *)
Theorem removeProhibitedContent_unchanged JSON_parse (text spec : str)
    (terms : list str) :
  avoidTermsOf JSON_parse spec = Ret terms ->
  (forall t, In t terms -> ~ wordOccurs t text) ->
  removeProhibitedContent JSON_parse text spec = Ret text.
Proof.
  intros Hterms Hno. unfold removeProhibitedContent. rewrite Hterms. cbn [bind].
  f_equal. apply replaceTerms_stable. intros t Ht. split.
  - apply (avoidTermsOf_terms _ _ _ Hterms t Ht).
  - destruct (occursFrom true true t [] text) eqn:E; [|reflexivity].
    exfalso. apply (Hno t Ht). apply wordOccurs_occursFrom. exact E.
Qed.

Lemma removeProhibitedContent_unchanged_witness :
  removeProhibitedContent (fun _ => None) `"A footnote on barns" `"foo, bar"
  = Ret `"A footnote on barns".
Proof.
  apply (removeProhibitedContent_unchanged (fun _ => None) `"A footnote on barns"
           `"foo, bar" [`"foo"; `"bar"] eq_refl).
  intros t [<-|[<-|[]]]; intro H; apply wordOccurs_occursFrom in H; discriminate.
Defined.

(** X3. [escapeRegExp] puts a backslash before each of the characters
    [. * + ? ^ $ { } ( ) | [ ] \] and copies every other one, and the
    pattern made from the result reads the term itself and nothing else:
    without [i] it matches where the text starts with the term, with [i]
    where the text starts with a segment equal to the term up to case. *)
Theorem escapeRegExp_literal (term before after : str) :
  escapeRegExp term = flat_map escapeChar term /\
  isSome (matchAt false (newRegExp (escapeRegExp term)) before after)
  = startsWith after term /\
  (isSome (matchAt true (newRegExp (escapeRegExp term)) before after) = true <->
   exists m r, after = m ++ r /\ ciEqual m term).
Proof.
  assert (Hm : forall ic,
            matchAt ic (newRegExp (escapeRegExp term)) before after =
            match stripPrefix ic term after with
            | Some (m, r) => Some (MState (rev m ++ before) r [])
            | None => None
            end).
  { intro ic. unfold matchAt. rewrite escapeRegExp_chars.
    rewrite <- (app_nil_r (flat_map escapeChar term)).
    rewrite newRegExp_escaped, rmatch_lit. cbn [rest consumed caps newRegExp rmatch].
    destruct (stripPrefix ic term after) as [[m r]|]; reflexivity. }
  split; [apply escapeRegExp_chars|]. split.
  - rewrite Hm, <- startsWith_strip.
    destruct (stripPrefix false term after) as [[m r]|]; reflexivity.
  - rewrite Hm. split.
    + destruct (stripPrefix true term after) as [[m r]|] eqn:E; [|discriminate].
      intros _. exists m, r. split.
      * apply (stripPrefix_app _ _ _ _ _ E).
      * apply (stripPrefix_ci _ _ _ _ E).
    + intros (m & r & -> & Hci). rewrite (stripPrefix_of_ci term r m Hci). reflexivity.
Qed.

(** ** The requests of a generation *)

Lemma countTokens_sep (a b : str) (c : ascii) :
  isSpace c = true ->
  forall inWord, countTokens inWord (a ++ c :: b) = countTokens inWord a + countTokens false b.
Proof.
  intro Hc. induction a as [|x a IH]; intro inWord; cbn [app countTokens].
  - rewrite Hc. reflexivity.
  - destruct (isSpace x); rewrite IH; lia.
Qed.

Lemma countTokens_blank (a b : str) (inWord : bool) :
  countTokens inWord (a ++ nl ++ nl ++ b) = countTokens inWord a + countTokens false b.
Proof.
  unfold nl. cbn [app]. rewrite (countTokens_sep a _ (chr 10) eq_refl).
  reflexivity.
Qed.

Lemma replaceFrom_chr (c : ascii) (s : str) :
  forall bf,
    replaceFrom false (Chr c) (fun m => getSubstitution 0 m []) bf s 0
    = filter (fun x => negb (Ascii.eqb c x)) s.
Proof.
  induction s as [|x s IH]; intro bf; [reflexivity|].
  cbn [replaceFrom filter]. unfold matchAt. cbn [rmatch rest ceq].
  destruct (Ascii.eqb c x); cbn [negb].
  - unfold step. cbn [rest length getSubstitution app]. rewrite succ_sub. apply IH.
  - rewrite IH. reflexivity.
Qed.

(** The clean-up of the title removes every double quote. *)
Lemma quotes_removed (s : str) : ~ In (chr 34) (replaceAll false quoteRe [] s).
Proof.
  unfold replaceAll, quoteRe. cbn [groupCount]. rewrite replaceFrom_chr.
  intro H. apply filter_In in H. destruct H as [_ H].
  rewrite Ascii.eqb_refl in H. discriminate.
Qed.

Lemma Suppressed_chars (terms : list str) (s o : str) :
  Suppressed terms s o -> forall c, In c o -> In c s \/ In c alternative.
Proof.
  induction 1 as [|x s o _ IH|t m s o _ _ _ IH]; intros c Hc.
  - destruct Hc.
  - destruct Hc as [<-|Hc]; [left; left; reflexivity|].
    destruct (IH c Hc); [left; right; assumption|right; assumption].
  - apply in_app_or in Hc. destruct Hc as [Hc|Hc]; [right; exact Hc|].
    destruct (IH c Hc); [left; apply in_or_app; right; assumption|right; assumption].
Qed.

Lemma replaceTerms_chars (terms : list str) :
  (forall t, In t terms -> t <> []) ->
  forall s c, In c (replaceTerms terms s) -> In c s \/ In c alternative.
Proof.
  induction terms as [|t terms IH]; intros Hne s c Hc; [left; exact Hc|].
  unfold replaceTerms in Hc. cbn [fold_left] in Hc. fold (replaceTerms terms) in Hc.
  apply IH in Hc; [|intros u Hu; apply Hne; right; exact Hu].
  destruct Hc as [Hc|Hc]; [|right; exact Hc].
  apply (Suppressed_chars [t] s _ (suppress_suppressed t s (Hne t (or_introl eq_refl)))).
  exact Hc.
Qed.

Section GenerationRequests.

Variable JSON_parse : str -> option (list json).
Variable llm : nat -> ChatRequest -> js (option str).

Lemma lift_ret {A : Type} (m : js A) (log log' : list ChatRequest) (a : A) :
  lift m log = (Ret a, log') -> m = Ret a /\ log' = log.
Proof. unfold lift. intro H. inversion H. auto. Qed.

Lemma createCompletion_ret (request : ChatRequest) (log log' : list ChatRequest)
    (answer : option str) :
  createCompletion llm request log = (Ret answer, log') ->
  llm (length log) request = Ret answer /\ log' = log ++ [request].
Proof. unfold createCompletion. intro H. inversion H. auto. Qed.

(** The title request of a generation. *)
Lemma finishArticle_run config keyword ps text log article log' :
  finishArticle JSON_parse llm config keyword ps text log = (Ret article, log') ->
  exists request answer,
    log' = log ++ [request] /\
    llm (length log) request = Ret (Some answer) /\
    req_model request = model config /\
    req_system request = titleSystem /\
    startsWith (req_user request) (titlePromptFor keyword) = true /\
    req_temperature request = temperature config /\
    req_max_tokens request = 50%N /\
    suppress JSON_parse ps (replaceAll false quoteRe [] answer) = Ret (title article) /\
    text = Some (content article) /\
    match ps with
    | Some s => if enableRecipeDetection s
                then extractRecipeData (content article) keyword = Ret (recipeData article)
                else recipeData article = None
    | None => recipeData article = None
    end.
Proof.
  unfold finishArticle. cbv zeta. intro H.
  apply gbind_ret in H. destruct H as (answer & l0 & Hc & H).
  apply createCompletion_ret in Hc. destruct Hc as [Hc ->].
  apply gbind_ret in H. destruct H as (t1 & l1 & Ht & H).
  apply lift_ret in Ht. destruct Ht as [Ht ->].
  destruct answer as [answer|]; [|discriminate].
  apply gbind_ret in H. destruct H as (t2 & l2 & Hx & H).
  apply lift_ret in Hx. destruct Hx as [Hx ->].
  destruct text as [text|]; [|discriminate].
  assert (t2 = text) by (inversion Hx; reflexivity). subst t2. clear Hx.
  apply gbind_ret in H. destruct H as (r & l2 & Hr & H).
  apply lift_ret in Hr. destruct Hr as [Hr ->].
  unfold gret in H. inversion H; subst article log'. clear H.
  cbn [content wordCount title recipeData].
  eexists. exists answer. split; [reflexivity|]. split; [exact Hc|].
  cbn [req_model req_system req_user req_temperature req_max_tokens].
  split; [reflexivity|]. split; [reflexivity|]. split; [apply startsWith_app|].
  split; [reflexivity|]. split; [reflexivity|]. split; [exact Ht|].
  split; [reflexivity|].
  destruct ps as [s|]; [destruct (enableRecipeDetection s)|]; try exact Hr;
    inversion Hr; reflexivity.
Qed.

Lemma generateArticlePart_run config keyword wc template system ps format
    log part log' :
  generateArticlePart JSON_parse llm config keyword wc template system ps format log
  = (Ret part, log') ->
  exists request answer,
    log' = log ++ [request] /\
    llm (length log) request = Ret answer /\
    req_model request = model config /\
    req_system request = system /\
    startsWith (req_user request) (applyPromptVariables template keyword wc) = true /\
    req_temperature request = temperature config /\
    req_max_tokens request = N.min 2000 (maxTokens config) /\
    suppressContent JSON_parse (Some ps) answer = Ret part.
Proof.
  unfold generateArticlePart. cbv zeta. intro H.
  apply gbind_ret in H. destruct H as (answer & l0 & Hc & H).
  apply createCompletion_ret in Hc. destruct Hc as [Hc ->].
  apply lift_ret in H. destruct H as [H ->].
  eexists. exists answer. split; [reflexivity|]. split; [exact Hc|].
  cbn [req_model req_system req_user req_temperature req_max_tokens].
  split; [reflexivity|]. split; [reflexivity|].
  split; [|split; [reflexivity|split; [reflexivity|exact H]]].
  set (p0 := applyPromptVariables template keyword wc).
  assert (Hgrow : forall b c : str, (exists x, b = p0 ++ x) -> exists x, b ++ c = p0 ++ x).
  { intros b c [x ->]. exists (x ++ c). rewrite app_assoc. reflexivity. }
  match goal with
  | |- startsWith ?u p0 = true =>
      assert (Hu : exists x, u = p0 ++ x)
  end.
  { repeat match goal with
           | |- exists x, (if ?b then _ else _) = _ => destruct b
           | |- exists x, _ ++ _ = p0 ++ x => apply Hgrow
           | |- exists x, p0 = p0 ++ x => exists []; symmetry; apply app_nil_r
           end. }
  destruct Hu as [x ->]. apply startsWith_app.
Qed.

Lemma rethrow_ret {A : Type} (m : Gen A) (log log' : list ChatRequest) (a : A) :
  rethrow m log = (Ret a, log') -> m log = (Ret a, log').
Proof.
  unfold rethrow. destruct (m log) as [[x|e] l]; intro H; inversion H; reflexivity.
Qed.

Lemma systemMessage_base (ps : PromptSettings) :
  startsWith (if nonEmpty (toneVoice ps) then systemBase ++ toneDirective (toneVoice ps)
              else systemBase) systemBase = true.
Proof.
  destruct (nonEmpty (toneVoice ps)); [apply startsWith_app|].
  rewrite <- (app_nil_r systemBase) at 1. apply startsWith_app.
Qed.

(** The run of a successful multi-part generation: three part requests
    and the title request, each answered. *)
Lemma generateMultiPartArticle_run config keyword minWords ps log article log' :
  generateMultiPartArticle JSON_parse llm config keyword minWords ps log
  = (Ret article, log') ->
  exists r1 r2 r3 rt a1 a2 a3 p1 p2 p3,
    log' = log ++ [r1; r2; r3; rt] /\
    llm (length log) r1 = Ret a1 /\ llm (S (length log)) r2 = Ret a2 /\
    llm (S (S (length log))) r3 = Ret a3 /\
    suppressContent JSON_parse (Some ps) a1 = Ret p1 /\
    suppressContent JSON_parse (Some ps) a2 = Ret p2 /\
    suppressContent JSON_parse (Some ps) a3 = Ret p3 /\
    suppress JSON_parse (Some ps)
      (interpolate p1 ++ nl ++ nl ++ interpolate p2 ++ nl ++ nl ++ interpolate p3)
    = Ret (content article) /\
    (forall r, In r [r1; r2; r3] ->
       req_model r = model config /\ req_temperature r = temperature config /\
       req_max_tokens r = N.min 2000 (maxTokens config) /\
       startsWith (req_system r) systemBase = true) /\
    req_model rt = model config /\ req_system rt = titleSystem /\
    req_temperature rt = temperature config /\ req_max_tokens rt = 50%N /\
    finishArticle JSON_parse llm config keyword (Some ps) (Some (content article))
                  (log ++ [r1; r2; r3]) = (Ret article, log').
Proof.
  unfold generateMultiPartArticle. cbv zeta. intro H.
  apply gbind_ret in H. destruct H as (p1 & l1 & H1 & H).
  apply gbind_ret in H. destruct H as (p2 & l2 & H2 & H).
  apply gbind_ret in H. destruct H as (p3 & l3 & H3 & H).
  apply gbind_ret in H. destruct H as (text & l4 & H4 & H).
  apply lift_ret in H4. destruct H4 as [H4 ->].
  apply generateArticlePart_run in H1.
  destruct H1 as (r1 & a1 & -> & L1 & M1 & S1 & _ & T1 & K1 & P1).
  apply generateArticlePart_run in H2.
  destruct H2 as (r2 & a2 & -> & L2 & M2 & S2 & _ & T2 & K2 & P2).
  apply generateArticlePart_run in H3.
  destruct H3 as (r3 & a3 & -> & L3 & M3 & S3 & _ & T3 & K3 & P3).
  pose proof H as Hfin.
  apply finishArticle_run in H.
  destruct H as (rt & atitle & -> & Lt & Mt & St & _ & Tt & Kt & _ & Hc & _).
  repeat rewrite length_app in L2. repeat rewrite length_app in L3.
  cbn [length] in L2, L3.
  rewrite Nat.add_1_r in L2. rewrite !Nat.add_1_r in L3.
  exists r1, r2, r3, rt, a1, a2, a3, p1, p2, p3.
  assert (text = content article) by (inversion Hc; reflexivity). subst text. clear Hc.
  rewrite <- !app_assoc in *. cbn [app] in *.
  split; [reflexivity|]. repeat (split; [assumption|]).
  split.
  { intros r [<-|[<-|[<-|[]]]]; repeat (split; [assumption|]);
      match goal with |- startsWith (req_system ?x) _ = true => idtac end;
      [rewrite S1|rewrite S2|rewrite S3]; apply systemMessage_base. }
  repeat (split; [assumption|]). exact Hfin.
Qed.

(** The run of a successful single-call generation: the content request
    and the title request. *)
Lemma generateArticleContent_single_run config keyword minWords ps log article log' :
  isMultiPart ps = false ->
  generateArticleContent JSON_parse llm config keyword minWords ps log
  = (Ret article, log') ->
  exists rc rt answer,
    log' = log ++ [rc; rt] /\
    llm (length log) rc = Ret answer /\
    suppressContent JSON_parse ps answer = Ret (Some (content article)) /\
    req_model rc = model config /\ req_temperature rc = temperature config /\
    req_max_tokens rc = maxTokens config /\
    startsWith (req_system rc) systemBase = true /\
    req_model rt = model config /\ req_system rt = titleSystem /\
    req_temperature rt = temperature config /\ req_max_tokens rt = 50%N /\
    finishArticle JSON_parse llm config keyword ps (Some (content article)) (log ++ [rc])
    = (Ret article, log').
Proof.
  intros Hmode H. apply rethrow_ret in H.
  assert (Hgen : exists rc answer text,
            llm (length log) rc = Ret answer /\
            suppressContent JSON_parse ps answer = Ret text /\
            req_model rc = model config /\ req_temperature rc = temperature config /\
            req_max_tokens rc = maxTokens config /\
            startsWith (req_system rc) systemBase = true /\
            finishArticle JSON_parse llm config keyword ps text (log ++ [rc])
            = (Ret article, log')).
  { destruct ps as [ps|]; cbn [isMultiPart] in Hmode.
    - rewrite Hmode in H. cbv zeta in H.
      apply gbind_ret in H. destruct H as (answer & l0 & Hc & H).
      apply createCompletion_ret in Hc. destruct Hc as [Hc ->].
      apply gbind_ret in H. destruct H as (text & l1 & Ht & H).
      apply lift_ret in Ht. destruct Ht as [Ht ->].
      eexists. exists answer, text. split; [exact Hc|]. split; [exact Ht|].
      cbn [req_model req_system req_user req_temperature req_max_tokens].
      split; [reflexivity|]. split; [reflexivity|]. split; [reflexivity|].
      split; [apply systemMessage_base|exact H].
    - apply gbind_ret in H. destruct H as (answer & l0 & Hc & H).
      apply createCompletion_ret in Hc. destruct Hc as [Hc ->].
      eexists. exists answer, answer. split; [exact Hc|]. split; [reflexivity|].
      cbn [req_model req_system req_user req_temperature req_max_tokens].
      split; [reflexivity|]. split; [reflexivity|]. split; [reflexivity|].
      split; [|exact H]. rewrite <- (app_nil_r systemBase) at 1. apply startsWith_app. }
  destruct Hgen as (rc & answer & text & Lc & Ps & Mc & Tc & Kc & Sc & Hfin).
  pose proof Hfin as Hrun. apply finishArticle_run in Hrun.
  destruct Hrun as (rt & atitle & -> & _ & Mt & St & _ & Tt & Kt & _ & Hc & _).
  subst text. rewrite <- app_assoc in *. cbn [app] in *.
  exists rc, rt, answer. split; [reflexivity|]. repeat (split; [assumption|]).
  exact Hfin.
Qed.

Lemma generateArticleContent_multi_run config keyword minWords ps log article log' :
  useMultiPartGeneration ps = true ->
  generateArticleContent JSON_parse llm config keyword minWords (Some ps) log
  = (Ret article, log') ->
  generateMultiPartArticle JSON_parse llm config keyword minWords ps log
  = (Ret article, log').
Proof.
  intros Hmode H. apply rethrow_ret in H. rewrite Hmode in H. exact H.
Qed.

(** X4. A generation that succeeds has made exactly these requests, in
    this order: three part requests in multi-part mode, one content request
    otherwise, then the title request.  Each uses the model and temperature
    of the configuration; a part request asks for min(2000, maxTokens)
    tokens, the content request for maxTokens, the title request for 50 with
    the fixed title system message. *)
Theorem generateArticleContent_requests config keyword minWords ps
    (log log' : list ChatRequest) (article : Article) :
  generateArticleContent JSON_parse llm config keyword minWords ps log
  = (Ret article, log') ->
  exists parts titleRequest,
    log' = log ++ parts ++ [titleRequest] /\
    length parts = (if isMultiPart ps then 3 else 1) /\
    (forall r, In r parts ->
       req_model r = model config /\ req_temperature r = temperature config /\
       req_max_tokens r = (if isMultiPart ps then N.min 2000 (maxTokens config)
                           else maxTokens config)) /\
    req_model titleRequest = model config /\
    req_system titleRequest = titleSystem /\
    req_temperature titleRequest = temperature config /\
    req_max_tokens titleRequest = 50%N.
Proof.
  intro H. destruct (isMultiPart ps) eqn:Hmode.
  - destruct ps as [ps|]; [|discriminate]. cbn [isMultiPart] in Hmode.
    apply generateArticleContent_multi_run in H; [|exact Hmode].
    apply generateMultiPartArticle_run in H.
    destruct H as (r1 & r2 & r3 & rt & a1 & a2 & a3 & p1 & p2 & p3 & -> & _ & _ & _
                   & _ & _ & _ & _ & Hparts & Mt & St & Tt & Kt & _).
    exists [r1; r2; r3], rt. split; [reflexivity|]. split; [reflexivity|].
    split; [|auto]. intros r Hr. destruct (Hparts r Hr) as (M & T & K & _). auto.
  - apply generateArticleContent_single_run in H; [|exact Hmode].
    destruct H as (rc & rt & answer & -> & _ & _ & Mc & Tc & Kc & _ & Mt & St & Tt & Kt & _).
    exists [rc], rt. split; [reflexivity|]. split; [reflexivity|].
    split; [|auto]. intros r [<-|[]]. auto.
Qed.

Lemma suppress_none (ps : option PromptSettings) (text : str) :
  match ps with Some s => thingsToAvoid s = [] | None => True end ->
  suppress JSON_parse ps text = Ret text.
Proof.
  destruct ps as [s|]; [|reflexivity]. intro H. unfold suppress. rewrite H. reflexivity.
Qed.

Lemma suppressContent_none (ps : option PromptSettings) (content : option str) :
  match ps with Some s => thingsToAvoid s = [] | None => True end ->
  suppressContent JSON_parse ps content = Ret content.
Proof.
  destruct ps as [s|]; [|reflexivity]. intro H. unfold suppressContent. rewrite H.
  reflexivity.
Qed.

(** X5. Without a list of things to avoid the content of the article is
    what the service answered, untouched.  In single-call mode the first
    request was answered with a text, and the content is that text.  In
    multi-part mode the content is the answers to the first three requests
    joined by blank lines, an answer whose content is [null] standing as
    the word [null]; the word count of the article is then the sum of the
    word counts of the three. *)
Theorem generateArticleContent_content config keyword minWords ps
    (log log' : list ChatRequest) (article : Article) :
  match ps with Some s => thingsToAvoid s = [] | None => True end ->
  generateArticleContent JSON_parse llm config keyword minWords ps log
  = (Ret article, log') ->
  if isMultiPart ps then
    exists r1 r2 r3 a1 a2 a3,
      nth_error log' (length log) = Some r1 /\
      nth_error log' (S (length log)) = Some r2 /\
      nth_error log' (S (S (length log))) = Some r3 /\
      llm (length log) r1 = Ret a1 /\ llm (S (length log)) r2 = Ret a2 /\
      llm (S (S (length log))) r3 = Ret a3 /\
      content article
      = interpolate a1 ++ nl ++ nl ++ interpolate a2 ++ nl ++ nl ++ interpolate a3 /\
      wordCount article
      = countWords (interpolate a1) + countWords (interpolate a2)
        + countWords (interpolate a3)
  else
    exists request,
      nth_error log' (length log) = Some request /\
      llm (length log) request = Ret (Some (content article)).
Proof.
  intros Havoid H. pose proof (generated_counts _ _ _ _ _ _ _ _ _ H) as Hcount.
  destruct (isMultiPart ps) eqn:Hmode.
  - destruct ps as [ps|]; [|discriminate]. cbn [isMultiPart] in Hmode.
    apply generateArticleContent_multi_run in H; [|exact Hmode].
    apply generateMultiPartArticle_run in H.
    destruct H as (r1 & r2 & r3 & rt & a1 & a2 & a3 & p1 & p2 & p3 & -> & L1 & L2 & L3
                   & P1 & P2 & P3 & Pc & _).
    rewrite (suppressContent_none (Some ps)) in P1, P2, P3 by exact Havoid.
    rewrite (suppress_none (Some ps)) in Pc by exact Havoid.
    inversion P1; subst p1. inversion P2; subst p2. inversion P3; subst p3.
    assert (Hc : interpolate a1 ++ nl ++ nl ++ interpolate a2 ++ nl ++ nl ++ interpolate a3
                 = content article)
      by (inversion Pc; reflexivity).
    exists r1, r2, r3, a1, a2, a3.
    assert (Hn : forall (l : list ChatRequest) x rest, nth_error (l ++ x :: rest) (length l) = Some x).
    { intros l x rest. rewrite nth_error_app2 by lia. rewrite Nat.sub_diag. reflexivity. }
    split; [apply Hn|].
    split; [change (log ++ [r1; r2; r3; rt]) with (log ++ [r1] ++ r2 :: [r3; rt]);
            rewrite app_assoc;
            replace (S (length log)) with (length (log ++ [r1]))
              by (rewrite length_app; cbn [length]; lia); apply Hn|].
    split; [change (log ++ [r1; r2; r3; rt]) with (log ++ [r1; r2] ++ r3 :: [rt]);
            rewrite app_assoc;
            replace (S (S (length log))) with (length (log ++ [r1; r2]))
              by (rewrite length_app; cbn [length]; lia); apply Hn|].
    repeat (split; [assumption|]). split; [symmetry; exact Hc|].
    rewrite Hcount, <- Hc.
    rewrite !countWords_tokens, !countTokens_blank. lia.
  - apply generateArticleContent_single_run in H; [|exact Hmode].
    destruct H as (rc & rt & answer & -> & Lc & Pc & _).
    rewrite suppressContent_none in Pc by exact Havoid. inversion Pc; subst answer.
    exists rc. split; [|exact Lc].
    rewrite nth_error_app2 by lia. rewrite Nat.sub_diag. reflexivity.
Qed.

Lemma suppress_chars (ps : option PromptSettings) (text result : str) :
  suppress JSON_parse ps text = Ret result ->
  forall c, In c result -> In c text \/ In c alternative.
Proof.
  unfold suppress. intros H c Hc.
  assert (Hsame : Ret text = Ret result -> In c text \/ In c alternative)
    by (intro E; inversion E; subst; left; exact Hc).
  destruct ps as [s|]; [|auto]. destruct (nonEmpty (thingsToAvoid s)); [|auto].
  unfold removeProhibitedContent in H.
  destruct (avoidTermsOf JSON_parse (thingsToAvoid s)) as [terms|e] eqn:E; [|discriminate].
  cbn [bind] in H. inversion H; subst result.
  apply (replaceTerms_chars terms); [|exact Hc].
  intros t Ht. apply (avoidTermsOf_terms _ _ _ E t Ht).
Qed.

Lemma generateArticleContent_finish config keyword minWords ps log article log' :
  generateArticleContent JSON_parse llm config keyword minWords ps log
  = (Ret article, log') ->
  exists log0,
    finishArticle JSON_parse llm config keyword ps (Some (content article)) log0
    = (Ret article, log').
Proof.
  intro H. destruct (isMultiPart ps) eqn:Hmode.
  - destruct ps as [ps|]; [|discriminate]. cbn [isMultiPart] in Hmode.
    apply generateArticleContent_multi_run in H; [|exact Hmode].
    apply generateMultiPartArticle_run in H.
    destruct H as (r1 & r2 & r3 & rt & a1 & a2 & a3 & p1 & p2 & p3 & H).
    eexists. apply H.
  - apply generateArticleContent_single_run in H; [|exact Hmode].
    destruct H as (rc & rt & answer & H). eexists. apply H.
Qed.

(** X6. The title of a generated article never has a double quote:
    every one is taken out of the answer of the service, and the
    replacement of avoided terms puts none in. *)
Theorem generateArticleContent_title config keyword minWords ps
    (log log' : list ChatRequest) (article : Article) :
  generateArticleContent JSON_parse llm config keyword minWords ps log
  = (Ret article, log') ->
  ~ In (chr 34) (title article).
Proof.
  intro H. apply generateArticleContent_finish in H. destruct H as [log0 H].
  apply finishArticle_run in H.
  destruct H as (rt & answer & _ & _ & _ & _ & _ & _ & _ & Ht & _).
  intro Hq. destruct (suppress_chars _ _ _ Ht _ Hq) as [Hin|Hin].
  - exact (quotes_removed answer Hin).
  - revert Hin. clear. vm_compute. intuition discriminate.
Qed.

(** X7. Recipe data is looked for in the final content of the article,
    after the avoided terms were replaced, and only when the settings enable
    the detection: without settings, or with the detection switched off, the
    article has no recipe data. *)
Theorem generateArticleContent_recipeData config keyword minWords ps
    (log log' : list ChatRequest) (article : Article) :
  generateArticleContent JSON_parse llm config keyword minWords ps log
  = (Ret article, log') ->
  match ps with
  | Some s =>
      if enableRecipeDetection s
      then extractRecipeData (content article) keyword = Ret (recipeData article)
      else recipeData article = None
  | None => recipeData article = None
  end.
Proof.
  intro H. apply generateArticleContent_finish in H. destruct H as [log0 H].
  apply finishArticle_run in H.
  destruct H as (rt & answer & _ & _ & _ & _ & _ & _ & _ & _ & _ & Hr).
  exact Hr.
Qed.

Lemma callsAtMost_gret {A : Type} (a : A) : callsAtMost 0 (gret a).
Proof. intro log. exists []. rewrite app_nil_r. split; [reflexivity|cbn; lia]. Qed.

Lemma callsAtMost_lift {A : Type} (m : js A) : callsAtMost 0 (lift m).
Proof. intro log. exists []. rewrite app_nil_r. split; [reflexivity|cbn; lia]. Qed.

Lemma callsAtMost_createCompletion (request : ChatRequest) :
  callsAtMost 1 (createCompletion llm request).
Proof. intro log. exists [request]. split; [reflexivity|cbn; lia]. Qed.

Lemma callsAtMost_gbind {A B : Type} (n1 n2 : nat) (m : Gen A) (f : A -> Gen B) :
  callsAtMost n1 m -> (forall a, callsAtMost n2 (f a)) ->
  callsAtMost (n1 + n2) (gbind m f).
Proof.
  intros Hm Hf log. unfold gbind. destruct (Hm log) as (made1 & E1 & L1).
  destruct (m log) as [[a|e] log1]; cbn [snd] in E1; subst log1.
  - destruct (Hf a (log ++ made1)) as (made2 & E2 & L2).
    exists (made1 ++ made2). rewrite E2, app_assoc, length_app. split; [reflexivity|lia].
  - exists made1. split; [reflexivity|lia].
Qed.

Lemma callsAtMost_rethrow {A : Type} (n : nat) (m : Gen A) :
  callsAtMost n m -> callsAtMost n (rethrow m).
Proof.
  intros Hm log. unfold rethrow. destruct (Hm log) as (made & E & L).
  destruct (m log) as [[a|e] log1]; exists made; auto.
Qed.

Lemma callsAtMost_finishArticle config keyword ps text :
  callsAtMost 1 (finishArticle JSON_parse llm config keyword ps text).
Proof.
  unfold finishArticle. cbv zeta.
  apply (callsAtMost_gbind 1 0); [apply callsAtMost_createCompletion|]. intro a.
  apply (callsAtMost_gbind 0 0); [apply callsAtMost_lift|]. intro t.
  apply (callsAtMost_gbind 0 0); [apply callsAtMost_lift|]. intro c.
  apply (callsAtMost_gbind 0 0); [apply callsAtMost_lift|]. intro r.
  apply callsAtMost_gret.
Qed.

Lemma callsAtMost_generateArticlePart config keyword wc template system ps format :
  callsAtMost 1 (generateArticlePart JSON_parse llm config keyword wc template system
                                     ps format).
Proof.
  unfold generateArticlePart. cbv zeta.
  apply (callsAtMost_gbind 1 0); [apply callsAtMost_createCompletion|]. intro a.
  apply callsAtMost_lift.
Qed.

(** X8. Whatever the outcome, a generation makes at most four requests
    in multi-part mode and at most two otherwise, and only adds to the log
    of requests. *)
Theorem generateArticleContent_call_bound config keyword minWords ps :
  callsAtMost (if isMultiPart ps then 4 else 2)
    (generateArticleContent JSON_parse llm config keyword minWords ps).
Proof.
  unfold generateArticleContent. apply callsAtMost_rethrow.
  destruct ps as [ps|]; cbn [isMultiPart].
  - destruct (useMultiPartGeneration ps).
    + unfold generateMultiPartArticle. cbv zeta.
      apply (callsAtMost_gbind 1 3); [apply callsAtMost_generateArticlePart|]. intro p1.
      apply (callsAtMost_gbind 1 2); [apply callsAtMost_generateArticlePart|]. intro p2.
      apply (callsAtMost_gbind 1 1); [apply callsAtMost_generateArticlePart|]. intro p3.
      apply (callsAtMost_gbind 0 1); [apply callsAtMost_lift|]. intro text.
      apply callsAtMost_finishArticle.
    + cbv zeta.
      apply (callsAtMost_gbind 1 1); [apply callsAtMost_createCompletion|]. intro a.
      apply (callsAtMost_gbind 0 1); [apply callsAtMost_lift|]. intro text.
      apply callsAtMost_finishArticle.
  - apply (callsAtMost_gbind 1 1); [apply callsAtMost_createCompletion|]. intro a.
    apply callsAtMost_finishArticle.
Qed.

End GenerationRequests.

Lemma generateArticleContent_requests_witness :
  let config := MkOpenAIConfig `"key" `"gpt-4" 70 4000 in
  let llm := fun (_ : nat) (_ : ChatRequest) => Ret (Some `"<p>Some text</p>") in
  let multi := MkPromptSettings true [] [] [] [] [] [] [] [] false false [] in
  exists article parts titleRequest,
    generateArticleContent (fun _ => None) llm config `"tea" 800 (Some multi) []
    = (Ret article, parts ++ [titleRequest]) /\
    length parts = 3 /\
    (forall r, In r parts -> req_max_tokens r = 2000%N) /\
    req_max_tokens titleRequest = 50%N.
Proof.
  intros config llm multi.
  assert (Hrun : exists article log,
            generateArticleContent (fun _ => None) llm config `"tea" 800 (Some multi) []
            = (Ret article, log))
    by (vm_compute; eexists; eexists; reflexivity).
  destruct Hrun as (article & log & Hrun).
  destruct (generateArticleContent_requests (fun _ => None) llm config `"tea" 800
              (Some multi) [] log article Hrun)
    as (parts & titleRequest & Hlog & Hlen & Hparts & _ & _ & _ & Htitle).
  cbn [app] in Hlog. subst log. exists article, parts, titleRequest.
  split; [exact Hrun|]. split; [exact Hlen|]. split; [|exact Htitle].
  intros r Hr. destruct (Hparts r Hr) as (_ & _ & H). exact H.
Defined.

Lemma generateArticleContent_content_witness :
  let config := MkOpenAIConfig `"key" `"gpt-4" 70 4000 in
  let llm := fun (n : nat) (_ : ChatRequest) =>
               match n with
               | 0 => Ret (Some `"An intro.")
               | 1 => Ret None
               | 2 => Ret (Some `"The end of it.")
               | _ => Ret (Some `"A title")
               end in
  let multi := MkPromptSettings true [] [] [] [] [] [] [] [] false false [] in
  exists article log,
    generateArticleContent (fun _ => None) llm config `"tea" 800 (Some multi) []
    = (Ret article, log) /\
    content article
    = `"An intro." ++ nl ++ nl ++ `"null" ++ nl ++ nl ++ `"The end of it." /\
    wordCount article = 2 + 1 + 4.
Proof.
  intros config llm multi.
  assert (Hrun : exists article log,
            generateArticleContent (fun _ => None) llm config `"tea" 800 (Some multi) []
            = (Ret article, log))
    by (vm_compute; eexists; eexists; reflexivity).
  destruct Hrun as (article & log & Hrun).
  pose proof (generateArticleContent_content (fun _ => None) llm config `"tea" 800
                (Some multi) [] log article eq_refl Hrun) as H.
  cbn [isMultiPart useMultiPartGeneration multi] in H.
  destruct H as (r1 & r2 & r3 & a1 & a2 & a3 & _ & _ & _ & L1 & L2 & L3 & Hc & Hw).
  cbn [length llm] in L1, L2, L3.
  inversion L1; subst a1. inversion L2; subst a2. inversion L3; subst a3.
  exists article, log. split; [exact Hrun|]. split; [exact Hc|exact Hw].
Defined.

Lemma generateArticleContent_title_witness :
  let config := MkOpenAIConfig `"key" `"gpt-4" 70 4000 in
  let llm := fun (n : nat) (_ : ChatRequest) =>
               match n with
               | 0 => Ret (Some `"<p>Some text</p>")
               | _ => Ret (Some (dq ++ `"Tea: a " ++ dq ++ `"guide" ++ dq ++ dq))
               end in
  exists article log,
    generateArticleContent (fun _ => None) llm config `"tea" 800 None []
    = (Ret article, log) /\
    ~ In (chr 34) (title article).
Proof.
  intros config llm.
  assert (Hrun : exists article log,
            generateArticleContent (fun _ => None) llm config `"tea" 800 None []
            = (Ret article, log))
    by (vm_compute; eexists; eexists; reflexivity).
  destruct Hrun as (article & log & Hrun).
  exists article, log. split; [exact Hrun|].
  exact (generateArticleContent_title (fun _ => None) llm config `"tea" 800 None []
           log article Hrun).
Defined.

Lemma generateArticleContent_recipeData_witness :
  let config := MkOpenAIConfig `"key" `"gpt-4" 70 4000 in
  let llm := fun (_ : nat) (_ : ChatRequest) =>
               Ret (Some `"Recipe: bake for 20 minutes, then simmer.") in
  let off := MkPromptSettings false [] [] [] [] [] [] [] [] false false [] in
  exists article log,
    generateArticleContent (fun _ => None) llm config `"cake" 800 (Some off) []
    = (Ret article, log) /\
    recipeData article = None.
Proof.
  intros config llm off.
  assert (Hrun : exists article log,
            generateArticleContent (fun _ => None) llm config `"cake" 800 (Some off) []
            = (Ret article, log))
    by (vm_compute; eexists; eexists; reflexivity).
  destruct Hrun as (article & log & Hrun).
  exists article, log. split; [exact Hrun|].
  exact (generateArticleContent_recipeData (fun _ => None) llm config `"cake" 800
           (Some off) [] log article Hrun).
Defined.

(** ** Counting words *)

(** X9. Word counts add up over white space: the count of two texts put
    together with a white-space code unit between them is the sum of their
    counts; so the count of three parts joined by blank lines, as the
    multi-part article is, is the sum of the counts of the parts. *)
Theorem countWords_additive (a b c : str) (sep : ascii) :
  isSpace sep = true ->
  countWords (a ++ sep :: b) = countWords a + countWords b /\
  countWords (a ++ nl ++ nl ++ b ++ nl ++ nl ++ c)
  = countWords a + countWords b + countWords c.
Proof.
  intro Hsep. rewrite !countWords_tokens. split.
  - apply countTokens_sep. exact Hsep.
  - rewrite !countTokens_blank. lia.
Qed.

Lemma countWords_additive_witness :
  countWords (`"one two" ++ " "%char :: `"three") = countWords `"one two" + countWords `"three".
Proof.
  destruct (countWords_additive `"one two" `"three" [] " "%char eq_refl) as [H _].
  exact H.
Defined.

Lemma countTokens_false_zero (s : str) :
  countTokens false s = 0 <-> forallb isSpace s = true.
Proof.
  induction s as [|x s IH]; cbn [countTokens forallb]; [tauto|].
  destruct (isSpace x); cbn [andb].
  - exact IH.
  - split; intro H; [lia|discriminate].
Qed.

(** X10. A text has no words exactly when it is made of white space only;
    the empty text is such a text. *)
Theorem countWords_zero (text : str) :
  countWords text = 0 <-> forallb isSpace text = true.
Proof. rewrite countWords_tokens. apply countTokens_false_zero. Qed.

(** ** Parsing the list of things to avoid *)

Lemma dropSpace_head (s : str) :
  match dropSpace s with c :: _ => isSpace c = false | [] => True end.
Proof.
  induction s as [|x s IH]; cbn [dropSpace]; [exact I|].
  destruct (isSpace x) eqn:E; [exact IH|exact E].
Qed.

Lemma dropSpace_suffix (s : str) : exists sp, s = sp ++ dropSpace s.
Proof.
  induction s as [|x s [sp IH]]; [exists []; reflexivity|]. cbn [dropSpace].
  destruct (isSpace x).
  - exists (x :: sp). cbn [app]. rewrite <- IH. reflexivity.
  - exists []. reflexivity.
Qed.

(** The ends of a trimmed text are not white space. *)
Lemma trim_ends (s : str) :
  match trim s with c :: _ => isSpace c = false | [] => True end /\
  match rev (trim s) with c :: _ => isSpace c = false | [] => True end.
Proof.
  unfold trim. rewrite rev_involutive. split; [|apply dropSpace_head].
  destruct (dropSpace_suffix (rev (dropSpace s))) as [sp E].
  pose proof (dropSpace_head s) as Hh.
  apply (f_equal (@rev ascii)) in E. rewrite rev_involutive, rev_app_distr in E.
  destruct (rev (dropSpace (rev (dropSpace s)))) as [|c t]; [exact I|].
  rewrite E in Hh. exact Hh.
Qed.

(** X11. Every term [parseAvoidTerms] returns is not empty and has no white
    space at either end, whatever the specification. *)
Theorem parseAvoidTerms_trimmed (spec term : str) :
  In term (parseAvoidTerms spec) ->
  term <> [] /\
  (forall c rest, term = c :: rest -> isSpace c = false) /\
  (forall c rest, term = rest ++ [c] -> isSpace c = false).
Proof.
  unfold parseAvoidTerms. intro H. apply in_flat_map in H. destruct H as (m & _ & H).
  destruct (orCap (group m 1) (orCap (group m 2) (group m 3))) as [t|]; [|destruct H].
  destruct (nonEmpty (trim t)) eqn:E; [|destruct H].
  destruct H as [<-|[]]. destruct (trim_ends t) as [Hh Hl]. split; [|split].
  - intro H0. rewrite H0 in E. discriminate.
  - intros c rest H0. rewrite H0 in Hh. exact Hh.
  - intros c rest H0. rewrite H0, rev_app_distr in Hl. exact Hl.
Qed.

Lemma parseAvoidTerms_trimmed_witness :
  `"bar baz" <> [] /\ (forall c rest, `"bar baz" = c :: rest -> isSpace c = false).
Proof.
  destruct (parseAvoidTerms_trimmed (`"foo,  " ++ dq ++ `" bar baz " ++ dq) `"bar baz")
    as (H1 & H2 & _).
  - vm_compute. right. left. reflexivity.
  - split; [exact H1|exact H2].
Defined.

(** The class of the third alternative: no comma, no quote. *)
Lemma termChar_plain (c : ascii) :
  clsMatches false true [CChar ","; CChar (chr 34); CChar "'"] c = true ->
  ceq false (chr 34) c = false /\ ceq false "'" c = false /\ Ascii.eqb "," c = false.
Proof. each_ascii c; vm_compute; intro H; (discriminate || auto). Qed.

Lemma termChar_comma (c : ascii) :
  clsMatches false true [CChar ","; CChar (chr 34); CChar "'"] c = false ->
  negb (existsb (Ascii.eqb c) (dq ++ `"'")) = true ->
  c = ","%char.
Proof. each_ascii c; vm_compute; intros H1 H2; (discriminate || reflexivity). Qed.

Lemma chr_none (ic : bool) (c x : ascii) (xs : str) (r : regex) (k : cont) (s : mstate) :
  rest s = x :: xs -> ceq ic c x = false -> rmatch ic (Seq (Chr c) r) k s = None.
Proof. intros H1 H2. cbn [rmatch]. rewrite H1, H2. reflexivity. Qed.

Lemma rmatch_alt (ic : bool) (r1 r2 : regex) (k : cont) (s : mstate) :
  rmatch ic (Alt r1 r2) k s = orElse (rmatch ic r1 k s) (rmatch ic r2 k s).
Proof. reflexivity. Qed.

(** A run without comma and quotes is read whole by the third
    alternative. *)
Lemma termRegex_run (bf : str) (d : ascii) (run tail : str) :
  forallb (clsMatches false true [CChar ","; CChar (chr 34); CChar "'"]) (d :: run) = true ->
  match tail with
  | x :: _ => clsMatches false true [CChar ","; CChar (chr 34); CChar "'"] x = false
  | [] => True
  end ->
  matchAt false termRegex bf (d :: run ++ tail)
  = Some (MState (rev (d :: run) ++ bf) tail [(3, d :: run)]).
Proof.
  intros Hrun Htail. unfold matchAt, termRegex. cbn [alts seqs].
  assert (Hd : clsMatches false true [CChar ","; CChar (chr 34); CChar "'"] d = true)
    by (cbn [forallb] in Hrun; apply andb_true_iff in Hrun; apply Hrun).
  destruct (termChar_plain d Hd) as (Q1 & Q2 & _).
  rewrite rmatch_alt, (chr_none false (chr 34) d (run ++ tail)) by (reflexivity || exact Q1).
  cbn [orElse].
  rewrite rmatch_alt, (chr_none false "'" d (run ++ tail)) by (reflexivity || exact Q2).
  cbn [orElse].
  rewrite rmatch_grp.
  apply (plus_class_ok false true [CChar ","; CChar (chr 34); CChar "'"] _ d run tail);
    [reflexivity|exact Hrun|exact Htail|].
  cbn beta. cbn [rest consumed caps].
  change (d :: run ++ tail) with ((d :: run) ++ tail). rewrite firstn_exact.
  reflexivity.
Qed.

Lemma termRegex_comma (bf s : str) : matchAt false termRegex bf (","%char :: s) = None.
Proof. reflexivity. Qed.

Lemma matchesFrom_skip (ic : bool) (r : regex) (a b : str) :
  forall bf, matchesFrom ic r bf (a ++ b) (length a) = matchesFrom ic r (rev a ++ bf) b 0.
Proof.
  induction a as [|x a IH]; intro bf; [reflexivity|].
  cbn [app length matchesFrom rev]. rewrite IH, <- app_assoc. reflexivity.
Qed.

(** The longest prefix of characters of a class. *)
Lemma span_class (p : ascii -> bool) (s : str) :
  exists run tail,
    s = run ++ tail /\ forallb p run = true /\
    match tail with x :: _ => p x = false | [] => True end.
Proof.
  induction s as [|x s (run & tail & E & Hrun & Htail)].
  - exists [], []. auto.
  - destruct (p x) eqn:Ex.
    + exists (x :: run), tail. cbn [app forallb]. rewrite Ex, Hrun, <- E. auto.
    + exists [], (x :: s). auto.
Qed.

Lemma splitOn_go_run (run tail cur : str) :
  forallb (fun c => negb (Ascii.eqb "," c)) run = true ->
  splitOn_go `"," (run ++ tail) 0 cur = splitOn_go `"," tail 0 (rev run ++ cur).
Proof.
  revert cur. induction run as [|x run IH]; intros cur H; [reflexivity|].
  cbn [forallb] in H. apply andb_true_iff in H. destruct H as [Hx H].
  apply negb_true_iff in Hx.
  change (`",") with [","%char] in *.
  cbn [app splitOn_go startsWith]. rewrite Hx. cbn [andb].
  rewrite IH by exact H. cbn [rev]. rewrite <- app_assoc. reflexivity.
Qed.

Lemma startsWith_none (s : str) : startsWith s [] = true.
Proof. destruct s; reflexivity. Qed.

Lemma parse_pieces (n : nat) :
  forall s, length s <= n -> avoids (dq ++ `"'") s = true ->
  forall bf,
    flat_map (fun m =>
                let term := orCap (group m 1) (orCap (group m 2) (group m 3)) in
                match term with
                | Some t => if nonEmpty (trim t) then [trim t] else []
                | None => []
                end)
             (matchesFrom false termRegex bf s 0)
    = filter nonEmpty (map trim (splitOn s `",")).
Proof.
  induction n as [|n IH]; intros s Hlen Hav bf.
  - destruct s; [reflexivity|cbn [length] in Hlen; lia].
  - destruct (span_class (clsMatches false true [CChar ","; CChar (chr 34); CChar "'"]) s)
      as (run & tail & E & Hrun & Htail).
    assert (Hcomma : match tail with
                     | x :: t => x = ","%char /\ avoids (dq ++ `"'") t = true /\ length t <= n
                     | [] => True
                     end).
    { destruct tail as [|x t]; [exact I|]. subst s. unfold avoids in Hav.
      rewrite forallb_app in Hav. apply andb_true_iff in Hav. destruct Hav as [_ Hav].
      cbn [forallb] in Hav. apply andb_true_iff in Hav. destruct Hav as [Hx Ht].
      split; [apply (termChar_comma x Htail Hx)|]. split; [exact Ht|].
      rewrite length_app in Hlen. cbn [length] in Hlen. lia. }
    assert (Htail' : forall bf',
              flat_map (fun m =>
                let term := orCap (group m 1) (orCap (group m 2) (group m 3)) in
                match term with
                | Some t => if nonEmpty (trim t) then [trim t] else []
                | None => []
                end)
                (matchesFrom false termRegex bf' tail 0)
              = match tail with
                | _ :: t => filter nonEmpty (map trim (splitOn t `","))
                | [] => []
                end).
    { intro bf'. destruct tail as [|x t]; [reflexivity|].
      destruct Hcomma as (-> & Hav' & Hlen').
      cbn [matchesFrom]. rewrite termRegex_comma. apply IH; assumption. }
    destruct run as [|d run].
    + cbn [app] in E. subst tail. rewrite Htail'. destruct s as [|x t]; [reflexivity|].
      destruct Hcomma as (-> & _ & _). unfold splitOn. change (`",") with [","%char].
      cbn [splitOn_go startsWith]. rewrite Ascii.eqb_refl, startsWith_none. reflexivity.
    + subst s. cbn [app matchesFrom]. rewrite (termRegex_run bf d run tail Hrun Htail).
      cbn [flat_map rest]. cbv zeta.
      match goal with
      | |- context [orCap (group ?m 1) _] =>
          assert (Hg : orCap (group m 1) (orCap (group m 2) (group m 3)) = Some (d :: run))
            by reflexivity;
          rewrite Hg; clear Hg
      end.
      replace (length (d :: run ++ tail) - length tail - 1) with (length run)
        by (cbn [length]; rewrite length_app; lia).
      rewrite matchesFrom_skip, Htail'.
      assert (Hnc : forallb (fun c => negb (Ascii.eqb "," c)) (d :: run) = true).
      { apply forallb_forall. intros c Hc. rewrite forallb_forall in Hrun.
        destruct (termChar_plain c (Hrun c Hc)) as (_ & _ & H). rewrite H. reflexivity. }
      unfold splitOn. change (d :: run ++ tail) with ((d :: run) ++ tail).
      rewrite (splitOn_go_run (d :: run) tail [] Hnc). rewrite app_nil_r.
      destruct tail as [|x t].
      * cbn [splitOn_go map filter]. rewrite rev_involutive, app_nil_r. reflexivity.
      * destruct Hcomma as (-> & _ & _). change (`",") with [","%char].
        cbn [splitOn_go startsWith]. rewrite Ascii.eqb_refl, startsWith_none.
        cbn [andb length Nat.sub].
        cbn [map filter]. rewrite rev_involutive.
        destruct (nonEmpty (trim (d :: run))); reflexivity.
Qed.

(** X12. For a specification without quote characters [parseAvoidTerms]
    gives the pieces between the commas, each trimmed, the empty ones
    dropped. *)
Theorem parseAvoidTerms_unquoted (spec : str) :
  avoids (dq ++ `"'") spec = true ->
  parseAvoidTerms spec = filter nonEmpty (map trim (splitOn spec `",")).
Proof.
  intro H. unfold parseAvoidTerms, reMatches. apply (parse_pieces (length spec)); auto.
Qed.

Lemma parseAvoidTerms_unquoted_witness :
  parseAvoidTerms `"sugar,  palm oil ,, e-numbers" = [`"sugar"; `"palm oil"; `"e-numbers"].
Proof.
  rewrite (parseAvoidTerms_unquoted `"sugar,  palm oil ,, e-numbers" eq_refl).
  reflexivity.
Defined.

(** ** A list of things to avoid written as a JSON array *)

Lemma mapM_all {A B : Type} (f : A -> js B) (g : A -> B) (l : list A) :
  (forall a, In a l -> f a = Ret (g a)) -> mapM f l = Ret (map g l).
Proof.
  induction l as [|a l IH]; intro H; [reflexivity|].
  cbn [mapM map]. rewrite (H a (or_introl eq_refl)). cbn [bind].
  rewrite IH by (intros x Hx; apply H; right; exact Hx). reflexivity.
Qed.

Lemma mapM_throws {A B : Type} (f : A -> js B) (P : error -> Prop) (l : list A) :
  (forall a e, f a = Throw e -> P e) ->
  (exists a, In a l /\ exists e, f a = Throw e) ->
  exists e, mapM f l = Throw e /\ P e.
Proof.
  intros HP. induction l as [|a l IH]; intros (x & Hx & e & He); [destruct Hx|].
  cbn [mapM]. destruct (f a) as [b|e'] eqn:Ea.
  - cbn [bind]. destruct Hx as [->|Hx]; [congruence|].
    destruct IH as (e1 & E1 & P1); [exists x; split; [exact Hx|exists e; exact He]|].
    rewrite E1. exists e1. split; [reflexivity|exact P1].
  - exists e'. split; [reflexivity|]. apply (HP a). exact Ea.
Qed.

(** X13. When the specification is written as a JSON array, its string
    elements are the terms, each trimmed, stripped of one pair of enclosing
    quotes and put in lower case, the empty ones dropped; an element that is
    no string is not skipped: the suppression throws a TypeError. *)
Theorem removeProhibitedContent_json JSON_parse (content spec : str)
    (elements : list json) :
  startsWith (trim spec) `"[" && endsWith (trim spec) `"]" = true ->
  JSON_parse spec = Some elements ->
  (forall strings, elements = map JString strings ->
     removeProhibitedContent JSON_parse content spec
     = Ret (replaceTerms
              (filter nonEmpty
                 (map (fun s => toLowerCase (replaceFirst false quotedRe `"$1" (trim s)))
                      strings))
              content)) /\
  (In JOther elements ->
     exists msg, removeProhibitedContent JSON_parse content spec = Throw (TypeError msg)).
Proof.
  intros Hshape Hparse. unfold removeProhibitedContent, avoidTermsOf.
  rewrite Hshape, Hparse. split.
  - intros strings ->.
    rewrite (mapM_all
               (fun term => match term with
                            | JString s =>
                                Ret (toLowerCase (replaceFirst false quotedRe `"$1" (trim s)))
                            | JOther => Throw (TypeError `"term.trim is not a function")
                            end)
               (fun term => match term with
                            | JString s =>
                                toLowerCase (replaceFirst false quotedRe `"$1" (trim s))
                            | JOther => []
                            end)).
    + cbn [bind]. rewrite map_map. reflexivity.
    + intros a Ha. apply in_map_iff in Ha. destruct Ha as (s & <- & _). reflexivity.
  - intro Hin.
    destruct (mapM_throws
                (fun term => match term with
                             | JString s =>
                                 Ret (toLowerCase (replaceFirst false quotedRe `"$1" (trim s)))
                             | JOther => Throw (TypeError `"term.trim is not a function")
                             end)
                (fun e => exists msg, e = TypeError msg) elements)
      as (e & E & msg & ->).
    + intros [s|] e H; [discriminate|]. inversion H. eexists. reflexivity.
    + exists JOther. split; [exact Hin|]. eexists. reflexivity.
    + rewrite E. cbn [bind]. exists msg. reflexivity.
Qed.

Lemma removeProhibitedContent_json_witness :
  let parse := fun _ : str => Some [JString `" 'Foo' "; JOther] in
  exists msg,
    removeProhibitedContent parse `"some foo" (`"[" ++ dq ++ `" 'Foo' " ++ dq ++ `", 1]")
    = Throw (TypeError msg).
Proof.
  intro parse.
  destruct (removeProhibitedContent_json parse `"some foo"
              (`"[" ++ dq ++ `" 'Foo' " ++ dq ++ `", 1]") [JString `" 'Foo' "; JOther]
              eq_refl eq_refl) as [_ H].
  apply H. right. left. reflexivity.
Defined.

(** ** Prompt variables *)

Lemma avoids_tail (c x : ascii) (s : str) :
  avoids [c] (x :: s) = true -> Ascii.eqb x c = false /\ avoids [c] s = true.
Proof.
  intro H. apply avoids_cons in H. destruct H as [H1 H2]. split; [|exact H2].
  cbn [existsb] in H1. rewrite orb_false_r in H1. exact H1.
Qed.

(** A pattern that has to read [c] first changes nothing in a text without
    [c]. *)
Lemma replaceFrom_needs_char (ic : bool) (c : ascii) (r : regex)
    (subst : reMatch -> str) :
  startsWithChr c r = true -> canon c = c -> toLowerChar c = c ->
  forall af bf, avoids [c] af = true -> replaceFrom ic r subst bf af 0 = af.
Proof.
  intros Hr Hc Hl. induction af as [|x af IH]; intros bf Hav; cbn [replaceFrom];
    rewrite (matchAt_needs_char ic c r bf _ Hr Hc Hl Hav); [reflexivity|].
  f_equal. apply IH. apply (avoids_tail c x af Hav).
Qed.

(** X14. A template without an opening brace has no placeholder, and is
    returned as it is whatever the keyword and the number of words are. *)
Theorem applyPromptVariables_no_brace (template keyword : str) (minWords : N) :
  avoids `"{" template = true ->
  applyPromptVariables template keyword minWords = template.
Proof.
  intro H. rewrite applyPromptVariables_steps. unfold replaceAll.
  rewrite (replaceFrom_needs_char false "{" (lit `"{keyword}") _ eq_refl eq_refl eq_refl
             template [] H).
  apply (replaceFrom_needs_char false "{" (lit `"{minWords}") _ eq_refl eq_refl eq_refl
           template [] H).
Qed.

Lemma applyPromptVariables_no_brace_witness :
  applyPromptVariables `"Write about tea, $& all." `"$&{keyword}" 800
  = `"Write about tea, $& all.".
Proof.
  apply (applyPromptVariables_no_brace `"Write about tea, $& all." `"$&{keyword}" 800).
  reflexivity.
Defined.

(** ** The recipe extractor *)

(** X15. The description of a recipe never has more than 300 code
    units.  It is the default sentence, or one of the first two paragraph
    elements of the content without the paragraph tags: whole when that
    text has at most 300 code units, and otherwise cut to its first 297
    code units followed by three dots, 300 code units in all. *)
Theorem extractDescription_bound (content : str) :
  exists text,
    (text = `"A delicious and easy recipe that everyone will love." \/
     exists p, In p (firstn 2 (reMatchAll false paragraphRe content)) /\ text = stripP p) /\
    (length text <= 300 -> extractDescription content = text) /\
    (300 < length text ->
       extractDescription content = firstn 297 text ++ `"..." /\
       length (extractDescription content) = 300) /\
    length (extractDescription content) <= 300.
Proof.
  assert (Hcut : forall d : str,
            (length d <= 300 ->
               (if 300 <? length d then substring d 0 297 ++ `"..." else d) = d) /\
            (300 < length d ->
               (if 300 <? length d then substring d 0 297 ++ `"..." else d)
               = firstn 297 d ++ `"..." /\
               length (if 300 <? length d then substring d 0 297 ++ `"..." else d) = 300) /\
            length (if 300 <? length d then substring d 0 297 ++ `"..." else d) <= 300).
  { intro d. unfold substring. cbn [skipn Nat.sub].
    destruct (300 <? length d) eqn:E.
    - apply Nat.ltb_lt in E. split; [lia|].
      assert (L : length (firstn 297 d ++ `"...") = 300).
      { rewrite length_app, length_firstn. change (length `"...") with 3. lia. }
      split; [auto|lia].
    - apply Nat.ltb_ge in E. split; [reflexivity|]. split; [lia|exact E]. }
  unfold extractDescription. cbv zeta.
  destruct (reMatchAll false paragraphRe content) as [|p0 more].
  - exists `"A delicious and easy recipe that everyone will love.".
    split; [left; reflexivity|]. split; [reflexivity|].
    split; [intro H; apply Nat.ltb_lt in H; discriminate|apply Nat.leb_le; reflexivity].
  - match goal with
    | |- context [if 300 <? length ?d then _ else _] => set (text := d)
    end.
    exists text. split; [|apply Hcut].
    right. unfold text. destruct more as [|p1 more'].
    + exists p0. split; [left; reflexivity|reflexivity].
    + cbn [firstn]. destruct (length (stripP p0) <? 50).
      * exists p1. split; [right; left; reflexivity|reflexivity].
      * exists p0. split; [left; reflexivity|reflexivity].
Qed.

Lemma extractDescription_bound_witness :
  extractDescription (`"<p>" ++ repeat "a"%char 301 ++ `"</p><p>Short.</p>")
  = repeat "a"%char 297 ++ `"...".
Proof.
  destruct (extractDescription_bound (`"<p>" ++ repeat "a"%char 301 ++ `"</p><p>Short.</p>"))
    as (text & Hsrc & Hwhole & Hcut & _).
  assert (Hrun : extractDescription (`"<p>" ++ repeat "a"%char 301 ++ `"</p><p>Short.</p>")
                 = repeat "a"%char 297 ++ `"...") by (vm_compute; reflexivity).
  assert (Hm : firstn 2 (reMatchAll false paragraphRe (`"<p>" ++ repeat "a"%char 301 ++ `"</p><p>Short.</p>"))
               = [`"<p>" ++ repeat "a"%char 301 ++ `"</p>"; `"<p>Short.</p>"])
    by (vm_compute; reflexivity).
  assert (Hlong : stripP (`"<p>" ++ repeat "a"%char 301 ++ `"</p>") = repeat "a"%char 301)
    by (vm_compute; reflexivity).
  assert (Hshort : stripP `"<p>Short.</p>" = `"Short.") by (vm_compute; reflexivity).
  destruct Hsrc as [Ht|(p & Hp & Ht)].
  - exfalso. subst text. rewrite Hrun in Hwhole.
    assert (H : repeat "a"%char 297 ++ `"..."
                = `"A delicious and easy recipe that everyone will love.")
      by (apply Hwhole; apply Nat.leb_le; vm_compute; reflexivity).
    discriminate H.
  - rewrite Hm in Hp. destruct Hp as [<-|[<-|[]]].
    + rewrite Hlong in Ht. subst text.
      destruct Hcut as [Hcut _]; [apply Nat.ltb_lt; vm_compute; reflexivity|].
      rewrite Hcut. vm_compute. reflexivity.
    + exfalso. rewrite Hshort in Ht. subst text. rewrite Hrun in Hwhole.
      assert (H : repeat "a"%char 297 ++ `"..." = `"Short.")
        by (apply Hwhole; apply Nat.leb_le; vm_compute; reflexivity).
      discriminate H.
Defined.

(** ** What a match reads *)

Lemma follows_refl (r : regex) (s : mstate) : follows r s s [] [].
Proof.
  unfold follows. split; [reflexivity|]. split; [reflexivity|]. split; [reflexivity|].
  intros i v [].
Qed.

Lemma follows_step (r : regex) (s : mstate) (x : ascii) (xs : str) :
  rest s = x :: xs -> follows r s (step s x xs) [x] [].
Proof.
  intro R. unfold follows. split; [exact R|]. split; [reflexivity|]. split; [reflexivity|].
  intros i v [].
Qed.

Lemma follows_trans (r1 r2 r : regex) (s s1 s2 : mstate) (mid1 mid2 : str)
    (extra1 extra2 : list (nat * str)) :
  (forall i, hasGroup i r1 = true -> hasGroup i r = true) ->
  (forall i, hasGroup i r2 = true -> hasGroup i r = true) ->
  follows r1 s s1 mid1 extra1 -> follows r2 s1 s2 mid2 extra2 ->
  follows r s s2 (mid1 ++ mid2) (extra2 ++ extra1).
Proof.
  intros G1 G2 (R1 & C1 & K1 & H1) (R2 & C2 & K2 & H2).
  split; [|split; [|split]].
  - rewrite R1, R2, app_assoc. reflexivity.
  - rewrite C2, C1, rev_app_distr, app_assoc. reflexivity.
  - rewrite K2, K1, app_assoc. reflexivity.
  - intros i v Hin. apply in_app_or in Hin. destruct Hin as [Hin|Hin].
    + apply G2. exact (H2 i v Hin).
    + apply G1. exact (H1 i v Hin).
Qed.

Lemma follows_weaken (r r' : regex) (s s' : mstate) (mid : str) (extra : list (nat * str)) :
  (forall i, hasGroup i r = true -> hasGroup i r' = true) ->
  follows r s s' mid extra -> follows r' s s' mid extra.
Proof.
  intros G (R & C & K & H). split; [exact R|]. split; [exact C|]. split; [exact K|].
  intros i v Hin. apply G. exact (H i v Hin).
Qed.

(** The continuation of a successful match is entered further on in the
    subject: the text between the two positions is what was read. *)
Lemma starLoop_trace (r : regex) (m : cont -> cont) (greedy : bool) (k : cont) :
  (forall k' s e, m k' s = Some e ->
     exists s' mid extra, k' s' = Some e /\ follows r s s' mid extra) ->
  forall fuel s e, starLoop m greedy k fuel s = Some e ->
    exists s' mid extra, k s' = Some e /\ follows r s s' mid extra.
Proof.
  intros Hm. induction fuel as [|f IH]; intros s e H; cbn [starLoop] in H; [discriminate|].
  assert (Hstay : k s = Some e ->
            exists s' mid extra, k s' = Some e /\ follows r s s' mid extra)
    by (intro Hk; exists s, [], []; split; [exact Hk|apply follows_refl]).
  assert (Hagain : forall e',
    m (fun s' => if length (rest s') <? length (rest s)
                 then starLoop m greedy k f s' else None) s = Some e' ->
    exists s' mid extra, k s' = Some e' /\ follows r s s' mid extra).
  { intros e' H'. apply Hm in H'. destruct H' as (s1 & mid1 & extra1 & H' & F1).
    destruct (length (rest s1) <? length (rest s)); [|discriminate].
    apply IH in H'. destruct H' as (s2 & mid2 & extra2 & H' & F2).
    exists s2, (mid1 ++ mid2), (extra2 ++ extra1). split; [exact H'|].
    apply (follows_trans r r r s s1 s2); auto. }
  destruct greedy; unfold orElse in H.
  - destruct (m _ s) as [e'|] eqn:E.
    + inversion H; subst. apply Hagain. reflexivity.
    + apply Hstay. exact H.
  - destruct (k s) as [e'|] eqn:E.
    + inversion H; subst. apply Hstay. reflexivity.
    + apply Hagain. exact H.
Qed.

Lemma rmatch_trace (ic : bool) (r : regex) :
  forall k s e, rmatch ic r k s = Some e ->
    exists s' mid extra, k s' = Some e /\ follows r s s' mid extra.
Proof.
  induction r as [|c| |neg items|r1 IH1 r2 IH2|r1 IH1 r2 IH2|g r1 IH1|i r1 IH1| | |];
    intros k s e H; cbn [rmatch] in H.
  - exists s, [], []. split; [exact H|apply follows_refl].
  - destruct (rest s) as [|x xs] eqn:R; [discriminate|].
    destruct (ceq ic c x); [|discriminate].
    exists (step s x xs), [x], []. split; [exact H|apply follows_step; exact R].
  - destruct (rest s) as [|x xs] eqn:R; [discriminate|].
    destruct (isLineTerminator x); [discriminate|].
    exists (step s x xs), [x], []. split; [exact H|apply follows_step; exact R].
  - destruct (rest s) as [|x xs] eqn:R; [discriminate|].
    destruct (clsMatches ic neg items x); [|discriminate].
    exists (step s x xs), [x], []. split; [exact H|apply follows_step; exact R].
  - apply IH1 in H. destruct H as (s1 & mid1 & extra1 & H & F1).
    apply IH2 in H. destruct H as (s2 & mid2 & extra2 & H & F2).
    exists s2, (mid1 ++ mid2), (extra2 ++ extra1). split; [exact H|].
    apply (follows_trans r1 r2 _ s s1 s2); auto; intros j Hj; cbn [hasGroup];
      rewrite Hj; auto using orb_true_r.
  - unfold orElse in H. destruct (rmatch ic r1 k s) eqn:E.
    + inversion H; subst. apply IH1 in E. destruct E as (s1 & mid1 & extra1 & E & F1).
      exists s1, mid1, extra1. split; [exact E|].
      apply (follows_weaken r1); [|exact F1]. intros j Hj. cbn [hasGroup]. rewrite Hj. auto.
    + apply IH2 in H. destruct H as (s1 & mid1 & extra1 & H & F1).
      exists s1, mid1, extra1. split; [exact H|].
      apply (follows_weaken r2); [|exact F1]. intros j Hj. cbn [hasGroup]. rewrite Hj.
      apply orb_true_r.
  - apply (starLoop_trace (Star g r1) (rmatch ic r1) g k) in H; [exact H|].
    intros k' s0 e0 H0. apply IH1 in H0. destruct H0 as (s1 & mid1 & extra1 & H0 & F1).
    exists s1, mid1, extra1. split; [exact H0|]. apply (follows_weaken r1); auto.
  - apply IH1 in H. destruct H as (s1 & mid1 & extra1 & H & (R1 & C1 & K1 & G1)).
    eexists. exists mid1. eexists. split; [exact H|].
    unfold follows. cbn [setCap rest consumed caps]. split; [exact R1|]. split; [exact C1|].
    split; [rewrite K1; rewrite app_comm_cons; reflexivity|].
    intros j v [Hj|Hj]; cbn [hasGroup].
    + inversion Hj; subst. rewrite Nat.eqb_refl. reflexivity.
    + rewrite (G1 j v Hj). apply orb_true_r.
  - destruct (consumed s) eqn:C; [|discriminate]. exists s, [], [].
    split; [exact H|apply follows_refl].
  - destruct (rest s) eqn:R; [|discriminate]. exists s, [], [].
    split; [exact H|apply follows_refl].
  - destruct (atWordBoundary (consumed s) (rest s)); [|discriminate]. exists s, [], [].
    split; [exact H|apply follows_refl].
Qed.

(** A pattern without groups leaves the captures as they are. *)
Lemma rmatch_plain (ic : bool) (r : regex) (k : cont) (s e : mstate) :
  (forall i, hasGroup i r = false) ->
  rmatch ic r k s = Some e ->
  exists s' mid, k s' = Some e /\ rest s = mid ++ rest s' /\
                 consumed s' = rev mid ++ consumed s /\ caps s' = caps s.
Proof.
  intros Hg H. apply rmatch_trace in H.
  destruct H as (s' & mid & extra & H & R & C & K & G).
  exists s', mid. split; [exact H|]. split; [exact R|]. split; [exact C|].
  destruct extra as [|[i v] extra]; [exact K|].
  specialize (G i v (or_introl eq_refl)). rewrite Hg in G. discriminate.
Qed.

(** A repeated class reads a run of code units of the class. *)
Lemma starLoop_class (ic neg : bool) (items : list citem) (k : cont) :
  forall fuel s e,
    starLoop (rmatch ic (Cls neg items)) true k fuel s = Some e ->
    exists s' mid, k s' = Some e /\ rest s = mid ++ rest s' /\
                   consumed s' = rev mid ++ consumed s /\ caps s' = caps s /\
                   forallb (clsMatches ic neg items) mid = true.
Proof.
  induction fuel as [|f IH]; intros s e H; cbn [starLoop] in H; [discriminate|].
  rewrite rmatch_cls in H. unfold orElse in H.
  destruct (rest s) as [|x xs] eqn:R.
  - exists s, []. rewrite R. auto.
  - destruct (clsMatches ic neg items x) eqn:Ex.
    + destruct (length (rest (step s x xs)) <? length (x :: xs)).
      * destruct (starLoop (rmatch ic (Cls neg items)) true k f (step s x xs)) as [e'|] eqn:E.
        -- inversion H; subst e'. apply IH in E.
           destruct E as (s' & mid & E & R' & C' & K' & F').
           exists s', (x :: mid). cbn [step rest consumed caps] in *.
           split; [exact E|]. split; [rewrite R'; reflexivity|].
           split; [rewrite C'; cbn [rev]; rewrite <- app_assoc; reflexivity|].
           split; [exact K'|]. cbn [forallb]. rewrite Ex, F'. reflexivity.
        -- exists s, []. rewrite R. auto.
      * exists s, []. rewrite R. auto.
    + exists s, []. rewrite R. auto.
Qed.

Lemma plus_class (ic neg : bool) (items : list citem) (k : cont) (s e : mstate) :
  rmatch ic (plus true (Cls neg items)) k s = Some e ->
  exists s' mid, k s' = Some e /\ rest s = mid ++ rest s' /\
                 consumed s' = rev mid ++ consumed s /\ caps s' = caps s /\
                 mid <> [] /\ forallb (clsMatches ic neg items) mid = true.
Proof.
  unfold plus. rewrite rmatch_seq, rmatch_cls.
  destruct (rest s) as [|x xs] eqn:R; [discriminate|].
  destruct (clsMatches ic neg items x) eqn:Ex; [|discriminate].
  intro H. cbn [rmatch] in H. apply starLoop_class in H.
  destruct H as (s' & mid & H & R' & C' & K' & F').
  exists s', (x :: mid). cbn [step rest consumed caps] in *.
  split; [exact H|]. split; [rewrite R'; reflexivity|].
  split; [rewrite C'; cbn [rev]; rewrite <- app_assoc; reflexivity|].
  split; [exact K'|]. split; [discriminate|]. cbn [forallb]. rewrite Ex, F'. reflexivity.
Qed.

(** A capture group around a run of a class captures the run. *)
Lemma group_class (ic neg : bool) (items : list citem) (i : nat) (k : cont)
    (s e : mstate) :
  rmatch ic (Grp i (plus true (Cls neg items))) k s = Some e ->
  exists s' mid, k s' = Some e /\ rest s = mid ++ rest s' /\
                 caps s' = (i, mid) :: caps s /\
                 mid <> [] /\ forallb (clsMatches ic neg items) mid = true.
Proof.
  rewrite rmatch_grp. intro H. apply plus_class in H.
  destruct H as (s' & mid & H & R' & C' & K' & N' & F').
  eexists. exists mid. split; [exact H|]. cbn [setCap rest caps].
  split; [exact R'|]. split; [|auto]. rewrite K', R', firstn_exact. reflexivity.
Qed.

Lemma lookupCap_skip (j : nat) (extra l : list (nat * str)) :
  (forall i v, In (i, v) extra -> Nat.eqb j i = false) ->
  lookupCap j (extra ++ l) = lookupCap j l.
Proof.
  induction extra as [|[i v] extra IH]; intro H; [reflexivity|].
  cbn [app lookupCap]. rewrite (H i v (or_introl eq_refl)).
  apply IH. intros i' v' Hin. apply (H i' v'). right. exact Hin.
Qed.

Lemma digit_class (mid : str) :
  forallb (clsMatches true false [CDigit]) mid = true -> forallb isDigit mid = true.
Proof.
  intro H. rewrite forallb_forall in *. intros c Hc. specialize (H c Hc).
  unfold clsMatches in H. cbn in H. rewrite orb_false_r in H. exact H.
Qed.

(** One element of a sequence that has no group: the match goes on in a
    state [s'] with the captures [K] had. *)
Ltac plain_step H s' K :=
  rewrite rmatch_seq in H;
  apply rmatch_plain in H; [|intro; reflexivity];
  let K' := fresh "K" in
  destruct H as (s' & _ & H & _ & _ & K'); rewrite K in K'; clear K; rename K' into K.

(** The captures of a match of the time pattern: the number, and the unit
    up to case. *)
Lemma timeRe_caps (head : regex) (bf af : str) (e : mstate) :
  (forall i, hasGroup i head = false) ->
  matchAt true (timeRe head) bf af = Some e ->
  exists number unit,
    lookupCap 1 (caps e) = Some number /\ lookupCap 3 (caps e) = Some unit /\
    number <> [] /\ forallb isDigit number = true /\
    (ciEqual unit `"minutes" \/ ciEqual unit `"hours").
Proof.
  intros Hhead H. unfold matchAt, timeRe in H. cbn [seqs] in H.
  rewrite rmatch_seq in H. apply rmatch_plain in H; [|exact Hhead].
  destruct H as (s1 & mid1 & H & _ & _ & K). cbn [caps] in K.
  plain_step H s2 K. plain_step H s3 K. plain_step H s4 K. plain_step H s5 K.
  rewrite rmatch_seq in H. unfold digit in H. apply group_class in H.
  destruct H as (s6 & number & H & _ & K6 & Hne & Hdig). rewrite K in K6. clear K.
  rewrite rmatch_seq in H. apply rmatch_trace in H.
  destruct H as (s7 & mid7 & extra & H & _ & _ & K7 & G7). rewrite K6 in K7. clear K6.
  plain_step H s K7. rename K7 into Hcaps.
  rewrite rmatch_grp, rmatch_alt, !rmatch_lit in H. unfold orElse in H.
  assert (Hskip : forall i v, In (i, v) extra -> Nat.eqb 1 i = false /\ Nat.eqb 3 i = false).
  { intros i v Hin. specialize (G7 i v Hin). revert G7. clear.
    cbn [hasGroup opt seqs plus ws digit]. rewrite !orb_false_r. cbn [orb].
    intro G7. apply Nat.eqb_eq in G7. subst i. auto. }
  assert (Hend : forall (q m r : str),
            stripPrefix true q (rest s) = Some (m, r) ->
            Some (setCap 3 (firstn (length (rest s) - length r) (rest s))
                    (MState (rev m ++ consumed s) r (caps s))) = Some e ->
            ciEqual m q /\ lookupCap 1 (caps e) = Some number /\
            lookupCap 3 (caps e) = Some m).
  { intros q m r E He. inversion He; subst e. cbn [setCap caps lookupCap Nat.eqb].
    split; [apply (stripPrefix_ci _ _ _ _ E)|].
    destruct (stripPrefix_app _ _ _ _ _ E) as [Er _].
    rewrite Er, firstn_exact, Hcaps. split; [|reflexivity].
    rewrite lookupCap_skip; [reflexivity|]. intros i v Hin. apply (Hskip i v Hin). }
  destruct (stripPrefix true `"minutes" (rest s)) as [[m r]|] eqn:E1.
  - cbn [rest] in H. destruct (Hend _ m r E1 H) as (Hci & H1 & H3).
    exists number, m. split; [exact H1|]. split; [exact H3|]. split; [exact Hne|].
    split; [apply digit_class; exact Hdig|left; exact Hci].
  - destruct (stripPrefix true `"hours" (rest s)) as [[m r]|] eqn:E2; [|discriminate].
    cbn [rest] in H. destruct (Hend _ m r E2 H) as (Hci & H1 & H3).
    exists number, m. split; [exact H1|]. split; [exact H3|]. split; [exact Hne|].
    split; [apply digit_class; exact Hdig|right; exact Hci].
Qed.

Lemma reExec_at (ic : bool) (r : regex) (s : str) (m : reMatch) :
  reExec ic r s = Some m ->
  exists bf af e, matchAt ic r bf af = Some e /\ m = mkMatch bf af e.
Proof. unfold reExec. apply searchFrom_some. Qed.

(** X16. A time of the recipe details always reads as a number, a space
    and the unit: decimal digits followed by [minutes] or [hours] in lower
    case, whether it was found in the content or is the default. *)
Theorem extractTime_format (content timeType : str) :
  In timeType [`"prep"; `"cook"; `"total"] ->
  exists number unit,
    extractTime content timeType = Ret (number ++ `" " ++ unit) /\
    number <> [] /\ forallb isDigit number = true /\
    (unit = `"minutes" \/ unit = `"hours").
Proof.
  intro Htype.
  assert (Hm : exists head, (forall i, hasGroup i head = false) /\
                 timeMatch content timeType = reExec true (timeRe head) (toLowerCase content)).
  { destruct Htype as [<-|[<-|[<-|[]]]];
      [exists prepHead|exists cookHead|exists totalHead]; split;
      (reflexivity || (intro; reflexivity)). }
  destruct Hm as (head & Hhead & Hm). unfold extractTime. rewrite Hm.
  destruct (reExec true (timeRe head) (toLowerCase content)) as [m|] eqn:E.
  - apply reExec_at in E. destruct E as (bf & af & e & E & ->).
    destruct (timeRe_caps head bf af e Hhead E) as (number & unit & H1 & H3 & Hne & Hd & Hu).
    unfold group, mkMatch. cbn [m_caps]. rewrite H1, H3. cbn [interp].
    exists number, (toLowerCase unit). split; [reflexivity|]. split; [exact Hne|].
    split; [exact Hd|]. unfold ciEqual in Hu. destruct Hu as [-> | ->]; auto.
  - destruct Htype as [<-|[<-|[<-|[]]]].
    + exists `"15", `"minutes". repeat split; auto; discriminate.
    + exists `"30", `"minutes". repeat split; auto; discriminate.
    + exists `"45", `"minutes". repeat split; auto; discriminate.
Qed.

Lemma extractTime_format_witness :
  exists number unit,
    extractTime `"Cooking   Time 2 HOURS" `"cook" = Ret (number ++ `" " ++ unit) /\
    number <> [] /\ forallb isDigit number = true /\
    (unit = `"minutes" \/ unit = `"hours").
Proof.
  apply (extractTime_format `"Cooking   Time 2 HOURS" `"cook"). right. left. reflexivity.
Defined.

(** ** The yield *)

Lemma yieldRe_caps (bf af : str) (e : mstate) :
  matchAt true yieldRe bf af = Some e ->
  exists number,
    lookupCap 1 (caps e) = Some number /\ number <> [] /\ forallb isDigit number = true /\
    (lookupCap 2 (caps e) = None \/
     exists upper, lookupCap 2 (caps e) = Some upper /\ upper <> [] /\
                   forallb isDigit upper = true).
Proof.
  intro H. unfold matchAt, yieldRe in H. cbn [seqs] in H.
  rewrite rmatch_seq in H. apply rmatch_plain in H; [|intro; reflexivity].
  destruct H as (s1 & mid1 & H & _ & _ & K). cbn [caps] in K.
  plain_step H s2 K. plain_step H s3 K.
  rewrite rmatch_seq in H. unfold digit in H. apply group_class in H.
  destruct H as (s4 & number & H & _ & K4 & Hne & Hdig). rewrite K in K4. clear K.
  exists number. unfold opt in H. rewrite rmatch_alt in H. unfold orElse in H.
  match type of H with
  | match ?x with _ => _ end = _ => destruct x as [e'|] eqn:E
  end.
  - inversion H; subst e'. clear H.
    plain_step E s5 K4. plain_step E s6 K4. plain_step E s7 K4.
    apply group_class in E. destruct E as (s8 & upper & E & _ & K8 & Hne' & Hdig').
    inversion E; subst e. rewrite K8, K4. cbn [lookupCap Nat.eqb].
    split; [reflexivity|]. split; [exact Hne|]. split; [apply digit_class; exact Hdig|].
    right. exists upper. split; [reflexivity|]. split; [exact Hne'|].
    apply digit_class. exact Hdig'.
  - cbn [rmatch] in H. inversion H; subst e. rewrite K4. cbn [lookupCap Nat.eqb].
    split; [reflexivity|]. split; [exact Hne|]. split; [apply digit_class; exact Hdig|].
    left. reflexivity.
Qed.

(** X17. The yield always reads as a number of servings, or as a range of
    two numbers of servings: [N servings] or [N-M servings] with decimal
    digits for [N] and [M], whatever unit the content names. *)
Theorem extractYield_format (content : str) :
  exists number,
    number <> [] /\ forallb isDigit number = true /\
    (extractYield content = number ++ `" servings" \/
     exists upper,
       upper <> [] /\ forallb isDigit upper = true /\
       extractYield content = number ++ `"-" ++ upper ++ `" servings").
Proof.
  unfold extractYield. cbv zeta.
  destruct (reExec true yieldRe (toLowerCase content)) as [m|] eqn:E.
  - apply reExec_at in E. destruct E as (bf & af & e & E & ->).
    destruct (yieldRe_caps bf af e E) as (number & H1 & Hne & Hd & H2).
    unfold group, mkMatch. cbn [m_caps]. rewrite H1. cbn [interp].
    exists number. split; [exact Hne|]. split; [exact Hd|].
    destruct H2 as [H2|(upper & H2 & Hne' & Hd')]; rewrite H2; cbn [truthyCap interp].
    + left. reflexivity.
    + right. exists upper. destruct upper as [|u upper]; [congruence|].
      cbn [nonEmpty]. auto.
  - exists `"4". split; [discriminate|]. split; [reflexivity|]. left. reflexivity.
Qed.

(** The leftmost match starts somewhere in the subject. *)
Lemma searchFrom_split (ic : bool) (r : regex) :
  forall af bf m, searchFrom ic r bf af = Some m ->
    exists pre af' e, af = pre ++ af' /\ matchAt ic r (rev pre ++ bf) af' = Some e /\
                      m = mkMatch (rev pre ++ bf) af' e.
Proof.
  induction af as [|x af IH]; intros bf m H; cbn [searchFrom] in H.
  - destruct (matchAt ic r bf []) as [e|] eqn:E; [|discriminate].
    inversion H. exists [], [], e. auto.
  - destruct (matchAt ic r bf (x :: af)) as [e|] eqn:E.
    + inversion H. exists [], (x :: af), e. auto.
    + apply IH in H. destruct H as (pre & af' & e & -> & H & ->).
      exists (x :: pre), af', e. cbn [rev app]. rewrite <- !app_assoc. auto.
Qed.

Lemma colon_only (x : ascii) : ceq true ":" x = true -> x = ":"%char.
Proof. each_ascii x; vm_compute; intro H; (discriminate || reflexivity). Qed.

Lemma app_same_length {A : Type} (a c b d : list A) :
  length a = length c -> a ++ b = c ++ d -> a = c /\ b = d.
Proof.
  revert c. induction a as [|x a IH]; intros [|y c] Hl H; try discriminate; [auto|].
  cbn [app] in H. injection H as -> H. cbn [length] in Hl.
  destruct (IH c ltac:(lia) H) as [-> ->]. auto.
Qed.

Lemma lower_app_inv (s a b : str) :
  toLowerCase s = a ++ b -> toLowerCase a = a /\ toLowerCase b = b.
Proof.
  intro H. assert (Hi : toLowerCase (a ++ b) = a ++ b)
    by (rewrite <- H; apply toLowerCase_idem).
  unfold toLowerCase in *. rewrite map_app in Hi.
  apply app_same_length in Hi; [exact Hi|]. rewrite length_map. reflexivity.
Qed.

(** X18. Without one of the labels [serves:], [servings:], [yield:] and
    [makes:], in any case, the yield is the default, 4 servings. *)
Theorem extractYield_default (content : str) :
  (forall label, In label [`"serves:"; `"servings:"; `"yield:"; `"makes:"] ->
                 includes (toLowerCase content) label = false) ->
  extractYield content = `"4 servings".
Proof.
  intro Hno. unfold extractYield. cbv zeta.
  destruct (reExec true yieldRe (toLowerCase content)) as [m|] eqn:E; [|reflexivity].
  exfalso. unfold reExec in E. apply searchFrom_split in E.
  destruct E as (pre & af & e & Hsplit & E & _).
  apply lower_app_inv in Hsplit as Hlow. destruct Hlow as [_ Hlow].
  unfold matchAt, yieldRe in E. cbn [seqs alts] in E. rewrite rmatch_seq in E.
  assert (Hword : forall w : str,
            rmatch true (lit w)
              (rmatch true
                 (Seq (Chr ":")
                    (Seq (Star true ws)
                       (Seq (Grp 1 (plus true digit))
                          (opt (Seq (Star true ws)
                                  (Seq (Chr "-") (Seq (Star true ws)
                                                      (Grp 2 (plus true digit)))))))))
                 (fun s => Some s))
              (MState (rev pre ++ []) af []) <> None ->
            toLowerCase w = w ->
            includes (toLowerCase content) (w ++ `":") = true).
  { intros w Hw Hlw. rewrite rmatch_lit in Hw. cbn [rest] in Hw.
    destruct (stripPrefix true w af) as [[mid r]|] eqn:Es; [|congruence].
    cbn [rmatch rest] in Hw. destruct r as [|x xs]; [congruence|].
    destruct (ceq true ":" x) eqn:Ex; [|congruence]. apply colon_only in Ex. subst x.
    destruct (stripPrefix_app _ _ _ _ _ Es) as [Eaf _].
    pose proof (stripPrefix_ci _ _ _ _ Es) as Hci. unfold ciEqual in Hci.
    rewrite Eaf in Hlow. unfold toLowerCase in Hlow. rewrite map_app in Hlow.
    apply app_same_length in Hlow; [|rewrite length_map; reflexivity].
    destruct Hlow as [Hmid _]. fold (toLowerCase mid) in Hmid.
    rewrite Hmid, Hlw in Hci. subst mid.
    apply includes_split. exists pre, xs. rewrite Hsplit, Eaf, <- app_assoc. reflexivity. }
  repeat rewrite rmatch_alt in E. unfold orElse in E.
  repeat match type of E with
         | match ?x with _ => _ end = Some _ =>
             let Ew := fresh "Ew" in destruct x eqn:Ew
         end;
    match goal with
    | Ew : rmatch true (lit ?w) _ _ = Some _ |- _ =>
        assert (Hin : includes (toLowerCase content) (w ++ `":") = true)
          by (apply Hword; [congruence|reflexivity]);
        rewrite (Hno (w ++ `":")) in Hin;
          [discriminate|cbn; auto 6]
    | _ => idtac
    end.
Qed.

Lemma extractYield_default_witness :
  extractYield `"Makes 12 cookies, serves 4" = `"4 servings".
Proof.
  apply (extractYield_default `"Makes 12 cookies, serves 4").
  intros label [<-|[<-|[<-|[<-|[]]]]]; reflexivity.
Defined.

(** ** The lists of a recipe *)

Lemma stripPrefix_exact (q s m r : str) :
  stripPrefix false q s = Some (m, r) -> m = q.
Proof.
  revert s m r. induction q as [|c q IH]; intros s m r H; cbn [stripPrefix] in H.
  - inversion H. reflexivity.
  - destruct s as [|x s]; [discriminate|]. cbn [ceq] in H.
    destruct (Ascii.eqb c x) eqn:E; [|discriminate]. apply Ascii.eqb_eq in E. subst x.
    destruct (stripPrefix false q s) as [[m' r']|] eqn:E'; [|discriminate].
    inversion H; subst. rewrite (IH _ _ _ E'). reflexivity.
Qed.

(** The text of a match of an element pattern: the opening tag, what is
    inside, the closing tag. *)
Lemma element_text (open close : str) (inner : regex) (bf af : str) (e : mstate) :
  matchAt false (seqs [lit open; Grp 1 inner; lit close]) bf af = Some e ->
  exists mid, m_text (mkMatch bf af e) = open ++ mid ++ close.
Proof.
  unfold matchAt. cbn [seqs]. rewrite rmatch_seq, rmatch_lit. cbn [rest consumed caps].
  destruct (stripPrefix false open af) as [[m r]|] eqn:E1; [|discriminate].
  destruct (stripPrefix_app _ _ _ _ _ E1) as [Eaf _].
  apply stripPrefix_exact in E1. subst m.
  rewrite rmatch_seq. intro H. apply rmatch_trace in H.
  destruct H as (s2 & mid & extra & H & R2 & _). cbn [rest] in R2.
  rewrite rmatch_lit in H.
  destruct (stripPrefix false close (rest s2)) as [[m2 r2]|] eqn:E2; [|discriminate].
  destruct (stripPrefix_app _ _ _ _ _ E2) as [Es2 _].
  apply stripPrefix_exact in E2. subst m2. inversion H; subst e.
  exists mid. unfold mkMatch. cbn [m_text rest].
  rewrite Eaf, R2, Es2.
  replace (open ++ mid ++ close ++ r2) with ((open ++ mid ++ close) ++ r2)
    by (rewrite <- !app_assoc; reflexivity).
  apply firstn_exact.
Qed.

Lemma matchesFrom_at (ic : bool) (r : regex) :
  forall af bf skip m, In m (matchesFrom ic r bf af skip) ->
    exists bf' af' e, matchAt ic r bf' af' = Some e /\ m = mkMatch bf' af' e.
Proof.
  induction af as [|x af IH]; intros bf skip m H.
  - destruct skip; cbn [matchesFrom] in H; [|destruct H].
    destruct (matchAt ic r bf []) as [e|] eqn:E; [|destruct H].
    destruct H as [<-|[]]. exists bf, [], e. auto.
  - destruct skip; cbn [matchesFrom] in H; [|apply IH in H; exact H].
    destruct (matchAt ic r bf (x :: af)) as [e|] eqn:E.
    + destruct H as [<-|H]; [exists bf, (x :: af), e; auto|]. apply IH in H. exact H.
    + apply IH in H. exact H.
Qed.

Lemma element_matches (open close : str) (inner : regex) (content text : str) :
  In text (reMatchAll false (seqs [lit open; Grp 1 inner; lit close]) content) ->
  exists mid, text = open ++ mid ++ close.
Proof.
  unfold reMatchAll, reMatches. intro H. apply in_map_iff in H.
  destruct H as (m & <- & H). apply matchesFrom_at in H.
  destruct H as (bf & af & e & H & ->). apply (element_text _ _ _ _ _ _ H).
Qed.

Lemma longestOf_in (lists : list str) :
  forall start, fold_left (fun longest list =>
                             if length longest <? length list then list else longest)
                          lists start = start \/
                In (fold_left (fun longest list =>
                                 if length longest <? length list then list else longest)
                              lists start) lists.
Proof.
  induction lists as [|l lists IH]; intro start; [left; reflexivity|].
  cbn [fold_left]. destruct (length start <? length l).
  - destruct (IH l) as [H|H]; [right; left; symmetry; exact H|right; right; exact H].
  - destruct (IH start) as [H|H]; [left; exact H|right; right; exact H].
Qed.

Lemma emptyOr_false (empty v : str) : emptyOr empty v = false -> v <> [] /\ v <> empty.
Proof.
  unfold emptyOr. intro H. apply orb_false_iff in H. destruct H as [H1 H2]. split.
  - intro. subst v. discriminate.
  - intro. subst v. assert (str_eqb empty empty = true) by (apply str_eqb_eq; reflexivity).
    congruence.
Qed.

(** X19. The ingredients of a recipe are always an unordered list with
    something in it, and its instructions an ordered list with something in
    it: the text starts with the opening tag, ends with the closing tag and
    is never the empty list, whatever the content.  The notes are always an
    unordered list. *)
Theorem recipe_lists (content : str) :
  (exists items, extractIngredients content = `"<ul>" ++ items ++ `"</ul>" /\ items <> []) /\
  (exists items, extractInstructions content = `"<ol>" ++ items ++ `"</ol>" /\ items <> []) /\
  (exists items, extractNotes content = `"<ul>" ++ items ++ `"</ul>").
Proof.
  assert (Hfinal : forall (open close v placeholder : str),
            (v = [] \/ exists items, v = open ++ items ++ close) ->
            (exists items, placeholder = open ++ items ++ close /\ items <> []) ->
            exists items,
              (if emptyOr (open ++ close) v then placeholder else v)
              = open ++ items ++ close /\ items <> []).
  { intros open close v placeholder Hv Hp.
    destruct (emptyOr (open ++ close) v) eqn:E; [exact Hp|].
    apply emptyOr_false in E. destruct E as [E1 E2].
    destruct Hv as [Hv|[items Hv]]; [congruence|]. exists items. split; [exact Hv|].
    intro. subst items. apply E2. rewrite Hv. reflexivity. }
  split; [|split].
  - unfold extractIngredients. cbv zeta.
    apply (Hfinal `"<ul>" `"</ul>");
      [|exists `"<li>Ingredient 1</li><li>Ingredient 2</li><li>Ingredient 3</li>";
        split; [reflexivity|discriminate]].
    match goal with
    | |- (if emptyOr _ ?v then _ else _) = [] \/ _ =>
        assert (Hv : v = [] \/ exists items, v = `"<ul>" ++ items ++ `"</ul>");
        [|destruct (emptyOr `"<ul></ul>" v); [|exact Hv]]
    end.
    + destruct (sectionOf ingredientsTitles content) as [section|]; [|left; reflexivity].
      assert (Hlines : forall b : bool,
                (if b then `"<ul>" ++ concat (map ingredientLine (reSplit false brRe section))
                           ++ `"</ul>" else []) = [] \/
                exists items,
                  (if b then `"<ul>" ++ concat (map ingredientLine (reSplit false brRe section))
                             ++ `"</ul>" else []) = `"<ul>" ++ items ++ `"</ul>")
        by (intros [|]; [right; eexists; reflexivity|left; reflexivity]).
      destruct (reExec true ulRe section) as [ulMatch|]; [|apply Hlines].
      destruct (truthyCap (group ulMatch 1)); [|apply Hlines].
      right. eexists. reflexivity.
    + destruct (find isMeasuredList (reMatchAll false ulRe content)) as [list|] eqn:E;
        [|exact Hv].
      apply find_some in E. destruct E as [E _]. right.
      apply (element_matches `"<ul>" `"</ul>" _ _ _ E).
  - unfold extractInstructions. cbv zeta.
    apply (Hfinal `"<ol>" `"</ol>");
      [|exists `"<li>Step 1</li><li>Step 2</li><li>Step 3</li>";
        split; [reflexivity|discriminate]].
    match goal with
    | |- (if emptyOr _ ?v then _ else _) = [] \/ _ =>
        assert (Hv : v = [] \/ exists items, v = `"<ol>" ++ items ++ `"</ol>");
        [|destruct (emptyOr `"<ol></ol>" v); [|exact Hv]]
    end.
    + destruct (sectionOf instructionsTitles content) as [section|]; [|left; reflexivity].
      assert (Hpars : forall b : bool,
                (if b then `"<ol>" ++ concat (map instructionItem
                                                  (reMatchAll false paragraphRe section))
                           ++ `"</ol>" else []) = [] \/
                exists items,
                  (if b then `"<ol>" ++ concat (map instructionItem
                                                    (reMatchAll false paragraphRe section))
                             ++ `"</ol>" else []) = `"<ol>" ++ items ++ `"</ol>")
        by (intros [|]; [right; eexists; reflexivity|left; reflexivity]).
      destruct (reExec true olRe section) as [olMatch|]; [|apply Hpars].
      destruct (truthyCap (group olMatch 1)); [|apply Hpars].
      right. eexists. reflexivity.
    + destruct (reMatchAll false olRe content) as [|l lists] eqn:E; [exact Hv|].
      unfold longestOf. destruct (longestOf_in (l :: lists) []) as [H|H].
      * left. exact H.
      * right.
        match type of H with
        | In ?t _ => assert (Hin : In t (reMatchAll false olRe content))
                       by (rewrite E; exact H)
        end.
        apply (element_matches `"<ol>" `"</ol>" _ _ _ Hin).
  - unfold extractNotes. cbv zeta.
    match goal with
    | |- exists items, (if nonEmpty ?v then _ else _) = _ =>
        assert (Hv : v = [] \/ exists items, v = `"<ul>" ++ items ++ `"</ul>")
    end.
    + destruct (sectionOf notesTitles content) as [section|]; [|left; reflexivity].
      assert (Hpars : (match reMatchAll false paragraphRe section with
                       | [] => []
                       | p :: ps =>
                           `"<ul>" ++ concat (map noteItem (p :: ps)) ++ `"</ul>"
                       end) = [] \/
                exists items,
                  (match reMatchAll false paragraphRe section with
                   | [] => []
                   | p :: ps =>
                       `"<ul>" ++ concat (map noteItem (p :: ps)) ++ `"</ul>"
                   end) = `"<ul>" ++ items ++ `"</ul>")
        by (destruct (reMatchAll false paragraphRe section);
            [left; reflexivity|right; eexists; reflexivity]).
      destruct (reExec true ulRe section) as [ulMatch|]; [|apply Hpars].
      destruct (truthyCap (group ulMatch 1)); [|apply Hpars].
      right. eexists. reflexivity.
    + destruct Hv as [->|[items ->]].
      * exists `"<li>For best results, let the dish rest for 5 minutes before serving.</li>".
        reflexivity.
      * exists items. reflexivity.
Qed.

(** ** The keywords of a recipe *)

Lemma fold_left_same {A B : Type} (f g : A -> B -> A) (l : list B) :
  (forall a x, In x l -> f a x = g a x) ->
  forall a, fold_left f l a = fold_left g l a.
Proof.
  induction l as [|x l IH]; intros H a; [reflexivity|].
  cbn [fold_left]. rewrite (H a x (or_introl eq_refl)).
  apply IH. intros a' y Hy. apply H. right. exact Hy.
Qed.

(** The second loop of [extractKeywords] and the final clean-up, over any
    test of the common keywords. *)
Lemma commonKeywords_listed (hit : str -> bool) :
  replaceFirst false leadingCommaRe []
    (fold_left (fun acc keyword =>
                  if hit keyword && negb (includes acc keyword)
                  then acc ++ `", " ++ keyword else acc)
               commonKeywords [])
  = join `", " (filter hit commonKeywords).
Proof.
  remember (hit `"homemade") as b0. remember (hit `"easy") as b1.
  remember (hit `"delicious") as b2. remember (hit `"quick") as b3.
  remember (hit `"healthy") as b4. remember (hit `"family") as b5.
  remember (hit `"dinner") as b6. remember (hit `"recipe") as b7.
  remember (hit `"best") as b8. remember (hit `"traditional") as b9.
  pose (tab := fun k : str =>
          if str_eqb k `"homemade" then b0 else if str_eqb k `"easy" then b1
          else if str_eqb k `"delicious" then b2 else if str_eqb k `"quick" then b3
          else if str_eqb k `"healthy" then b4 else if str_eqb k `"family" then b5
          else if str_eqb k `"dinner" then b6 else if str_eqb k `"recipe" then b7
          else if str_eqb k `"best" then b8 else b9).
  assert (Htab : forall k, In k commonKeywords -> hit k = tab k).
  { intros k Hin. unfold commonKeywords in Hin.
    repeat (destruct Hin as [<-|Hin]; [subst; reflexivity|]). destruct Hin. }
  rewrite (fold_left_same _
             (fun acc keyword =>
                if tab keyword && negb (includes acc keyword)
                then acc ++ `", " ++ keyword else acc))
    by (intros a x Hx; rewrite (Htab x Hx); reflexivity).
  rewrite (filter_ext_in hit tab commonKeywords Htab).
  clear Htab Heqb0 Heqb1 Heqb2 Heqb3 Heqb4 Heqb5 Heqb6 Heqb7 Heqb8 Heqb9. clear hit.
  destruct b0, b1, b2, b3, b4, b5, b6, b7, b8, b9; vm_compute; reflexivity.
Qed.

(** X20. For content without markup the extracted keywords are the common
    recipe keywords that occur in the content, up to case, in the order of
    the table and joined by a comma and a space; the Keywords field of the
    recipe is the keyword of the article with this list put directly after
    it, without a separator. *)
Theorem extractKeywords_plain (content keyword : str) :
  avoids `"<" content = true ->
  extractKeywords content
  = join `", " (filter (fun k => includes (toLowerCase content) k) commonKeywords) /\
  forall recipe,
    extractRecipeData content keyword = Ret (Some recipe) ->
    Keywords recipe
    = keyword ++ join `", " (filter (fun k => includes (toLowerCase content) k)
                                    commonKeywords).
Proof.
  intro Hplain.
  assert (Hk : extractKeywords content
               = join `", " (filter (fun k => includes (toLowerCase content) k)
                                    commonKeywords)).
  { unfold extractKeywords. cbv zeta.
    rewrite (no_markup_matchAll false headerRe content eq_refl Hplain).
    cbn [fold_left].
    apply (commonKeywords_listed (fun k => includes (toLowerCase content) k)). }
  split; [exact Hk|]. intros recipe H.
  destruct (indicatorCount content <? 3) eqn:E.
  - unfold extractRecipeData in H. rewrite E in H. discriminate.
  - destruct (extractRecipeData_some content keyword E) as (p & c & t & _ & _ & _ & H').
    rewrite H' in H. inversion H. cbn [Keywords]. rewrite Hk. reflexivity.
Qed.

Lemma extractKeywords_plain_witness :
  extractKeywords `"An EASY recipe, the best for a quick dinner."
  = `"easy, quick, dinner, recipe, best".
Proof.
  destruct (extractKeywords_plain `"An EASY recipe, the best for a quick dinner." `"cake"
              eq_refl) as [H _].
  rewrite H. reflexivity.
Defined.

(** ** The publication formatter: nothing to format *)

Lemma dropSpace_blank (s : str) : forallb isSpace s = true -> dropSpace s = [].
Proof.
  induction s as [|x s IH]; [reflexivity|]. cbn [forallb dropSpace]. intro H.
  apply andb_true_iff in H. destruct H as [Hx H]. rewrite Hx. apply IH. exact H.
Qed.

Lemma trim_blank (s : str) : forallb isSpace s = true -> trim s = [].
Proof. intro H. unfold trim. rewrite (dropSpace_blank s H). reflexivity. Qed.

Lemma forallb_rev_true {A : Type} (p : A -> bool) (l : list A) :
  forallb p l = true -> forallb p (rev l) = true.
Proof.
  intro H. rewrite forallb_forall in *. intros x Hx. apply H. apply in_rev. exact Hx.
Qed.

Lemma blank_pieces (l : list str) :
  (forall p, In p l -> forallb isSpace p = true) -> filter nonEmpty (map trim l) = [].
Proof.
  induction l as [|p l IH]; intro H; [reflexivity|].
  cbn [map filter]. rewrite (trim_blank p (H p (or_introl eq_refl))). cbn [nonEmpty].
  apply IH. intros q Hq. apply H. right. exact Hq.
Qed.

Lemma splitOn_go_blank (sep : str) :
  forall s skip cur,
    forallb isSpace s = true -> forallb isSpace cur = true ->
    forall piece, In piece (splitOn_go sep s skip cur) -> forallb isSpace piece = true.
Proof.
  induction s as [|x s IH]; intros skip cur Hs Hcur piece Hin; cbn [splitOn_go] in Hin.
  - destruct Hin as [<-|[]]. apply forallb_rev_true. exact Hcur.
  - cbn [forallb] in Hs. apply andb_true_iff in Hs. destruct Hs as [Hx Hs].
    destruct skip as [|k]; [|apply (IH k cur Hs Hcur piece Hin)].
    destruct (startsWith (x :: s) sep).
    + destruct Hin as [<-|Hin]; [apply forallb_rev_true; exact Hcur|].
      apply (IH _ [] Hs (eq_refl true) piece Hin).
    + apply (IH 0 (x :: cur) Hs); [|exact Hin]. cbn [forallb]. rewrite Hx, Hcur. reflexivity.
Qed.

Lemma blank_plain (s : str) : forallb isSpace s = true -> avoids `"<" s = true.
Proof.
  intro H. unfold avoids. rewrite forallb_forall in *. intros c Hc. specialize (H c Hc).
  revert H. clear. each_ascii c; vm_compute; congruence.
Qed.

(** X21. With nothing to format the result is the empty string: for every
    falsy input ([undefined], [null], [false], [0], the empty string) and for
    every string of white space only. *)
Theorem formatContentForWordPress_blank (content : jsval) :
  (truthy content = false \/
   exists text, content = VString text /\ forallb isSpace text = true) ->
  formatContentForWordPress content = Ret [].
Proof.
  intros [H|(text & -> & H)].
  - rewrite (formatContentForWordPress_string content []); [reflexivity|].
    unfold stringOrEmpty. rewrite H. reflexivity.
  - rewrite (formatContentForWordPress_string (VString text) text).
    + f_equal. unfold formatString, reTest.
      rewrite (no_markup_exec true htmlTagRe text eq_refl (blank_plain text H)).
      unfold formatText, paragraphsOf.
      assert (Hp : filter nonEmpty (map trim (splitOn text (nl ++ nl))) = []).
      { apply blank_pieces. intros p Hp. unfold splitOn in Hp.
        apply (splitOn_go_blank (nl ++ nl) text 0 [] H (eq_refl true) p Hp). }
      rewrite Hp. reflexivity.
    + unfold stringOrEmpty. destruct text as [|c t]; reflexivity.
Qed.

(** ** The publication formatter: content with tags *)

Lemma definiteFail_strip (ic : bool) (q : str) :
  forall s out, definiteFail ic q s = true -> stripPrefix ic q (s ++ out) = None.
Proof.
  induction q as [|c q IH]; intros s out H; [destruct s; discriminate|].
  destruct s as [|x s]; [discriminate|]. cbn [definiteFail] in H.
  cbn [app stripPrefix]. destruct (ceq ic c x); [|reflexivity].
  rewrite (IH s out H). reflexivity.
Qed.

Lemma noStart_check (ic : bool) (q s : str) : allFail ic q s = true -> noStart ic q s.
Proof.
  intros H a. revert s H. induction a as [|x a IH]; intros s H b out E Hb.
  - cbn [app] in E. subst b. destruct s as [|y s]; [congruence|].
    cbn [allFail] in H. apply andb_true_iff in H. destruct H as [H _].
    apply definiteFail_strip. exact H.
  - destruct s as [|y s]; [discriminate|]. cbn [app] in E. injection E as -> E.
    cbn [allFail] in H. apply andb_true_iff in H. destruct H as [_ H].
    apply (IH s H b out E Hb).
Qed.

Lemma noStart_plain (ic : bool) (c : ascii) (q s : str) :
  canon c = c -> toLowerChar c = c -> avoids [c] s = true -> noStart ic (c :: q) s.
Proof.
  intros Hc Hl Hav a b out E Hb. subst s. apply avoids_app in Hav. destruct Hav as [_ Hav].
  destruct b as [|x b]; [congruence|]. apply avoids_tail in Hav. destruct Hav as [Hx _].
  cbn [app stripPrefix]. rewrite (foreign_ceq ic c x Hc Hl Hx). reflexivity.
Qed.

Lemma noStart_app (ic : bool) (q s t : str) :
  noStart ic q s -> noStart ic q t -> noStart ic q (s ++ t).
Proof.
  intros Hs Ht a b out E Hb. apply app_eq_app in E.
  destruct E as [l [[E1 E2]|[E1 E2]]].
  - destruct l as [|y l].
    + rewrite app_nil_r in E1. cbn [app] in E2. subst. apply (Ht [] t out eq_refl Hb).
    + subst b. rewrite <- app_assoc. apply (Hs a (y :: l) (t ++ out) E1). discriminate.
  - subst a. apply (Ht l b out E2 Hb).
Qed.

(** A pattern that begins with a literal changes nothing in a stretch of
    text where the literal does not start. *)
Lemma replaceFrom_noStart (ic : bool) (q : str) (r : regex) (subst : reMatch -> str) :
  forall s bf out,
    noStart ic q s ->
    replaceFrom ic (Seq (lit q) r) subst bf (s ++ out) 0
    = s ++ replaceFrom ic (Seq (lit q) r) subst (rev s ++ bf) out 0.
Proof.
  induction s as [|x s IH]; intros bf out H; [reflexivity|].
  cbn [app replaceFrom]. unfold matchAt. rewrite rmatch_seq, rmatch_lit. cbn [rest].
  pose proof (H [] (x :: s) out eq_refl ltac:(discriminate)) as H0.
  cbn [app] in H0. rewrite H0.
  f_equal. rewrite IH.
  - cbn [rev]. rewrite <- app_assoc. reflexivity.
  - intros a b out' E Hb. apply (H (x :: a) b out'); [cbn [app]; rewrite E; reflexivity|exact Hb].
Qed.

Lemma replaceFrom_end (ic : bool) (c : ascii) (q : str) (r : regex)
    (subst : reMatch -> str) (bf : str) :
  replaceFrom ic (Seq (lit (c :: q)) r) subst bf [] 0 = [].
Proof. reflexivity. Qed.

Lemma replaceFrom_pass (ic : bool) (r : regex) (subst : reMatch -> str) (a b : str) :
  forall bf, replaceFrom ic r subst bf (a ++ b) (length a)
             = replaceFrom ic r subst (rev a ++ bf) b 0.
Proof.
  induction a as [|x a IH]; intro bf; [reflexivity|].
  cbn [app length replaceFrom rev]. rewrite IH, <- app_assoc. reflexivity.
Qed.

(** A match that reads [mt] is replaced, and the search goes on after
    it. *)
Lemma replaceFrom_hit (ic : bool) (r : regex) (subst : reMatch -> str)
    (bf mt out : str) (e : mstate) :
  matchAt ic r bf (mt ++ out) = Some e -> rest e = out -> mt <> [] ->
  replaceFrom ic r subst bf (mt ++ out) 0
  = subst (mkMatch bf (mt ++ out) e) ++ replaceFrom ic r subst (rev mt ++ bf) out 0.
Proof.
  intros H R Hne. destruct mt as [|x mt]; [congruence|].
  cbn [app replaceFrom]. change (x :: mt ++ out) with ((x :: mt) ++ out). rewrite H, R.
  f_equal. rewrite length_app.
  replace (length (x :: mt) + length out - length out) with (S (length mt))
    by (cbn [length]; lia).
  rewrite replaceFrom_pass. cbn [rev]. rewrite <- app_assoc. reflexivity.
Qed.

(** A lazy repetition of [.] stops at the first position where what
    follows matches. *)
Lemma lazy_dot (ic : bool) (k : cont) :
  forall run fuel s tail e,
    rest s = run ++ tail ->
    forallb (fun x => negb (isLineTerminator x)) run = true ->
    (forall a b, run = a ++ b -> b <> [] ->
                 k (MState (rev a ++ consumed s) (b ++ tail) (caps s)) = None) ->
    length (rest s) < fuel ->
    k (MState (rev run ++ consumed s) tail (caps s)) = Some e ->
    starLoop (rmatch ic Dot) false k fuel s = Some e.
Proof.
  induction run as [|x run IH]; intros fuel s tail e R Hrun Hfail Hfuel Hk;
    (destruct fuel as [|f]; [lia|]); destruct s as [cs rs ks];
    cbn [rest consumed caps] in *; subst rs; cbn [starLoop orElse].
  - cbn [rev app] in *. rewrite Hk. reflexivity.
  - pose proof (Hfail [] (x :: run) eq_refl ltac:(discriminate)) as H0.
    cbn [rev app] in H0. cbn [app]. rewrite H0. cbn [rmatch rest].
    cbn [forallb] in Hrun. apply andb_true_iff in Hrun. destruct Hrun as [Hx Hrun].
    apply negb_true_iff in Hx. cbn [app]. rewrite Hx. unfold step. cbn [rest consumed caps].
    replace (length (run ++ tail) <? length (x :: run ++ tail)) with true
      by (symmetry; apply Nat.ltb_lt; cbn [length]; lia).
    apply (IH f _ tail e); cbn [rest consumed caps].
    + reflexivity.
    + exact Hrun.
    + intros a b E Hb. pose proof (Hfail (x :: a) b) as H1.
      cbn [rev app] in H1. rewrite <- app_assoc in H1. cbn [app] in H1.
      apply H1; [rewrite E; reflexivity|exact Hb].
    + cbn [app length] in Hfuel. lia.
    + cbn [rev] in Hk. rewrite <- app_assoc in Hk. exact Hk.
Qed.

Lemma ciEqual_refl (s : str) : ciEqual s s.
Proof. reflexivity. Qed.

(** An element on one line, without a tag inside, is matched whole by its
    pattern. *)
Lemma element_hit (open close inner bf out : str) :
  avoids `"<" inner = true ->
  forallb (fun x => negb (isLineTerminator x)) inner = true ->
  matchAt true (seqs [lit open; Grp 1 (Star false Dot); lit ("<"%char :: close)]) bf
          (open ++ inner ++ ("<"%char :: close) ++ out)
  = Some (MState (rev (open ++ inner ++ "<"%char :: close) ++ bf) out [(1, inner)]).
Proof.
  intros Hav Hline. unfold matchAt. cbn [seqs].
  rewrite rmatch_seq, rmatch_lit. cbn [rest consumed caps].
  rewrite (stripPrefix_of_ci open _ open (ciEqual_refl open)).
  rewrite rmatch_seq, rmatch_grp. cbn [rmatch rest].
  apply (lazy_dot true _ inner _ _ (("<"%char :: close) ++ out)).
  - reflexivity.
  - exact Hline.
  - intros a b E Hb. cbn [rest consumed caps]. rewrite rmatch_lit. cbn [rest].
    destruct b as [|x b]; [congruence|].
    subst inner. apply avoids_app in Hav. destruct Hav as [_ Hav].
    apply avoids_tail in Hav. destruct Hav as [Hx _].
    unfold setCap. cbn [rest consumed caps app stripPrefix]. rewrite (foreign_ceq true "<" x eq_refl eq_refl Hx). reflexivity.
  - cbn [rest]. lia.
  - cbn [rest consumed caps]. rewrite rmatch_lit. unfold setCap. cbn [rest consumed caps].
    rewrite (stripPrefix_of_ci ("<"%char :: close) out _ (ciEqual_refl _)).
    rewrite firstn_exact. f_equal. f_equal.
    rewrite !rev_app_distr, <- !app_assoc. reflexivity.
Qed.

Lemma getSubstitution_plain_app (n : nat) (m : reMatch) (a t : str) :
  avoids `"$" a = true -> getSubstitution n m (a ++ t) = a ++ getSubstitution n m t.
Proof.
  induction a as [|c a IH]; intro H; [reflexivity|].
  apply avoids_cons in H. destruct H as [H1 H2].
  cbn [app getSubstitution]. unfold isChar.
  simpl in H1. rewrite orb_false_r in H1. rewrite H1, (IH H2). reflexivity.
Qed.

(** The replacement text of an element pattern: the block markers around
    the first capture. *)
Lemma wrapper_text (m : reMatch) (open close : str) :
  avoids `"$" open = true -> avoids `"$" close = true ->
  getSubstitution 1 m (open ++ `"$1" ++ "<"%char :: close)
  = open ++ capText m 1 ++ "<"%char :: close.
Proof.
  intros Ho Hc. rewrite (getSubstitution_plain_app 1 m open _ Ho).
  change (`"$1" ++ "<"%char :: close) with ("$"%char :: "1"%char :: "<"%char :: close).
  change (getSubstitution 1 m ("$"%char :: "1"%char :: "<"%char :: close))
    with (capText m 1 ++ getSubstitution 1 m ("<"%char :: close)).
  rewrite (getSubstitution_plain 1 m ("<"%char :: close)); [reflexivity|].
  exact Hc.
Qed.

Lemma replaceFrom_untouched (ic : bool) (c : ascii) (q : str) (r : regex)
    (subst : reMatch -> str) (s bf : str) :
  noStart ic (c :: q) s -> replaceFrom ic (Seq (lit (c :: q)) r) subst bf s 0 = s.
Proof.
  intro H. rewrite <- (app_nil_r s) at 1. rewrite (replaceFrom_noStart ic (c :: q) r subst s bf [] H).
  rewrite replaceFrom_end. apply app_nil_r.
Qed.

Lemma anyChar_all (ic : bool) (s : str) :
  forallb (clsMatches ic false [CSpace; CNotSpace]) s = true.
Proof.
  apply forallb_forall. intros x _. unfold clsMatches. cbn.
  destruct (isSpace x); reflexivity.
Qed.

(** A greedy repetition gives back its last code unit when what follows
    the repetition needs it. *)
Lemma star_back (ic neg : bool) (items : list citem) (k : cont) :
  forall run fuel s x e,
    rest s = run ++ [x] ->
    forallb (clsMatches ic neg items) (run ++ [x]) = true ->
    length (rest s) < fuel ->
    k (MState (x :: rev run ++ consumed s) [] (caps s)) = None ->
    k (MState (rev run ++ consumed s) [x] (caps s)) = Some e ->
    starLoop (rmatch ic (Cls neg items)) true k fuel s = Some e.
Proof.
  induction run as [|y run IH]; intros fuel s x e R Hrun Hfuel Hend Hk;
    (destruct fuel as [|f]; [lia|]); destruct s as [cs rs ks];
    cbn [rest consumed caps] in *; subst rs; cbn [starLoop orElse app rev] in *;
    rewrite rmatch_cls; cbn [rest]; cbn [forallb] in Hrun;
    apply andb_true_iff in Hrun; destruct Hrun as [Hy Hrun]; rewrite Hy;
    unfold step; cbn [rest consumed caps].
  - cbn [length]. replace (0 <? 1) with true by reflexivity.
    destruct f as [|f']; [cbn [length] in Hfuel; lia|].
    cbn [starLoop]. rewrite rmatch_cls. cbn [rest orElse]. rewrite Hend.
    cbn [orElse]. exact Hk.
  - replace (length (run ++ [x]) <? length (y :: run ++ [x])) with true
      by (symmetry; apply Nat.ltb_lt; cbn [length]; lia).
    rewrite (IH f (MState (y :: cs) (run ++ [x]) ks) x e); cbn [rest consumed caps].
    + reflexivity.
    + reflexivity.
    + exact Hrun.
    + cbn [length] in Hfuel. lia.
    + rewrite <- app_assoc in Hend. exact Hend.
    + rewrite <- app_assoc in Hk. exact Hk.
Qed.

(** Text that opens with [<h] and closes with [>] is taken to have
    tags. *)
Lemma tagged (run : str) : reTest true htmlTagRe (`"<h" ++ run ++ `">") = true.
Proof.
  unfold reTest, reExec.
  change (`"<h" ++ run ++ `">") with ("<"%char :: "h"%char :: run ++ [">"%char]).
  cbn [searchFrom].
  assert (H : matchAt true htmlTagRe [] ("<"%char :: "h"%char :: run ++ [">"%char])
              = Some (MState (rev ("<"%char :: "h"%char :: run ++ [">"%char])) [] [])).
  { unfold matchAt, htmlTagRe. cbn [seqs]. rewrite rmatch_seq.
    eapply chr_ok; [reflexivity|reflexivity|]. unfold step. cbn [rest consumed caps].
    rewrite rmatch_seq. apply opt_skip; [reflexivity|].
    rewrite rmatch_seq, rmatch_cls. cbn [rest].
    replace (clsMatches true false [CRange "a" "z"] "h") with true by reflexivity.
    unfold step. cbn [rest consumed caps]. rewrite rmatch_seq. unfold anyChar. cbn [rmatch].
    apply (star_back true false [CSpace; CNotSpace] _ run _ _ ">"%char); cbn [rest consumed caps].
    - reflexivity.
    - apply anyChar_all.
    - lia.
    - reflexivity.
    - cbn [rmatch rest]. replace (ceq true ">" ">") with true by reflexivity.
      unfold step. cbn [rest consumed caps]. f_equal. f_equal.
      cbn [rev]. rewrite rev_app_distr. cbn [rev app]. rewrite <- !app_assoc. reflexivity. }
  rewrite H. reflexivity.
Qed.

Lemma groupCount_lit (q : str) : groupCount (lit q) = 0.
Proof. induction q as [|c q IH]; [reflexivity|]. cbn [lit groupCount]. exact IH. Qed.

Ltac checked := apply noStart_check; vm_compute; reflexivity.
Ltac plain H := apply noStart_plain; [reflexivity|reflexivity|exact H].

(** One pass that wraps the element [open inner close] found after [pre],
    where the opening tag starts nowhere else. *)
Lemma wrap_pass (c : ascii) (open close wopen wclose pre inner post : str) :
  avoids `"<" inner = true ->
  forallb (fun x => negb (isLineTerminator x)) inner = true ->
  avoids `"$" wopen = true -> avoids `"$" wclose = true ->
  noStart true (c :: open) pre -> noStart true (c :: open) post ->
  replaceAll true (seqs [lit (c :: open); Grp 1 (Star false Dot); lit ("<"%char :: close)])
             (wopen ++ `"$1" ++ "<"%char :: wclose)
             (pre ++ ((c :: open) ++ inner ++ "<"%char :: close) ++ post)
  = pre ++ (wopen ++ inner ++ "<"%char :: wclose) ++ post.
Proof.
  intros Hav Hline Hwo Hwc Hpre Hpost. unfold replaceAll. cbn [seqs].
  rewrite (replaceFrom_noStart true (c :: open) _ _ pre [] _ Hpre). f_equal.
  pose proof (element_hit (c :: open) close inner (rev pre ++ []) post Hav Hline) as Hhit.
  cbn [seqs] in Hhit.
  replace (((c :: open) ++ inner ++ "<"%char :: close) ++ post)
    with ((c :: open) ++ inner ++ ("<"%char :: close) ++ post)
    by (rewrite <- !app_assoc; reflexivity).
  replace ((c :: open) ++ inner ++ ("<"%char :: close) ++ post)
    with (((c :: open) ++ inner ++ "<"%char :: close) ++ post) in *
    by (rewrite <- !app_assoc; reflexivity).
  rewrite (replaceFrom_hit true _ _ _ _ post _ Hhit eq_refl ltac:(discriminate)).
  rewrite (replaceFrom_untouched true c open _ _ post _ Hpost).
  f_equal. cbn [groupCount lit plus]. rewrite !groupCount_lit. cbn [Nat.add].
  rewrite (wrapper_text _ wopen wclose Hwo Hwc).
  unfold capText, group, mkMatch. cbn [m_caps caps lookupCap Nat.eqb].
  reflexivity.
Qed.

(** X22. Content made of a level-2 heading and a paragraph, each on one
    line and without a tag inside, is turned into a heading block and a
    paragraph block around the same texts, the texts taken as they are
    (dollar signs included). *)
Theorem formatContentForWordPress_elements (heading text : str) :
  avoids `"<" heading = true -> avoids `"<" text = true ->
  forallb (fun x => negb (isLineTerminator x)) heading = true ->
  forallb (fun x => negb (isLineTerminator x)) text = true ->
  formatContentForWordPress
    (VString (`"<h2>" ++ heading ++ `"</h2>" ++ `"<p>" ++ text ++ `"</p>"))
  = Ret (h2Open ++ heading ++ h2Close ++ pOpen ++ text ++ pClose).
Proof.
  intros Hh Ht Lh Lt.
  rewrite (formatContentForWordPress_string
             (VString (`"<h2>" ++ heading ++ `"</h2>" ++ `"<p>" ++ text ++ `"</p>"))
             (`"<h2>" ++ heading ++ `"</h2>" ++ `"<p>" ++ text ++ `"</p>") eq_refl).
  f_equal. unfold formatString.
  replace (reTest true htmlTagRe (`"<h2>" ++ heading ++ `"</h2>" ++ `"<p>" ++ text ++ `"</p>"))
    with true.
  2:{ symmetry.
      replace (`"<h2>" ++ heading ++ `"</h2>" ++ `"<p>" ++ text ++ `"</p>")
        with (`"<h" ++ (`"2>" ++ heading ++ `"</h2>" ++ `"<p>" ++ text ++ `"</p") ++ `">")
        by (cbn [app]; rewrite <- !app_assoc; reflexivity).
      apply tagged. }
  unfold wrapElements. cbv zeta.
  assert (P1 : replaceAll true (lineElementRe "h2") (h2Open ++ `"$1" ++ h2Close)
                 (`"<h2>" ++ heading ++ `"</h2>" ++ `"<p>" ++ text ++ `"</p>")
               = h2Open ++ heading ++ h2Close ++ `"<p>" ++ text ++ `"</p>").
  { pose proof (wrap_pass "<" `"h2>" `"/h2>" h2Open `"/h2><!-- /wp:heading -->" []
                  heading (`"<p>" ++ text ++ `"</p>") Hh Lh eq_refl eq_refl) as H.
    cbn [app] in H. rewrite <- !app_assoc in H. cbn [app] in H.
    apply H.
    - intros a b out E Hb. destruct a; [|discriminate]. cbn [app] in E. congruence.
    - apply (noStart_app true _ `"<p>"); [checked|].
      apply noStart_app; [plain Ht|checked]. }
  rewrite P1. clear P1.
  assert (P2 : replaceAll true (lineElementRe "h3") (h3Open ++ `"$1" ++ h3Close)
                 (h2Open ++ heading ++ h2Close ++ `"<p>" ++ text ++ `"</p>")
               = h2Open ++ heading ++ h2Close ++ `"<p>" ++ text ++ `"</p>").
  { apply (replaceFrom_untouched true "<" `"h3>").
    apply noStart_app; [checked|]. apply noStart_app; [plain Hh|].
    apply noStart_app; [checked|]. apply (noStart_app true _ `"<p>"); [checked|].
    apply noStart_app; [plain Ht|checked]. }
  rewrite P2. clear P2.
  assert (P3 : replaceAll true (lineElementRe "p") (pOpen ++ `"$1" ++ pClose)
                 (h2Open ++ heading ++ h2Close ++ `"<p>" ++ text ++ `"</p>")
               = h2Open ++ heading ++ h2Close ++ pOpen ++ text ++ pClose).
  { pose proof (wrap_pass "<" `"p>" `"/p>" pOpen `"/p><!-- /wp:paragraph -->"
                  (h2Open ++ heading ++ h2Close) text [] Ht Lt eq_refl eq_refl) as H.
    rewrite !app_nil_r in H. rewrite <- !app_assoc in H.
    apply H.
    - apply noStart_app; [checked|]. apply noStart_app; [plain Hh|checked].
    - intros a b out E Hb. destruct a; [|discriminate]. cbn [app] in E. congruence. }
  rewrite P3. clear P3.
  assert (Hdoc : forall q : str,
            allFail true ("<"%char :: q) h2Open = true ->
            allFail true ("<"%char :: q) (h2Close ++ pOpen) = true ->
            allFail true ("<"%char :: q) pClose = true ->
            noStart true ("<"%char :: q)
                    (h2Open ++ heading ++ h2Close ++ pOpen ++ text ++ pClose)).
  { intros q A1 A2 A3.
    apply noStart_app; [apply noStart_check; exact A1|].
    apply noStart_app; [plain Hh|].
    rewrite (app_assoc h2Close). rewrite (app_assoc (h2Close ++ pOpen)).
    apply noStart_app; [|apply noStart_check; exact A3].
    apply noStart_app; [apply noStart_check; exact A2|plain Ht]. }
  assert (P4 : replaceAll true (blockElementRe "ul") (ulOpen ++ `"$1" ++ ulClose)
                 (h2Open ++ heading ++ h2Close ++ pOpen ++ text ++ pClose)
               = h2Open ++ heading ++ h2Close ++ pOpen ++ text ++ pClose).
  { apply (replaceFrom_untouched true "<" `"ul>").
    apply Hdoc; vm_compute; reflexivity. }
  rewrite P4. clear P4.
  apply (replaceFrom_untouched true "<" `"ol>").
  apply Hdoc; vm_compute; reflexivity.
Qed.

Lemma formatContentForWordPress_elements_witness :
  formatContentForWordPress (VString `"<h2>Tea for $1</h2><p>It costs $5 & more.</p>")
  = Ret (h2Open ++ `"Tea for $1" ++ h2Close ++ pOpen ++ `"It costs $5 & more." ++ pClose).
Proof.
  apply (formatContentForWordPress_elements `"Tea for $1" `"It costs $5 & more.");
    reflexivity.
Defined.

Lemma formatContentForWordPress_blank_witness :
  formatContentForWordPress VNull = Ret [] /\
  formatContentForWordPress (VString (`"  " ++ nl ++ nl ++ `" ")) = Ret [].
Proof.
  split.
  - apply formatContentForWordPress_blank. left. reflexivity.
  - apply formatContentForWordPress_blank. right. eexists. split; reflexivity.
Defined.

(** ** The keyword sheet *)

Lemma str_eqb_refl (a : str) : str_eqb a a = true.
Proof. apply str_eqb_eq. reflexivity. Qed.

Lemma str_eqb_neq (a b : str) : a <> b -> str_eqb a b = false.
Proof.
  intro H. destruct (str_eqb a b) eqn:E; [|reflexivity].
  apply str_eqb_eq in E. contradiction.
Qed.

Lemma getCell_setCell_same (r : row) (key : str) (v : cell) :
  getCell (setCell r key v) key = Some v.
Proof.
  induction r as [|[k w] r IH]; cbn [setCell getCell].
  - rewrite str_eqb_refl. reflexivity.
  - destruct (str_eqb k key) eqn:E; cbn [getCell]; rewrite E; [reflexivity|exact IH].
Qed.

Lemma getCell_setCell_other (r : row) (key key' : str) (v : cell) :
  key <> key' -> getCell (setCell r key v) key' = getCell r key'.
Proof.
  intro Hne. induction r as [|[k w] r IH]; cbn [setCell getCell].
  - rewrite (str_eqb_neq key key' Hne). reflexivity.
  - destruct (str_eqb k key) eqn:E; cbn [getCell].
    + apply str_eqb_eq in E. subst k. rewrite (str_eqb_neq key key' Hne). reflexivity.
    + rewrite IH. reflexivity.
Qed.

Lemma filterRows_in (p : row -> xlError + bool) (data rows : list row) :
  filterRows p data = inr rows ->
  forall r, In r rows <-> In r data /\ p r = inr true.
Proof.
  revert rows. induction data as [|d data IH]; intros rows H r; cbn [filterRows] in H.
  - inversion H. split; [intros []|intros [[] _]].
  - destruct (p d) as [e|keep] eqn:Ed; [discriminate|].
    destruct (filterRows p data) as [e|rows'] eqn:Ef; [discriminate|].
    inversion H; subst rows. specialize (IH rows' eq_refl r).
    destruct keep; cbn [In]; rewrite ?IH; split.
    + intros [<-|[H1 H2]]; auto.
    + intros [[<-|H1] H2]; auto.
    + intros [H1 H2]; auto.
    + intros [[<-|H1] H2]; [congruence|auto].
Qed.

(** X23. When the read succeeds its rows are rows of the sheet that have
    a keyword and whose status is not [published] in any case; and every row
    of the sheet with a keyword and without a status, or with an empty one,
    is among them. *)
Theorem readKeywordsFromExcel_rows (data rows : list row) (filePath keywordColumn : str) :
  readKeywordsFromExcel (Some data) filePath keywordColumn = inr rows ->
  (forall r, In r rows ->
     In r data /\ truthyCell (getCell r keywordColumn) = true /\
     forall status, getCell r `"Status" = Some (CStr status) ->
                    toLowerCase status <> `"published") /\
  (forall r, In r data -> truthyCell (getCell r keywordColumn) = true ->
             truthyCell (getCell r `"Status") = false -> In r rows).
Proof.
  intro H. unfold readKeywordsFromExcel in H.
  assert (Hf : filterRows (isPending keywordColumn) data = inr rows)
    by (destruct data; [inversion H; reflexivity|exact H]).
  clear H. pose proof (filterRows_in _ _ _ Hf) as Hin. split.
  - intros r Hr. apply Hin in Hr. destruct Hr as [Hd Hp]. split; [exact Hd|].
    unfold isPending in Hp.
    destruct (truthyCell (getCell r keywordColumn)); [|discriminate].
    split; [reflexivity|]. intros status Hs. rewrite Hs in Hp. cbn [truthyCell] in Hp.
    destruct (nonEmpty status) eqn:En; cbn [negb] in Hp.
    + injection Hp as Hq. apply negb_true_iff in Hq. intro E. rewrite E in Hq.
      vm_compute in Hq. discriminate.
    + destruct status; [discriminate|discriminate].
  - intros r Hd Hk Hs. apply Hin. split; [exact Hd|].
    unfold isPending. rewrite Hk, Hs. reflexivity.
Qed.

Lemma readKeywordsFromExcel_rows_witness :
  let published := [(`"Keyword", CStr `"tea"); (`"Status", CStr `"PUBLISHED")] in
  let fresh := [(`"Keyword", CStr `"cake")] in
  readKeywordsFromExcel (Some [published; fresh]) `"keywords.xlsx" `"Keyword"
  = inr [fresh] /\
  (forall r, In r [fresh] ->
     In r [published; fresh] /\ truthyCell (getCell r `"Keyword") = true /\
     forall status, getCell r `"Status" = Some (CStr status) ->
                    toLowerCase status <> `"published").
Proof.
  intros published fresh. split; [reflexivity|].
  apply (readKeywordsFromExcel_rows [published; fresh] [fresh] `"keywords.xlsx"
           `"Keyword" eq_refl).
Defined.

Lemma filterRows_throws (p : row -> xlError + bool) (P : xlError -> Prop) (data : list row) :
  (forall r e, p r = inl e -> P e) ->
  (exists r e, In r data /\ p r = inl e) ->
  exists e, filterRows p data = inl e /\ P e.
Proof.
  intros HP. induction data as [|d data IH]; intros (r & e & Hin & He); [destruct Hin|].
  cbn [filterRows]. destruct (p d) as [e'|keep] eqn:Ed.
  - exists e'. split; [reflexivity|apply (HP d); exact Ed].
  - destruct Hin as [->|Hin]; [congruence|].
    destruct IH as (e1 & E1 & P1); [exists r, e; auto|].
    rewrite E1. exists e1. auto.
Qed.

(** X24. The read fails as a whole on a missing file, with the message
    [File not found:] and the path, and on a sheet in which some row with a
    keyword has a status that is a number other than 0 or [true]: then it
    throws a TypeError and returns no row at all. *)
Theorem readKeywordsFromExcel_errors (data : list row) (filePath keywordColumn : str)
    (r : row) (status : cell) :
  readKeywordsFromExcel None filePath keywordColumn
  = inl (XlError (`"File not found: " ++ filePath)) /\
  (In r data -> truthyCell (getCell r keywordColumn) = true ->
   getCell r `"Status" = Some status -> truthyCell (Some status) = true ->
   (forall s, status <> CStr s) ->
   exists msg,
     readKeywordsFromExcel (Some data) filePath keywordColumn = inl (XlTypeError msg)).
Proof.
  split; [reflexivity|]. intros Hin Hk Hs Ht Hn.
  destruct (filterRows_throws (isPending keywordColumn)
              (fun e => exists msg, e = XlTypeError msg) data) as (e & E & msg & ->).
  - intros r' e'. unfold isPending.
    destruct (truthyCell (getCell r' keywordColumn)); [|discriminate].
    destruct (negb (truthyCell (getCell r' `"Status"))); [discriminate|].
    destruct (getCell r' `"Status") as [[s|neg n|b]|]; intro H; try discriminate;
      inversion H; eexists; reflexivity.
  - exists r. eexists. split; [exact Hin|]. unfold isPending. rewrite Hk, Hs, Ht.
    cbn [negb]. destruct status as [s|neg n|b]; [exfalso; apply (Hn s); reflexivity| |];
      reflexivity.
  - exists msg. unfold readKeywordsFromExcel. destruct data as [|d data]; [destruct Hin|].
    exact E.
Qed.

Lemma readKeywordsFromExcel_errors_witness :
  exists msg,
    readKeywordsFromExcel
      (Some [[(`"Keyword", CStr `"tea")];
             [(`"Keyword", CStr `"cake"); (`"Status", CNum false 1)]])
      `"keywords.xlsx" `"Keyword"
    = inl (XlTypeError msg).
Proof.
  destruct (readKeywordsFromExcel_errors
              [[(`"Keyword", CStr `"tea")];
               [(`"Keyword", CStr `"cake"); (`"Status", CNum false 1)]]
              `"keywords.xlsx" `"Keyword"
              [(`"Keyword", CStr `"cake"); (`"Status", CNum false 1)] (CNum false 1))
    as [_ H].
  apply H; [right; left; reflexivity|reflexivity|reflexivity|reflexivity|discriminate].
Defined.

Lemma findIndex_first (p : row -> bool) (data : list row) (i : nat) :
  findIndex p data = Some i ->
  exists r, nth_error data i = Some r /\ p r = true /\
            forall j r', j < i -> nth_error data j = Some r' -> p r' = false.
Proof.
  revert i. induction data as [|d data IH]; intros i H; cbn [findIndex] in H; [discriminate|].
  destruct (p d) eqn:Ed.
  - inversion H; subst i. exists d. split; [reflexivity|]. split; [exact Ed|]. intros; lia.
  - destruct (findIndex p data) as [k|] eqn:Ek; [|discriminate].
    inversion H; subst i. destruct (IH k eq_refl) as (r & Hr & Hp & Hb).
    exists r. split; [exact Hr|]. split; [exact Hp|].
    intros [|j] r' Hj Hn; [inversion Hn; subst; exact Ed|].
    apply (Hb j r'); [lia|exact Hn].
Qed.

Lemma findIndex_none (p : row -> bool) (data : list row) :
  findIndex p data = None <-> forall r, In r data -> p r = false.
Proof.
  induction data as [|d data IH]; cbn [findIndex].
  - split; [intros _ r []|reflexivity].
  - destruct (p d) eqn:Ed.
    + split; [discriminate|]. intro H. rewrite (H d (or_introl eq_refl)) in Ed. discriminate.
    + destruct (findIndex p data) as [k|]; cbn [option_map].
      * split; [discriminate|]. intro H. destruct IH as [_ IH].
        discriminate IH. intros r Hr. apply H. right. exact Hr.
      * split; [|reflexivity]. intros _ r [<-|Hr]; [exact Ed|].
        destruct IH as [IH _]. apply (IH eq_refl r Hr).
Qed.

Lemma updateAt_shape (f : row -> row) (data : list row) :
  forall i r, nth_error data i = Some r ->
    length (updateAt i f data) = length data /\
    nth_error (updateAt i f data) i = Some (f r) /\
    forall j, j <> i -> nth_error (updateAt i f data) j = nth_error data j.
Proof.
  induction data as [|d data IH]; intros [|i] r H; cbn [nth_error] in H; try discriminate.
  - inversion H; subst d. cbn [updateAt length nth_error]. split; [reflexivity|].
    split; [reflexivity|]. intros [|j] Hj; [congruence|reflexivity].
  - destruct (IH i r H) as (H1 & H2 & H3). cbn [updateAt length nth_error].
    split; [rewrite H1; reflexivity|]. split; [exact H2|].
    intros [|j] Hj; [reflexivity|]. cbn [nth_error]. apply H3. congruence.
Qed.

Lemma markPublished_status (publishData : PublishData) (formattedDate : str) (r : row) :
  getCell (markPublished publishData formattedDate r) `"Status" = Some (CStr `"Published") /\
  getCell (markPublished publishData formattedDate r) `"Publication Date"
  = Some (CStr formattedDate) /\
  forall key, ~ In key [`"Status"; `"Publication Date"; `"Post URL"; `"Post ID"] ->
              getCell (markPublished publishData formattedDate r) key = getCell r key.
Proof.
  unfold markPublished. cbv zeta.
  set (url := match postUrl publishData with
              | Some v => if truthyCell (Some v) then v else CStr []
              | None => CStr []
              end).
  assert (H3 : forall key,
            getCell (setCell (setCell (setCell r `"Status" (CStr `"Published"))
                                      `"Publication Date" (CStr formattedDate))
                             `"Post URL" url) key
            = if str_eqb `"Post URL" key then Some url
              else if str_eqb `"Publication Date" key then Some (CStr formattedDate)
              else if str_eqb `"Status" key then Some (CStr `"Published")
              else getCell r key).
  { intro key.
    destruct (str_eqb `"Post URL" key) eqn:E1;
      [apply str_eqb_eq in E1; subst key; apply getCell_setCell_same|].
    rewrite getCell_setCell_other by (intro; subst key; rewrite str_eqb_refl in E1; discriminate).
    destruct (str_eqb `"Publication Date" key) eqn:E2;
      [apply str_eqb_eq in E2; subst key; apply getCell_setCell_same|].
    rewrite getCell_setCell_other by (intro; subst key; rewrite str_eqb_refl in E2; discriminate).
    destruct (str_eqb `"Status" key) eqn:E3;
      [apply str_eqb_eq in E3; subst key; apply getCell_setCell_same|].
    rewrite getCell_setCell_other by (intro; subst key; rewrite str_eqb_refl in E3; discriminate).
    reflexivity. }
  assert (H4 : forall key, str_eqb `"Post ID" key = false ->
            getCell (match postId publishData with
                     | Some v =>
                         if truthyCell (Some v)
                         then setCell (setCell (setCell (setCell r `"Status" (CStr `"Published"))
                                                        `"Publication Date" (CStr formattedDate))
                                               `"Post URL" url) `"Post ID" v
                         else setCell (setCell (setCell r `"Status" (CStr `"Published"))
                                               `"Publication Date" (CStr formattedDate))
                                      `"Post URL" url
                     | None => setCell (setCell (setCell r `"Status" (CStr `"Published"))
                                                `"Publication Date" (CStr formattedDate))
                                       `"Post URL" url
                     end) key
            = if str_eqb `"Post URL" key then Some url
              else if str_eqb `"Publication Date" key then Some (CStr formattedDate)
              else if str_eqb `"Status" key then Some (CStr `"Published")
              else getCell r key).
  { intros key Hk. destruct (postId publishData) as [v|]; [|apply H3].
    destruct (truthyCell (Some v)); [|apply H3].
    rewrite getCell_setCell_other; [apply H3|].
    intro; subst key; rewrite str_eqb_refl in Hk; discriminate. }
  split; [rewrite H4; reflexivity|]. split; [rewrite H4; reflexivity|].
  intros key Hkey. cbn [In] in Hkey.
  rewrite H4 by (apply str_eqb_neq; intro; subst; tauto).
  rewrite !str_eqb_neq by (intro; subst; tauto). reflexivity.
Qed.

(** X25. An update that writes changes one row only, the first one whose
    cell in the first column of the keyword row is the same as there: that
    row gets the status [Published] and the date, keeps every cell outside
    the four publication columns, and is no longer pending for any keyword
    column; the other rows and the number of rows are as before. *)
Theorem updateExcelWithPublicationStatus_marks (data written : list row)
    (absoluteExcelPath : str) (keywordRow : row) (publishData : PublishData)
    (formattedDate : str) :
  updateExcelWithPublicationStatus (Some data) absoluteExcelPath keywordRow publishData
                                   formattedDate
  = inr (Some written) ->
  exists i old new,
    nth_error data i = Some old /\ nth_error written i = Some new /\
    strictEq (getCell old (firstKey keywordRow))
             (getCell keywordRow (firstKey keywordRow)) = true /\
    (forall j r, j < i -> nth_error data j = Some r ->
                 strictEq (getCell r (firstKey keywordRow))
                          (getCell keywordRow (firstKey keywordRow)) = false) /\
    length written = length data /\
    (forall j, j <> i -> nth_error written j = nth_error data j) /\
    getCell new `"Status" = Some (CStr `"Published") /\
    getCell new `"Publication Date" = Some (CStr formattedDate) /\
    (forall key, ~ In key [`"Status"; `"Publication Date"; `"Post URL"; `"Post ID"] ->
                 getCell new key = getCell old key) /\
    (forall keywordColumn, isPending keywordColumn new = inr false).
Proof.
  unfold updateExcelWithPublicationStatus. cbv zeta. intro H.
  destruct (findIndex _ data) as [i|] eqn:E; [|discriminate].
  injection H as H. subst written.
  apply findIndex_first in E. destruct E as (old & Hold & Hp & Hbefore).
  destruct (updateAt_shape (markPublished publishData formattedDate) data i old Hold)
    as (Hlen & Hnew & Hother).
  destruct (markPublished_status publishData formattedDate old) as (Hs & Hd & Hkeep).
  exists i, old, (markPublished publishData formattedDate old).
  split; [exact Hold|]. split; [exact Hnew|]. split; [exact Hp|]. split; [exact Hbefore|].
  split; [exact Hlen|]. split; [exact Hother|]. split; [exact Hs|]. split; [exact Hd|].
  split; [exact Hkeep|]. intro keywordColumn. unfold isPending. rewrite Hs.
  destruct (truthyCell (getCell _ keywordColumn)); reflexivity.
Qed.

Lemma updateExcelWithPublicationStatus_marks_witness :
  let data := [[(`"Keyword", CStr `"tea"); (`"Status", CStr `"Pending")];
               [(`"Keyword", CStr `"cake"); (`"Status", CStr `"Pending")]] in
  let publishData := MkPublishData (Some (CStr `"https://example.org/?p=7"))
                                   (Some (CNum false 7)) in
  exists written new,
    updateExcelWithPublicationStatus (Some data) `"/data/keywords.xlsx"
      [(`"Keyword", CStr `"cake")] publishData `"2025-01-31"
    = inr (Some written) /\
    nth_error written 1 = Some new /\
    getCell new `"Status" = Some (CStr `"Published") /\
    nth_error written 0 = nth_error data 0.
Proof.
  intros data publishData.
  assert (Hrun : exists written,
            updateExcelWithPublicationStatus (Some data) `"/data/keywords.xlsx"
              [(`"Keyword", CStr `"cake")] publishData `"2025-01-31"
            = inr (Some written)) by (eexists; reflexivity).
  destruct Hrun as [written Hrun].
  destruct (updateExcelWithPublicationStatus_marks _ _ _ _ _ _ Hrun)
    as (i & old & new & Hold & Hnew & Hp & Hbefore & _ & Hother & Hs & _).
  assert (Hi : i = 1).
  { destruct i as [|[|i]].
    - cbn in Hold. inversion Hold; subst old. discriminate Hp.
    - reflexivity.
    - cbn in Hold. destruct i; discriminate. }
  subst i. exists written, new. split; [exact Hrun|]. split; [exact Hnew|].
  split; [exact Hs|]. apply Hother. discriminate.
Defined.

(** X26. Nothing is written when no row has the cell of the keyword row
    in its first column: the update returns without an error; and without
    the file it throws an error whose message names the path. *)
Theorem updateExcelWithPublicationStatus_unchanged (data : list row)
    (absoluteExcelPath : str) (keywordRow : row) (publishData : PublishData)
    (formattedDate : str) :
  ((forall r, In r data ->
      strictEq (getCell r (firstKey keywordRow))
               (getCell keywordRow (firstKey keywordRow)) = false) ->
   updateExcelWithPublicationStatus (Some data) absoluteExcelPath keywordRow publishData
                                    formattedDate
   = inr None) /\
  exists msg,
    updateExcelWithPublicationStatus None absoluteExcelPath keywordRow publishData
                                     formattedDate
    = inl (XlError msg) /\
    includes msg absoluteExcelPath = true.
Proof.
  split.
  - intro H. unfold updateExcelWithPublicationStatus. cbv zeta.
    apply findIndex_none in H. rewrite H. reflexivity.
  - eexists. split; [reflexivity|]. apply includes_split.
    exists (`"Error updating Excel with publication status: " ++ `"Excel file not found: "), [].
    rewrite app_nil_r, <- app_assoc. reflexivity.
Qed.

Lemma newRow_keyword (keywordColumn keyword : str) :
  ~ In keywordColumn [`"Status"; `"Publication Date"; `"Post URL"; `"Post ID"] ->
  getCell (newRow keywordColumn keyword) keywordColumn = Some (CStr keyword).
Proof.
  intro H. cbn [In] in H. unfold newRow.
  rewrite !getCell_setCell_other by (intro; subst; tauto).
  cbn [getCell]. rewrite str_eqb_refl. reflexivity.
Qed.

Lemma newRow_pending (keywordColumn keyword : str) :
  ~ In keywordColumn [`"Status"; `"Publication Date"; `"Post URL"; `"Post ID"] ->
  keyword <> [] ->
  isPending keywordColumn (newRow keywordColumn keyword) = inr true.
Proof.
  intros H Hk. unfold isPending. rewrite (newRow_keyword _ _ H).
  destruct keyword as [|c k]; [congruence|]. cbn [truthyCell nonEmpty].
  assert (Hs : getCell (newRow keywordColumn (c :: k)) `"Status" = Some (CStr `"Pending")).
  { unfold newRow. rewrite !getCell_setCell_other by discriminate.
    apply getCell_setCell_same. }
  rewrite Hs. reflexivity.
Qed.

Lemma add_fold (keywordColumn : str) :
  ~ In keywordColumn [`"Status"; `"Publication Date"; `"Post URL"; `"Post ID"] ->
  forall keywords data,
    exists added,
      fold_left (fun data keyword =>
                   if existsb (fun r => strictEq (getCell r keywordColumn)
                                                 (Some (CStr keyword))) data
                   then data else data ++ [newRow keywordColumn keyword])
                keywords data
      = data ++ added /\
      (forall r, In r added ->
         exists k, In k keywords /\ r = newRow keywordColumn k /\
                   existsb (fun r => strictEq (getCell r keywordColumn) (Some (CStr k)))
                           data = false) /\
      NoDup added /\
      (forall k, In k keywords ->
         existsb (fun r => strictEq (getCell r keywordColumn) (Some (CStr k)))
                 (data ++ added) = true).
Proof.
  intro Hcol. induction keywords as [|k ks IH]; intro data.
  - exists []. rewrite app_nil_r. split; [reflexivity|]. split; [intros r []|].
    split; [constructor|intros k []].
  - cbn [fold_left].
    destruct (existsb (fun r => strictEq (getCell r keywordColumn) (Some (CStr k))) data)
      eqn:E.
    + destruct (IH data) as (added & Hf & Hin & Hnd & Hall). exists added.
      split; [exact Hf|]. split.
      * intros r Hr. destruct (Hin r Hr) as (k' & Hk' & Hr' & He).
        exists k'. split; [right; exact Hk'|]. split; assumption.
      * split; [exact Hnd|]. intros k' [<-|Hk']; [|apply Hall; exact Hk'].
        rewrite existsb_app, E. reflexivity.
    + destruct (IH (data ++ [newRow keywordColumn k])) as (added & Hf & Hin & Hnd & Hall).
      exists (newRow keywordColumn k :: added).
      assert (Hself : strictEq (getCell (newRow keywordColumn k) keywordColumn)
                               (Some (CStr k)) = true).
      { rewrite (newRow_keyword _ _ Hcol). cbn [strictEq]. apply str_eqb_refl. }
      split; [rewrite Hf, <- app_assoc; reflexivity|]. split; [|split].
      * intros r [<-|Hr].
        -- exists k. split; [left; reflexivity|]. split; [reflexivity|exact E].
        -- destruct (Hin r Hr) as (k' & Hk' & Hr' & He).
           exists k'. split; [right; exact Hk'|]. split; [exact Hr'|].
           rewrite existsb_app in He. apply orb_false_iff in He. apply He.
      * constructor; [|exact Hnd]. intro Hr.
        destruct (Hin _ Hr) as (k' & _ & Hr' & He).
        assert (k' = k).
        { pose proof (newRow_keyword keywordColumn k Hcol) as G.
          rewrite Hr', (newRow_keyword _ _ Hcol) in G. congruence. }
        subst k'. rewrite existsb_app in He. apply orb_false_iff in He.
        destruct He as [_ He]. cbn [existsb] in He. rewrite orb_false_r in He.
        congruence.
      * intros k' [<-|Hk'].
        -- rewrite existsb_app. cbn [existsb]. rewrite Hself. apply orb_true_r.
        -- specialize (Hall k' Hk'). rewrite <- app_assoc in Hall. exact Hall.
Qed.

Lemma add_fold_fixed (keywordColumn : str) :
  forall keywords data,
    (forall k, In k keywords ->
       existsb (fun r => strictEq (getCell r keywordColumn) (Some (CStr k))) data = true) ->
    fold_left (fun data keyword =>
                 if existsb (fun r => strictEq (getCell r keywordColumn)
                                               (Some (CStr keyword))) data
                 then data else data ++ [newRow keywordColumn keyword])
              keywords data
    = data.
Proof.
  induction keywords as [|k ks IH]; intros data H; [reflexivity|].
  cbn [fold_left]. rewrite (H k (or_introl eq_refl)).
  apply IH. intros k' Hk'. apply H. right. exact Hk'.
Qed.

(** X27. Adding keywords keeps the rows of the sheet, in their order and
    as they are, and puts new rows after them: one for each keyword that no
    row has in the keyword column yet, once, with the status [Pending].
    A new row with a non-empty keyword is pending for the read.  Afterwards
    every keyword of the list has a row; adding the same list again changes
    nothing.  (The keyword column is not one of the four
    publication columns.) *)
Theorem addKeywordsToExcel_adds (file : option (list row)) (keywords : list str)
    (keywordColumn : str) :
  ~ In keywordColumn [`"Status"; `"Publication Date"; `"Post URL"; `"Post ID"] ->
  let data := match file with Some data => data | None => [] end in
  exists added,
    addKeywordsToExcel file keywords keywordColumn = data ++ added /\
    NoDup added /\
    (forall r, In r added ->
       exists k, In k keywords /\ r = newRow keywordColumn k /\
                 getCell r `"Status" = Some (CStr `"Pending") /\
                 (k <> [] -> isPending keywordColumn r = inr true) /\
                 forall old, In old data -> getCell old keywordColumn <> Some (CStr k)) /\
    (forall k, In k keywords ->
       exists r, In r (data ++ added) /\ getCell r keywordColumn = Some (CStr k)) /\
    addKeywordsToExcel (Some (data ++ added)) keywords keywordColumn = data ++ added.
Proof.
  intros Hcol data. unfold addKeywordsToExcel. fold data.
  destruct (add_fold keywordColumn Hcol keywords data) as (added & Hf & Hin & Hnd & Hall).
  exists added. split; [exact Hf|]. split; [exact Hnd|]. split; [|split].
  - intros r Hr. destruct (Hin r Hr) as (k & Hk & -> & He).
    exists k. split; [exact Hk|]. split; [reflexivity|]. split; [|split].
    + unfold newRow. rewrite !getCell_setCell_other by discriminate.
      apply getCell_setCell_same.
    + apply newRow_pending. exact Hcol.
    + intros old Hold Hc.
      assert (Ht : existsb (fun r => strictEq (getCell r keywordColumn) (Some (CStr k)))
                           data = true).
      { apply existsb_exists. exists old. split; [exact Hold|]. rewrite Hc.
        cbn [strictEq]. apply str_eqb_refl. }
      congruence.
  - intros k Hk. specialize (Hall k Hk). apply existsb_exists in Hall.
    destruct Hall as (r & Hr & He). exists r. split; [exact Hr|].
    destruct (getCell r keywordColumn) as [[s|neg n|b]|]; cbn [strictEq] in He;
      try discriminate.
    apply str_eqb_eq in He. subst s. reflexivity.
  - apply add_fold_fixed. exact Hall.
Qed.

Lemma addKeywordsToExcel_adds_witness :
  exists added,
    addKeywordsToExcel (Some [[(`"Keyword", CStr `"tea")]]) [`"tea"; `"cake"; `"cake"]
                       `"Keyword"
    = [[(`"Keyword", CStr `"tea")]] ++ added /\
    NoDup added /\
    addKeywordsToExcel (Some ([[(`"Keyword", CStr `"tea")]] ++ added))
                       [`"tea"; `"cake"; `"cake"] `"Keyword"
    = [[(`"Keyword", CStr `"tea")]] ++ added.
Proof.
  destruct (addKeywordsToExcel_adds (Some [[(`"Keyword", CStr `"tea")]])
              [`"tea"; `"cake"; `"cake"] `"Keyword") as (added & H & Hnd & _ & _ & Hi).
  - cbn [In]. intros [H|[H|[H|[H|[]]]]]; discriminate.
  - exists added. split; [exact H|]. split; [exact Hnd|exact Hi].
Defined.

Lemma updateExcelWithPublicationStatus_unchanged_witness :
  updateExcelWithPublicationStatus (Some [[(`"Keyword", CStr `"tea")]])
    `"/data/keywords.xlsx" [(`"Keyword", CStr `"cake")] (MkPublishData None None)
    `"2025-01-31"
  = inr None.
Proof.
  destruct (updateExcelWithPublicationStatus_unchanged [[(`"Keyword", CStr `"tea")]]
              `"/data/keywords.xlsx" [(`"Keyword", CStr `"cake")] (MkPublishData None None)
              `"2025-01-31") as [H _].
  apply H. intros r [<-|[]]. reflexivity.
Defined.

(** ** What every request carries *)

Lemma includes_self (s t : str) : includes (s ++ t) s = true.
Proof. apply includes_split. exists [], t. reflexivity. Qed.

Lemma includes_left (s t p : str) : includes s p = true -> includes (s ++ t) p = true.
Proof.
  intro H. apply includes_split in H. destruct H as (a & b & ->).
  apply includes_split. exists a, (b ++ t). rewrite <- !app_assoc. reflexivity.
Qed.

Lemma includes_right (s t p : str) : includes t p = true -> includes (s ++ t) p = true.
Proof.
  intro H. apply includes_split in H. destruct H as (a & b & ->).
  apply includes_split. exists (s ++ a), b. rewrite <- !app_assoc. reflexivity.
Qed.

Lemma includes_whole (s : str) : includes s s = true.
Proof. apply includes_split. exists [], []. rewrite app_nil_r. reflexivity. Qed.

Lemma avoidDirective_includes (avoid : str) : includes (avoidDirective avoid) avoid = true.
Proof. unfold avoidDirective. do 4 apply includes_right. apply includes_whole. Qed.

Lemma titleAvoidDirective_includes (avoid : str) :
  includes (titleAvoidDirective avoid) avoid = true.
Proof. unfold titleAvoidDirective. do 3 apply includes_right. apply includes_whole. Qed.

Section EveryRequest.

Variable JSON_parse : str -> option (list json).
Variable llm : nat -> ChatRequest -> js (option str).

Lemma callsOnly_gret {A : Type} (P : ChatRequest -> Prop) (a : A) : callsOnly P (gret a).
Proof. intro log. exists []. rewrite app_nil_r. split; [reflexivity|intros r []]. Qed.

Lemma callsOnly_lift {A : Type} (P : ChatRequest -> Prop) (m : js A) : callsOnly P (lift m).
Proof. intro log. exists []. rewrite app_nil_r. split; [reflexivity|intros r []]. Qed.

Lemma callsOnly_createCompletion (P : ChatRequest -> Prop) (request : ChatRequest) :
  P request -> callsOnly P (createCompletion llm request).
Proof.
  intros H log. exists [request]. split; [reflexivity|]. intros r [<-|[]]. exact H.
Qed.

Lemma callsOnly_gbind {A B : Type} (P : ChatRequest -> Prop) (m : Gen A) (f : A -> Gen B) :
  callsOnly P m -> (forall a, callsOnly P (f a)) -> callsOnly P (gbind m f).
Proof.
  intros Hm Hf log. unfold gbind. destruct (Hm log) as (made1 & E1 & L1).
  destruct (m log) as [[a|e] log1]; cbn [snd] in E1; subst log1.
  - destruct (Hf a (log ++ made1)) as (made2 & E2 & L2).
    exists (made1 ++ made2). rewrite E2, app_assoc. split; [reflexivity|].
    intros r Hr. apply in_app_or in Hr. destruct Hr; auto.
  - exists made1. auto.
Qed.

Lemma callsOnly_rethrow {A : Type} (P : ChatRequest -> Prop) (m : Gen A) :
  callsOnly P m -> callsOnly P (rethrow m).
Proof.
  intros Hm log. unfold rethrow. destruct (Hm log) as (made & E & L).
  destruct (m log) as [[a|e] log1]; exists made; auto.
Qed.

(** X28. Whatever its outcome, every request of a generation uses the
    model and the temperature of the configuration; and when the settings
    name things to avoid, the user prompt of every request, the title
    request included, contains them as they were written. *)
Theorem generateArticleContent_every_request config keyword minWords ps :
  callsOnly
    (fun request =>
       req_model request = model config /\
       req_temperature request = temperature config /\
       match ps with
       | Some s => nonEmpty (thingsToAvoid s) = true ->
                   includes (req_user request) (thingsToAvoid s) = true
       | None => True
       end)
    (generateArticleContent JSON_parse llm config keyword minWords ps).
Proof.
  set (P := fun request =>
       req_model request = model config /\
       req_temperature request = temperature config /\
       match ps with
       | Some s => nonEmpty (thingsToAvoid s) = true ->
                   includes (req_user request) (thingsToAvoid s) = true
       | None => True
       end).
  assert (Hfin : forall text, callsOnly P (finishArticle JSON_parse llm config keyword ps text)).
  { intro text. unfold finishArticle. cbv zeta.
    apply callsOnly_gbind.
    - apply callsOnly_createCompletion. unfold P.
      cbn [req_model req_temperature req_user]. split; [reflexivity|]. split; [reflexivity|].
      destruct ps as [s|]; [|exact I]. intro Hne. rewrite Hne.
      apply includes_right. apply titleAvoidDirective_includes.
    - intro a. apply callsOnly_gbind; [apply callsOnly_lift|]. intro t.
      apply callsOnly_gbind; [apply callsOnly_lift|]. intro c.
      apply callsOnly_gbind; [apply callsOnly_lift|]. intro r. apply callsOnly_gret. }
  unfold generateArticleContent. apply callsOnly_rethrow.
  destruct ps as [s|].
  - destruct (useMultiPartGeneration s).
    + assert (Hpart : forall wc template system format,
                callsOnly P (generateArticlePart JSON_parse llm config keyword wc template
                                                 system s format)).
      { intros wc template system format. unfold generateArticlePart. cbv zeta.
        apply callsOnly_gbind; [|intro a; apply callsOnly_lift].
        apply callsOnly_createCompletion. unfold P.
        cbn [req_model req_temperature req_user]. split; [reflexivity|]. split; [reflexivity|].
        intro Hne. rewrite Hne.
        match goal with
        | |- includes (if nonEmpty format then ?x else ?y) _ = true =>
            assert (Hy : includes y (thingsToAvoid s) = true)
              by (apply includes_right; apply avoidDirective_includes);
            destruct (nonEmpty format); [|exact Hy]
        end.
        repeat match goal with
               | |- includes (if ?b then _ else _) _ = true => destruct b
               end;
          repeat (apply includes_left; try exact Hy). }
      unfold generateMultiPartArticle. cbv zeta.
      apply callsOnly_gbind; [apply Hpart|]. intro p1.
      apply callsOnly_gbind; [apply Hpart|]. intro p2.
      apply callsOnly_gbind; [apply Hpart|]. intro p3.
      apply callsOnly_gbind; [apply callsOnly_lift|]. intro text. apply Hfin.
    + cbv zeta. apply callsOnly_gbind.
      * apply callsOnly_createCompletion. unfold P.
        cbn [req_model req_temperature req_user]. split; [reflexivity|]. split; [reflexivity|].
        intro Hne. rewrite Hne. apply includes_left.
        destruct (useArticleFormat s && nonEmpty (articleFormat s));
          [apply includes_left|]; apply includes_right; apply avoidDirective_includes.
      * intro a. apply callsOnly_gbind; [apply callsOnly_lift|]. intro text. apply Hfin.
  - apply callsOnly_gbind; [|intro a; apply Hfin].
    apply callsOnly_createCompletion. unfold P. cbn [req_model req_temperature].
    auto.
Qed.

End EveryRequest.

Lemma generateArticleContent_every_request_witness :
  let config := MkOpenAIConfig `"key" `"gpt-4" 70 4000 in
  let llm := fun (_ : nat) (_ : ChatRequest) => Ret (Some `"<p>Some text</p>") in
  let multi := MkPromptSettings true [] [] [] [] [] [] `"cheap, free" [] false false [] in
  exists made,
    snd (generateArticleContent (fun _ => None) llm config `"tea" 800 (Some multi) []) = made /\
    forall r, In r made -> includes (req_user r) `"cheap, free" = true.
Proof.
  intros config llm multi.
  destruct (generateArticleContent_every_request (fun _ => None) llm config `"tea" 800
              (Some multi) []) as (made & E & H).
  exists made. split; [exact E|].
  intros r Hr. destruct (H r Hr) as (_ & _ & Hi). apply Hi. reflexivity.
Defined.

(** ** The nutrition entries *)

Lemma hasGroup_lit (q : str) (i : nat) : hasGroup i (lit q) = false.
Proof. induction q as [|c q IH]; [reflexivity|]. cbn [lit hasGroup]. exact IH. Qed.

Lemma dot_only (x : ascii) : ceq true "." x = true -> x = "."%char.
Proof. each_ascii x; vm_compute; intro H; (discriminate || reflexivity). Qed.

Lemma star_class (ic neg : bool) (items : list citem) (k : cont) (s e : mstate) :
  rmatch ic (Star true (Cls neg items)) k s = Some e ->
  exists s' mid, k s' = Some e /\ rest s = mid ++ rest s' /\
                 consumed s' = rev mid ++ consumed s /\ caps s' = caps s /\
                 forallb (clsMatches ic neg items) mid = true.
Proof. intro H. cbn [rmatch] in H. apply starLoop_class in H. exact H. Qed.

Lemma opt_chr (ic : bool) (c : ascii) (k : cont) (s e : mstate) :
  rmatch ic (opt (Chr c)) k s = Some e ->
  exists s' mid, k s' = Some e /\ rest s = mid ++ rest s' /\ caps s' = caps s /\
                 (mid = [] \/ exists x, mid = [x] /\ ceq ic c x = true).
Proof.
  unfold opt. rewrite rmatch_alt. unfold orElse.
  destruct (rmatch ic (Chr c) k s) as [e'|] eqn:E.
  - intro H. inversion H; subst e'. cbn [rmatch] in E.
    destruct (rest s) as [|x xs] eqn:R; [discriminate|].
    destruct (ceq ic c x) eqn:Ex; [|discriminate].
    exists (step s x xs), [x]. cbn [step rest caps app].
    split; [exact E|]. split; [reflexivity|]. split; [reflexivity|].
    right. exists x. auto.
  - intro H. cbn [rmatch] in H. exists s, []. auto.
Qed.

(** Group [i] around [\d+\.?\d*] records digits, at most one dot and
    digits. *)
Lemma number_group (i : nat) (k : cont) (s e : mstate) :
  rmatch true (Grp i (seqs [plus true digit; opt (Chr "."); Star true digit])) k s = Some e ->
  exists s' whole dot frac,
    k s' = Some e /\ caps s' = (i, whole ++ dot ++ frac) :: caps s /\
    whole <> [] /\ forallb isDigit whole = true /\ (dot = [] \/ dot = `".") /\
    forallb isDigit frac = true.
Proof.
  rewrite rmatch_grp. cbn [seqs]. rewrite rmatch_seq. unfold digit. intro H.
  apply plus_class in H. destruct H as (s1 & whole & H & R1 & _ & K1 & Hne & Hw).
  rewrite rmatch_seq in H. apply opt_chr in H.
  destruct H as (s2 & dot & H & R2 & K2 & Hdot).
  apply star_class in H. destruct H as (s3 & frac & H & R3 & _ & K3 & Hf).
  exists (setCap i (firstn (length (rest s) - length (rest s3)) (rest s)) s3), whole, dot, frac.
  split; [exact H|]. cbn [setCap caps].
  assert (R : rest s = (whole ++ dot ++ frac) ++ rest s3)
    by (rewrite R1, R2, R3, <- !app_assoc; reflexivity).
  rewrite R, firstn_exact, K3, K2, K1.
  split; [reflexivity|]. split; [exact Hne|]. split; [apply digit_class; exact Hw|].
  split; [|apply digit_class; exact Hf].
  destruct Hdot as [->|(x & -> & Hx)]; [left; reflexivity|right].
  apply dot_only in Hx. subst x. reflexivity.
Qed.

Lemma amountRe_caps (label : regex) (unit units : string) (bf af : str) (e : mstate) :
  (forall i, hasGroup i label = false) ->
  matchAt true (amountRe label unit units) bf af = Some e ->
  exists v, lookupCap 1 (caps e) = Some v /\ isAmount [] v.
Proof.
  intros Hlabel H. unfold matchAt, amountRe in H. cbn [seqs] in H.
  rewrite rmatch_seq in H. apply rmatch_plain in H; [|exact Hlabel].
  destruct H as (s1 & mid1 & H & _ & _ & K). cbn [caps] in K.
  plain_step H s2 K. plain_step H s3 K.
  rewrite rmatch_seq in H. apply number_group in H.
  destruct H as (s4 & whole & dot & frac & H & K4 & Hne & Hw & Hdot & Hf).
  rewrite K in K4. clear K.
  rewrite rmatch_seq in H. apply rmatch_plain in H; [|intro; reflexivity].
  destruct H as (s5 & _ & H & _ & _ & K5). rewrite K4 in K5. clear K4.
  apply rmatch_trace in H. destruct H as (s6 & mid6 & extra & H & _ & _ & K6 & G6).
  inversion H; subst e. rewrite K6, K5.
  rewrite lookupCap_skip.
  - cbn [lookupCap Nat.eqb]. exists (whole ++ dot ++ frac). split; [reflexivity|].
    exists whole, dot, frac. rewrite app_nil_r. auto.
  - intros i v Hin. specialize (G6 i v Hin). cbn [hasGroup] in G6.
    rewrite !hasGroup_lit, !orb_false_r in G6. apply Nat.eqb_eq in G6. subst i. reflexivity.
Qed.

Lemma isAmount_unit (unit v : str) : isAmount [] v -> isAmount unit (v ++ unit).
Proof.
  intros (whole & dot & frac & -> & H). exists whole, dot, frac.
  rewrite app_nil_r, <- !app_assoc. auto.
Qed.

Lemma amountOf_format (label : regex) (unit units : string) (suffix : str)
    (section : option str) :
  (forall i, hasGroup i label = false) ->
  amountOf (amountRe label unit units) suffix section = [] \/
  isAmount suffix (amountOf (amountRe label unit units) suffix section).
Proof.
  intro Hlabel. unfold amountOf. destruct section as [text|]; [|left; reflexivity].
  destruct (reExec true (amountRe label unit units) text) as [m|] eqn:E; [|left; reflexivity].
  right. apply reExec_at in E. destruct E as (bf & af & e & E & ->).
  apply amountRe_caps in E; [|exact Hlabel]. destruct E as (v & E & Hv).
  unfold group, mkMatch. cbn [m_caps]. rewrite E. cbn [interp].
  apply isAmount_unit. exact Hv.
Qed.

Lemma orDefault_format (suffix v dflt : str) :
  (v = [] \/ isAmount suffix v) -> isAmount suffix dflt -> isAmount suffix (orDefault v dflt).
Proof.
  intros [->|H] Hd; [exact Hd|]. unfold orDefault.
  destruct (nonEmpty v); [exact H|exact Hd].
Qed.

Lemma caloriesRe_caps (bf af : str) (e : mstate) :
  matchAt true caloriesRe bf af = Some e ->
  exists number, lookupCap 1 (caps e) = Some number /\ number <> [] /\
                 forallb isDigit number = true.
Proof.
  intro H. unfold matchAt, caloriesRe in H. cbn [seqs] in H.
  rewrite rmatch_seq in H. apply rmatch_plain in H; [|intro; apply hasGroup_lit].
  destruct H as (s1 & mid1 & H & _ & _ & K). cbn [caps] in K.
  plain_step H s2 K. plain_step H s3 K.
  unfold digit in H. apply group_class in H.
  destruct H as (s4 & number & H & _ & K4 & Hne & Hdig).
  inversion H; subst e. rewrite K4. cbn [lookupCap Nat.eqb].
  exists number. split; [reflexivity|]. split; [exact Hne|]. apply digit_class. exact Hdig.
Qed.

Lemma default_amount (whole unit : str) :
  whole <> [] -> forallb isDigit whole = true -> isAmount unit (whole ++ unit).
Proof.
  intros Hne Hd. exists whole, [], []. cbn [app].
  split; [reflexivity|]. split; [exact Hne|]. split; [exact Hd|]. split; [left|]; reflexivity.
Qed.

(** X29. The nutrition entries of the recipe details are always well
    formed.  The calories are a run of decimal digits.  Fat, carbohydrates
    and protein are a number, that is digits with at most one dot, followed
    by [g]; sugar and fiber are such an amount or empty; sodium and
    cholesterol are a number followed by [mg], or empty.  The serving size
    is always [1 serving], and the three kinds of fat are always empty. *)
Theorem extractNutrition_format (content : str) :
  let n := extractNutrition content in
  ServingSize n = `"1 serving" /\
  SaturatedFat n = [] /\ UnsaturatedFat n = [] /\ TransFat n = [] /\
  (Calories n <> [] /\ forallb isDigit (Calories n) = true) /\
  isAmount `"g" (Fat n) /\ isAmount `"g" (Carbohydrates n) /\ isAmount `"g" (Protein n) /\
  (Sugar n = [] \/ isAmount `"g" (Sugar n)) /\
  (Fiber n = [] \/ isAmount `"g" (Fiber n)) /\
  (Sodium n = [] \/ isAmount `"mg" (Sodium n)) /\
  (Cholesterol n = [] \/ isAmount `"mg" (Cholesterol n)).
Proof.
  cbv zeta. unfold extractNutrition. cbv zeta.
  cbn [ServingSize SaturatedFat UnsaturatedFat TransFat Calories Fat Carbohydrates Protein
       Sugar Fiber Sodium Cholesterol].
  set (section := option_map toLowerCase (sectionOf nutritionTitles content)).
  split; [reflexivity|]. split; [reflexivity|]. split; [reflexivity|]. split; [reflexivity|].
  split.
  { unfold amountOf. destruct section as [text|]; [|split; [discriminate|reflexivity]].
    destruct (reExec true caloriesRe text) as [m|] eqn:E; [|split; [discriminate|reflexivity]].
    apply reExec_at in E. destruct E as (bf & af & e & E & ->).
    apply caloriesRe_caps in E. destruct E as (number & E & Hne & Hd).
    unfold group, mkMatch. cbn [m_caps]. rewrite E. cbn [interp]. rewrite app_nil_r.
    unfold orDefault. destruct number as [|d number]; [contradiction|].
    cbn [nonEmpty]. split; [discriminate|exact Hd]. }
  assert (Hplain : forall q i, hasGroup i (lit q) = false) by (intros; apply hasGroup_lit).
  split.
  { apply orDefault_format; [apply amountOf_format; apply Hplain|].
    apply (default_amount `"10" `"g"); [discriminate|reflexivity]. }
  split.
  { apply orDefault_format; [apply amountOf_format; intro; reflexivity|].
    apply (default_amount `"30" `"g"); [discriminate|reflexivity]. }
  split.
  { apply orDefault_format; [apply amountOf_format; apply Hplain|].
    apply (default_amount `"15" `"g"); [discriminate|reflexivity]. }
  split; [apply amountOf_format; apply Hplain|].
  split; [apply amountOf_format; apply Hplain|].
  split; [apply amountOf_format; apply Hplain|].
  apply amountOf_format; apply Hplain.
Qed.
